(** * l5x2ST: a shallow embedding of the L5X <-> Structured Text translator

    The development follows the Python sources of the package
    [l5x_st_compiler]:

    - [PyStr]      the [str] methods the sources call (find, slicing,
                   replace, split, strip, join, upper);
    - [Dict]       insertion-ordered dictionaries;
    - [Ladder]     ladder_logic.py (rung text to ST);
    - [Fbd]        fbd_translator.py (function block sheets to ST);
    - [Ident]      constants.RESERVED_WORDS, utils.clean_identifier,
                   utils.sanitize_identifier;
    - [TagValue]   the value block of utils.extract_tag_info;
    - [Fidelity]   IRConverter.calculate_fidelity_score;
    - [Serializer] ST2L5XConverter._add_basic_data_types.

    A Python [str] is modelled by [string]: a sequence of characters with
    code points below 256.  Integers used as indices are in [Z], because the
    sources compute with the value -1 that [str.find] returns. *)

From Stdlib Require Import String Ascii List ZArith Lia Bool Arith QArith.
From Stdlib Require Import Relations Permutation.
Import ListNotations.
Open Scope string_scope.

(* ================================================================== *)
(** ** Python string methods *)
(* ================================================================== *)

Module PyStr.

Definition chr (n : nat) : ascii := ascii_of_nat n.
Definition nl : string := String (chr 10) "".
Definition tab : string := String (chr 9) "".

Definition len (s : string) : Z := Z.of_nat (String.length s).

(** [s.replace(c, d)] for one-character [c] and [d]. *)
Fixpoint replace_char (c d : ascii) (s : string) : string :=
  match s with
  | "" => ""
  | String a r =>
      String (if Ascii.eqb a c then d else a) (replace_char c d r)
  end.

(** [s.replace(c, '')] for a one-character [c]. *)
Fixpoint remove_char (c : ascii) (s : string) : string :=
  match s with
  | "" => ""
  | String a r =>
      if Ascii.eqb a c then remove_char c r else String a (remove_char c r)
  end.

(** [s.replace(c, '', 1)]: only the first occurrence goes. *)
Fixpoint remove_first (c : ascii) (s : string) : string :=
  match s with
  | "" => ""
  | String a r => if Ascii.eqb a c then r else String a (remove_first c r)
  end.

(** [s.find(c)] for a one-character [c]: the first index, or -1. *)
Fixpoint find_char (c : ascii) (s : string) : Z :=
  match s with
  | "" => -1
  | String a r =>
      if Ascii.eqb a c then 0
      else let k := find_char c r in if k <? 0 then -1 else k + 1
  end%Z.

Fixpoint drop (n : nat) (s : string) : string :=
  match n, s with
  | O, _ => s
  | S _, "" => ""
  | S m, String _ r => drop m r
  end.

Fixpoint take (n : nat) (s : string) : string :=
  match n, s with
  | O, _ => ""
  | S _, "" => ""
  | S m, String a r => String a (take m r)
  end.

(** A slice bound as Python normalises it: a negative bound counts from the
    end, and the result is clamped to [0, len s]. *)
Definition bound (s : string) (i : Z) : nat :=
  let n := len s in
  Z.to_nat (if i <? 0 then Z.max 0 (i + n) else Z.min i n)%Z.

(** [s[i:]], [s[:j]] and [s[i:j]]. *)
Definition slice_from (s : string) (i : Z) : string := drop (bound s i) s.
Definition slice_to (s : string) (j : Z) : string := take (bound s j) s.
Definition slice (s : string) (i j : Z) : string :=
  take (bound s j - bound s i) (drop (bound s i) s).

(** [sep.join(l)]. *)
Fixpoint join (sep : string) (l : list string) : string :=
  match l with
  | [] => ""
  | [x] => x
  | x :: r => x ++ sep ++ join sep r
  end.

(** [s.split(c)] for a one-character separator: empty fields are kept and
    the result is never the empty list. *)
Fixpoint split_char (c : ascii) (s : string) : list string :=
  match s with
  | "" => [""]
  | String a r =>
      if Ascii.eqb a c then "" :: split_char c r
      else match split_char c r with
           | [] => [String a ""]
           | w :: ws => String a w :: ws
           end
  end.

(** [str.isspace] on one character with code point below 256. *)
Definition is_space (a : ascii) : bool :=
  let n := nat_of_ascii a in
  (((9 <=? n) && (n <=? 13)) || ((28 <=? n) && (n <=? 32))
   || (n =? 133) || (n =? 160))%nat.

(** [s.split()]: fields between runs of white space, no empty field. *)
Fixpoint split_ws_aux (cur : string) (s : string) : list string :=
  match s with
  | "" => if String.eqb cur "" then [] else [cur]
  | String a r =>
      if is_space a
      then (if String.eqb cur "" then split_ws_aux "" r
            else cur :: split_ws_aux "" r)
      else split_ws_aux (cur ++ String a "") r
  end.
Definition split_ws (s : string) : list string := split_ws_aux "" s.

Fixpoint lstrip (s : string) : string :=
  match s with
  | "" => ""
  | String a r => if is_space a then lstrip r else s
  end.

Fixpoint rev (s : string) : string :=
  match s with
  | "" => ""
  | String a r => rev r ++ String a ""
  end.

Definition rstrip (s : string) : string := rev (lstrip (rev s)).

(** [s.strip()]. *)
Definition strip (s : string) : string := rstrip (lstrip s).

(** [s.startswith(p)] and [s.endswith(p)] *)
Fixpoint startswith (p s : string) : bool :=
  match p with
  | "" => true
  | String a p' =>
      match s with
      | "" => false
      | String b s' => Ascii.eqb a b && startswith p' s'
      end
  end.
Definition endswith (p s : string) : bool := startswith (rev p) (rev s).

Definition is_lower (a : ascii) : bool :=
  let n := nat_of_ascii a in ((97 <=? n) && (n <=? 122))%nat.
Definition is_upper (a : ascii) : bool :=
  let n := nat_of_ascii a in ((65 <=? n) && (n <=? 90))%nat.
Definition is_digit (a : ascii) : bool :=
  let n := nat_of_ascii a in ((48 <=? n) && (n <=? 57))%nat.

Definition upper_char (a : ascii) : ascii :=
  if is_lower a then ascii_of_nat (nat_of_ascii a - 32) else a.

(** [s.upper()] on the letters a-z.  A character above code point 127 is
    left as it is: Python maps it to a character that is again outside
    ASCII (or, for the sharp s, to "SS"), which matters to the sources only
    through comparison with all-ASCII table keys, none of which contains
    "SS". *)
Fixpoint upper (s : string) : string :=
  match s with
  | "" => ""
  | String a r => String (upper_char a) (upper r)
  end.

(** Is [x] one of the strings of [l]? *)
Definition mem (x : string) (l : list string) : bool :=
  existsb (String.eqb x) l.

(** [sub in s] *)
Fixpoint contains (sub s : string) : bool :=
  startswith sub s
  || match s with
     | "" => false
     | String _ r => contains sub r
     end.

(** What follows the first occurrence of [sub] in [s], if there is one. *)
Fixpoint after (sub s : string) : option string :=
  if startswith sub s then Some (drop (String.length sub) s)
  else match s with
       | "" => None
       | String _ r => after sub r
       end.

(** Do the strings of [parts] occur in [s] one after the other? *)
Fixpoint in_order (parts : list string) (s : string) : bool :=
  match parts with
  | [] => true
  | p :: rest =>
      match after p s with
      | Some r => in_order rest r
      | None => false
      end
  end.

(** The number of places of [s] at which [sub] starts. *)
Fixpoint occurrences (sub s : string) : nat :=
  (if startswith sub s then 1 else 0)
  + match s with
    | "" => 0
    | String _ r => occurrences sub r
    end.


(** The character [c] does not occur in [s]. *)
Fixpoint lacks (c : ascii) (s : string) : bool :=
  match s with
  | "" => true
  | String a r => negb (Ascii.eqb a c) && lacks c r
  end.


(** No character of [s] is white space. *)
Fixpoint no_space (s : string) : bool :=
  match s with
  | "" => true
  | String a r => negb (is_space a) && no_space r
  end.

End PyStr.

(* ================================================================== *)
(** ** Insertion-ordered dictionaries with string keys *)
(* ================================================================== *)

Module Dict.

Section WithValue.
Context {V : Type}.

Definition t := list (string * V).

Fixpoint get (k : string) (d : t) : option V :=
  match d with
  | [] => None
  | (k', v) :: r => if String.eqb k k' then Some v else get k r
  end.

Definition contains (k : string) (d : t) : bool :=
  match get k d with Some _ => true | None => false end.

(** [d[k] = v]: an existing key keeps its place, a new one goes last. *)
Fixpoint set (k : string) (v : V) (d : t) : t :=
  match d with
  | [] => [(k, v)]
  | (k', v') :: r =>
      if String.eqb k k' then (k', v) :: r else (k', v') :: set k v r
  end.

Definition keys (d : t) : list string := map fst d.
Definition values (d : t) : list V := map snd d.

End WithValue.
Arguments t : clear implicits.


(** The strings of a list without repetition, each at its first place. *)
Definition add_distinct (acc : list string) (k : string) : list string :=
  if existsb (String.eqb k) acc then acc else acc ++ [k].

Definition distinct (l : list string) : list string :=
  fold_left add_distinct l [].

End Dict.

(* ================================================================== *)
(** ** ladder_logic.py: rung text to Structured Text *)
(* ================================================================== *)

Module Ladder.
Import PyStr.

(** class LLFunc *)
Record LLFunc := mkLLFunc
  { fname : string; params : list string; conditional : bool }.

Definition CONDITIONAL_FUNCTIONS : Dict.t string :=
  [("EQU", "equ"); ("NEQ", "neq"); ("XIC", "xic"); ("XIO", "xio");
   ("GRT", "grt"); ("GEQ", "geq"); ("LES", "les"); ("LEQ", "leq")].

(** LLFunc.__init__ *)
Definition LLFunc_init (fname params : string) : LLFunc :=
  let ps := if String.eqb params "" then [] else split_char "," params in
  let ps := map strip (filter (fun p => negb (String.eqb (strip p) "")) ps) in
  mkLLFunc fname ps (Dict.contains fname CONDITIONAL_FUNCTIONS).

Definition p0 (ps : list string) : string := nth 0 ps "".
Definition p1 (ps : list string) : string := nth 1 ps "".
Definition p2 (ps : list string) : string := nth 2 ps "".
Definition p3 (ps : list string) : string := nth 3 ps "".

Definition arity (n : nat) (ps : list string) : bool :=
  Nat.eqb (List.length ps) n.

(** *** Condition instructions *)

Definition xic (ps : list string) : string :=
  match ps with
  | [] => "(FALSE)"
  | _ => "(" ++ join " AND " (map (fun p => "(" ++ p ++ " = 1)") ps) ++ ")"
  end.

Definition xio (ps : list string) : string :=
  match ps with
  | [] => "(FALSE)"
  | _ => "(" ++ join " AND " (map (fun p => "(" ++ p ++ " = 0)") ps) ++ ")"
  end.

Definition compare (op : string) (ps : list string) : string :=
  if arity 2 ps then "(" ++ p0 ps ++ " " ++ op ++ " " ++ p1 ps ++ ")"
  else "(FALSE)".

Definition equ := compare "=".
Definition neq := compare "<>".
Definition grt := compare ">".
Definition geq := compare ">=".
Definition les := compare "<".
Definition leq := compare "<=".

(** *** Output and other instructions *)

Definition ote (ps : list string) (condition : bool) : string :=
  if arity 1 ps
  then p0 ps ++ " := " ++ (if condition then "1" else "0") ++ ";"
  else "// ERROR: OTE requires exactly 1 parameter".

Definition otl (ps : list string) : string :=
  if arity 1 ps then p0 ps ++ " := 1;"
  else "// ERROR: OTL requires exactly 1 parameter".

Definition otu (ps : list string) : string :=
  if arity 1 ps then p0 ps ++ " := 0;"
  else "// ERROR: OTU requires exactly 1 parameter".

Definition clr (ps : list string) : string :=
  if arity 1 ps then p0 ps ++ " := 0;"
  else "// ERROR: CLR requires exactly 1 parameter".

Definition nop (ps : list string) : string := "// NOP instruction".

Definition gsv (ps : list string) : string :=
  if arity 4 ps then
    let part (label v : string) : list string :=
      if String.eqb v "?" then [] else [label ++ " := " ++ v] in
    "GSV(" ++ join ", " (part "ClassName" (p0 ps) ++ part "InstanceName" (p1 ps)
                         ++ part "AttributeName" (p2 ps) ++ part "Dest" (p3 ps))
    ++ ");"
  else "// ERROR: GSV requires exactly 4 parameters".

Definition ssv (ps : list string) : string :=
  if arity 4 ps
  then "SSV(" ++ p0 ps ++ ", " ++ p1 ps ++ ", " ++ p2 ps ++ ", " ++ p3 ps ++ ");"
  else "// ERROR: SSV requires exactly 4 parameters".

Definition jsr (ps : list string) : string :=
  if arity 1 ps
  then "// JSR to " ++ p0 ps ++ " routine" ++ nl
       ++ "// TODO: Process " ++ p0 ps ++ " routine content"
  else "// ERROR: JSR requires exactly 1 parameter".

Definition enable_str (enable : bool) : string :=
  if enable then "TRUE" else "FALSE".

Definition ton (ps : list string) (enable : bool) : string :=
  if arity 2 ps
  then p0 ps ++ ".PRE := " ++ p1 ps ++ ";" ++ nl
       ++ p0 ps ++ ".TimerEnable := " ++ enable_str enable ++ ";" ++ nl
       ++ "TONR(" ++ p0 ps ++ ");"
  else "// ERROR: TON requires exactly 2 parameters".

Definition tof (ps : list string) (enable : bool) : string :=
  if arity 2 ps
  then p0 ps ++ ".PRE := " ++ p1 ps ++ ";" ++ nl
       ++ p0 ps ++ ".TimerEnable := " ++ enable_str enable ++ ";" ++ nl
       ++ "TOFR(" ++ p0 ps ++ ");"
  else "// ERROR: TOF requires exactly 2 parameters".

Definition tonr (ps : list string) (enable : bool) : string :=
  if arity 2 ps
  then p0 ps ++ ".PRE := " ++ p1 ps ++ ";" ++ nl
       ++ p0 ps ++ ".TimerEnable := " ++ enable_str enable ++ ";" ++ nl
       ++ "TONR(" ++ p0 ps ++ ");"
  else "// ERROR: TONR requires exactly 2 parameters".

Definition mov (ps : list string) : string :=
  if arity 2 ps then p1 ps ++ " := " ++ p0 ps ++ ";"
  else "// ERROR: MOV requires exactly 2 parameters".

Definition cop (ps : list string) : string :=
  if arity 3 ps
  then "COP(" ++ p0 ps ++ ", " ++ p1 ps ++ ", " ++ p2 ps ++ ");"
  else "// ERROR: COP requires exactly 3 parameters".

Definition msg (ps : list string) : string :=
  if arity 1 ps then "// MSG(" ++ p0 ps ++ ") - commented out"
  else "// ERROR: MSG requires exactly 1 parameter".

Definition res (ps : list string) : string :=
  if arity 1 ps then p0 ps ++ ".Reset := 1;"
  else "// ERROR: RES requires exactly 1 parameter".

Definition ctu (ps : list string) (enable : bool) : string :=
  if arity 3 ps
  then p0 ps ++ ".PRE := " ++ p1 ps ++ ";" ++ nl
       ++ p0 ps ++ ".CU := " ++ enable_str enable ++ ";" ++ nl
       ++ p0 ps ++ ".RES := " ++ p2 ps ++ ";" ++ nl
       ++ "CTU(" ++ p0 ps ++ ");"
  else "// ERROR: CTU requires exactly 3 parameters".

Definition ctd (ps : list string) (enable : bool) : string :=
  if arity 3 ps
  then p0 ps ++ ".PRE := " ++ p1 ps ++ ";" ++ nl
       ++ p0 ps ++ ".CD := " ++ enable_str enable ++ ";" ++ nl
       ++ p0 ps ++ ".RES := " ++ p2 ps ++ ";" ++ nl
       ++ "CTD(" ++ p0 ps ++ ");"
  else "// ERROR: CTD requires exactly 3 parameters".

Definition ctud (ps : list string) (enable : bool) : string :=
  if arity 4 ps
  then p0 ps ++ ".PRE := " ++ p1 ps ++ ";" ++ nl
       ++ p0 ps ++ ".CU := " ++ p2 ps ++ ";" ++ nl
       ++ p0 ps ++ ".CD := " ++ p3 ps ++ ";" ++ nl
       ++ "CTUD(" ++ p0 ps ++ ");"
  else "// ERROR: CTUD requires exactly 4 parameters".

(** ADD, SUB, MUL, DIV, MOD: [dst := a op b;] *)
Definition arith (name op : string) (ps : list string) : string :=
  if arity 3 ps then p2 ps ++ " := " ++ p0 ps ++ " " ++ op ++ " " ++ p1 ps ++ ";"
  else "// ERROR: " ++ name ++ " requires exactly 3 parameters".

Definition add := arith "ADD" "+".
Definition sub := arith "SUB" "-".
Definition mul := arith "MUL" "*".
Definition div := arith "DIV" "/".
Definition mod_ := arith "MOD" "MOD".

(** SQR, ABS, BTD, DTB, FRD, TOD: [dst := F(src);] *)
Definition convert (name f : string) (ps : list string) : string :=
  if arity 2 ps then p1 ps ++ " := " ++ f ++ "(" ++ p0 ps ++ ");"
  else "// ERROR: " ++ name ++ " requires exactly 2 parameters".

Definition sqr := convert "SQR" "SQRT".
Definition abs := convert "ABS" "ABS".
Definition btd := convert "BTD" "BCD_TO_INT".
Definition dtb := convert "DTB" "INT_TO_BCD".
Definition frd := convert "FRD" "REAL_TO_INT".
Definition tod := convert "TOD" "INT_TO_REAL".

Definition osr (ps : list string) : string :=
  if arity 2 ps then "OSR(" ++ p0 ps ++ ", " ++ p1 ps ++ ");"
  else "// ERROR: OSR requires exactly 2 parameters".

Definition osf (ps : list string) : string :=
  if arity 2 ps then "OSF(" ++ p0 ps ++ ", " ++ p1 ps ++ ");"
  else "// ERROR: OSF requires exactly 2 parameters".

Definition rtrig (ps : list string) : string :=
  if arity 1 ps then "RTRIG(" ++ p0 ps ++ ");"
  else "// ERROR: RTRIG requires exactly 1 parameter".

Definition ftrig (ps : list string) : string :=
  if arity 1 ps then "FTRIG(" ++ p0 ps ++ ");"
  else "// ERROR: FTRIG requires exactly 1 parameter".

Definition CONDITIONAL_FUNCTIONS_IMPL : Dict.t (list string -> string) :=
  [("EQU", equ); ("NEQ", neq); ("XIC", xic); ("XIO", xio);
   ("GRT", grt); ("GEQ", geq); ("LES", les); ("LEQ", leq)].

(** The second argument is the flag that [process_instruction_list] passes
    to OTE and TON ([True], and [False] in the ELSE arm of an OTE).  Every
    other entry is called with the parameter list alone, so a counter or
    timer that has an [enable] parameter receives its default, [True]. *)
Definition REGULAR_FUNCTIONS_IMPL : Dict.t (list string -> bool -> string) :=
  [("COP", fun ps _ => cop ps); ("CLR", fun ps _ => clr ps);
   ("GSV", fun ps _ => gsv ps); ("JSR", fun ps _ => jsr ps);
   ("MOV", fun ps _ => mov ps); ("MSG", fun ps _ => msg ps);
   ("MUL", fun ps _ => mul ps); ("NOP", fun ps _ => nop ps);
   ("OTE", ote); ("OTL", fun ps _ => otl ps);
   ("OTU", fun ps _ => otu ps); ("SSV", fun ps _ => ssv ps);
   ("TON", ton); ("TOF", fun ps _ => tof ps true);
   ("TONR", fun ps _ => tonr ps true); ("RES", fun ps _ => res ps);
   ("CTU", fun ps _ => ctu ps true); ("CTD", fun ps _ => ctd ps true);
   ("CTUD", fun ps _ => ctud ps true);
   ("ADD", fun ps _ => add ps); ("SUB", fun ps _ => sub ps);
   ("DIV", fun ps _ => div ps); ("MOD", fun ps _ => mod_ ps);
   ("SQR", fun ps _ => sqr ps); ("ABS", fun ps _ => abs ps);
   ("OSR", fun ps _ => osr ps); ("OSF", fun ps _ => osf ps);
   ("RTRIG", fun ps _ => rtrig ps); ("FTRIG", fun ps _ => ftrig ps);
   ("BTD", fun ps _ => btd ps); ("DTB", fun ps _ => dtb ps);
   ("FRD", fun ps _ => frd ps); ("TOD", fun ps _ => tod ps)].


(** *** Parsing the rung text *)

(** The body of the [while offset != -1] loop of [format_rung_text]: the
    text between [start] and the next opening parenthesis has its commas and
    square brackets replaced, then [start] moves to the closing parenthesis
    and [offset] to the opening parenthesis after it. *)
Definition format_step (formatted : string) (start offset : Z)
  : string * Z * Z :=
  let formatted :=
    slice_to formatted start
    ++ replace_char "]" ">"
         (replace_char "[" "<"
            (replace_char "," ";" (slice formatted start offset)))
    ++ slice_from formatted offset in
  let start := (find_char ")" (slice_from formatted offset) + offset)%Z in
  let offset := find_char "(" (slice_from formatted start) in
  let offset := if (offset =? -1)%Z then offset else (offset + start)%Z in
  (formatted, start, offset).

(** The loop itself.  [None] stands for a loop that is still running when
    the fuel is used up. *)
Fixpoint format_loop (fuel : nat) (formatted : string) (start offset : Z)
  : option (string * Z) :=
  if (offset =? -1)%Z then Some (formatted, start)
  else match fuel with
       | O => None
       | S fuel =>
           let '(formatted, start, offset) :=
             format_step formatted start offset in
           format_loop fuel formatted start offset
       end.

Definition format_rung_text (fuel : nat) (text : string) : option string :=
  let formatted := remove_char " " text in
  match format_loop fuel formatted 0 (find_char "(" formatted) with
  | None => None
  | Some (formatted, start) =>
      Some (if (start =? -1)%Z then formatted
            else slice_to formatted start
                 ++ replace_char "]" ">" (slice_from formatted start))
  end.

Definition process_function (func params : string) : LLFunc :=
  LLFunc_init func params.

(** [for i in range(0, len(tokenized) - 1, 2)]: the tokens two by two; a
    last token without a partner is not used. *)
Fixpoint token_pairs (tokenized : list string) : list LLFunc :=
  match tokenized with
  | f :: ps :: rest =>
      process_function (remove_char " " (remove_char "," f)) ps
      :: token_pairs rest
  | _ => []
  end.

Definition process_sequential_function_calls (sequence : string)
  : list LLFunc :=
  let tokenized :=
    split_ws (replace_char ")" " "
                (replace_char "(" " " (remove_char " " sequence))) in
  match tokenized with
  | [t] => [process_function (remove_char " " (remove_char "," t)) ""]
  | _ => token_pairs tokenized
  end.

Definition is_nil {A} (l : list A) : bool :=
  match l with [] => true | _ => false end.

Definition process_rung_instructions (text : string)
  : list (list (list LLFunc)) :=
  let tokenized :=
    split_char " "
      (replace_char ">" " " (replace_char "<" " " (remove_char " " text))) in
  filter (fun disj_list => negb (is_nil disj_list))
    (map (fun block =>
            filter (fun flist => negb (is_nil flist))
              (map process_sequential_function_calls (split_char ";" block)))
         tokenized).

(** *** Emitting Structured Text *)

(** One pass of [for f in flist] in the condition part of a rung: [n] is
    [len(flist)] and [j] counts the conditions written so far. *)
Fixpoint rung_conditions (n : nat) (flist : list LLFunc) (s : string)
  (j : nat) : string :=
  match flist with
  | [] => s
  | f :: rest =>
      if negb (conditional f)
      then rung_conditions n rest
             (s ++ "// ERROR: Non-conditional instruction at beginning of rung"
                ++ nl) j
      else
        let s :=
          match Dict.get (fname f) CONDITIONAL_FUNCTIONS_IMPL with
          | Some impl => s ++ impl (params f)
          | None => s ++ "// Unknown conditional function: " ++ fname f ++ nl
          end in
        let j := S j in
        let s := if (j <? n)%nat then s ++ " AND " else s in
        rung_conditions n rest s j
  end.

(** [for flist in instr_list[0]], with [n = len(instr_list[0])]. *)
Fixpoint rung_disjuncts (n : nat) (disj : list (list LLFunc)) (s : string)
  (i : nat) : string :=
  match disj with
  | [] => s
  | flist :: rest =>
      let s := rung_conditions (List.length flist) flist s 0 in
      let i := S i in
      let s := if (i <? n)%nat then s ++ " OR " else s in
      rung_disjuncts n rest s i
  end.

(** [for cf in conditional_func_list] of an inner guard. *)
Fixpoint guard_conditions (n : nat) (cfl : list LLFunc) (s : string)
  (i : nat) : string :=
  match cfl with
  | [] => s
  | cf :: rest =>
      let s :=
        match Dict.get (fname cf) CONDITIONAL_FUNCTIONS_IMPL with
        | Some impl => s ++ impl (params cf)
        | None => s ++ "// Unknown conditional function: " ++ fname cf
        end in
      let i := S i in
      let s := if (i <? n)%nat then s ++ " AND " else s in
      guard_conditions n rest s i
  end.

(** The variables that the instruction loop updates. *)
Record emit_state := mkEmit
  { out : string; current_tab : string; conditional_func_list : list LLFunc }.

(** One pass of [for f in flist] in the instruction part. *)
Definition emit_instruction (st : emit_state) (f : LLFunc) : emit_state :=
  let s := out st in
  let ctab := current_tab st in
  let cfl := conditional_func_list st in
  if conditional f then mkEmit s ctab (cfl ++ [f])
  else
    let guarded := negb (is_nil cfl) in
    let '(s, ctab) :=
      if guarded
      then (guard_conditions (List.length cfl) cfl (s ++ ctab ++ "IF (") 0
              ++ ") THEN" ++ nl,
            ctab ++ tab)
      else (s, ctab) in
    let s :=
      match Dict.get (fname f) REGULAR_FUNCTIONS_IMPL with
      | Some impl => s ++ ctab ++ impl (params f) true ++ nl
      | None =>
          s ++ ctab ++ "// Unknown function: " ++ fname f ++ "("
            ++ join ", " (params f) ++ ")" ++ nl
      end in
    let s :=
      if guarded && String.eqb (fname f) "OTE"
      then s ++ remove_first (chr 9) ctab ++ "ELSE" ++ nl
             ++ ctab ++ ote (params f) false ++ nl
      else s in
    if guarded
    then let ctab := remove_first (chr 9) ctab in
         mkEmit (s ++ ctab ++ "END_IF;" ++ nl) ctab []
    else mkEmit s ctab cfl.

(** [for flist in instr_list[instruction_index]]: the list of pending
    conditions starts empty for each sequence. *)
Definition emit_sequence (st : emit_state) (flist : list LLFunc)
  : emit_state :=
  fold_left emit_instruction flist (mkEmit (out st) (current_tab st) []).

Definition process_instruction_list (instr_list : list (list (list LLFunc)))
  (tab0 : string) : string :=
  let conditional_rung := (1 <? List.length instr_list)%nat in
  let '(s, ctab) :=
    if conditional_rung
    then let head := nth 0 instr_list [] in
         (rung_disjuncts (List.length head) head "IF (" 0 ++ ") THEN" ++ nl,
          tab0 ++ tab)
    else ("", tab0) in
  let instruction_index := if conditional_rung then 1%nat else 0%nat in
  let st :=
    if (instruction_index <? List.length instr_list)%nat
    then fold_left emit_sequence (nth instruction_index instr_list [])
           (mkEmit s ctab [])
    else mkEmit s ctab [] in
  if conditional_rung then out st ++ "END_IF;" ++ nl else out st.

Definition process_rung (fuel : nat) (rung_text : string) : option string :=
  match format_rung_text fuel rung_text with
  | None => None
  | Some formatted_text =>
      Some (process_instruction_list
              (process_rung_instructions formatted_text) "")
  end.

(** [translate_ladder_to_st].  Nothing that [process_rung] does raises an
    exception (every index and every table lookup is guarded by the test
    that precedes it, and a slice never raises), so the [except] arm is not
    taken; the only way not to return is the loop of [format_rung_text]. *)
Definition translate_ladder_to_st (fuel : nat) (ladder_text : string)
  : option string :=
  process_rung fuel ladder_text.

End Ladder.

(* ================================================================== *)
(** ** xml.etree.ElementTree: the element tree the translators consume *)
(* ================================================================== *)

Module ET.

#[warnings="-register-all"]
Inductive Element : Type :=
  mkElement (tag : string) (attrib : Dict.t string) (text : string)
            (children : list Element).

Definition tag (e : Element) : string :=
  match e with mkElement t _ _ _ => t end.
Definition attrib (e : Element) : Dict.t string :=
  match e with mkElement _ a _ _ => a end.
Definition text (e : Element) : string :=
  match e with mkElement _ _ x _ => x end.
Definition children (e : Element) : list Element :=
  match e with mkElement _ _ _ c => c end.

(** [e.get(key)]: [None] when the attribute is absent. *)
Definition get (e : Element) (key : string) : option string :=
  Dict.get key (attrib e).

(** [e.get(key, '')] *)
Definition get_or_empty (e : Element) (key : string) : string :=
  match get e key with Some v => v | None => "" end.

(** [e.findall(t)] for a plain tag name: the direct children with that
    tag, in document order. *)
Definition findall (e : Element) (t : string) : list Element :=
  filter (fun c => String.eqb (tag c) t) (children e).

(** Truth value of an optional string: [None] and [''] are false. *)
Definition truthy (o : option string) : bool :=
  match o with
  | None => false
  | Some s => negb (String.eqb s "")
  end.

End ET.

(* ================================================================== *)
(** ** Decimal text of numbers, as [str] and f-strings print them *)
(* ================================================================== *)

Module PyInt.

Definition digit_char (d : nat) : ascii := ascii_of_nat (48 + d).

(** The decimal digits of [n], most significant first; [fuel] bounds the
    number of digits. *)
Fixpoint digits (fuel : nat) (n : N) (acc : string) : string :=
  match fuel with
  | O => acc
  | S fuel =>
      let acc := String (digit_char (N.to_nat (n mod 10))) acc in
      if (n <? 10)%N then acc else digits fuel (n / 10)%N acc
  end.

Definition str_of_N (n : N) : string := digits (S (N.to_nat (N.log2 n))) n "".

(** [str(z)] *)
Definition str (z : Z) : string :=
  match z with
  | Z0 => "0"
  | Zpos p => str_of_N (Npos p)
  | Zneg p => "-" ++ str_of_N (Npos p)
  end.

Definition str_of_nat (n : nat) : string := str_of_N (N.of_nat n).

End PyInt.

(* ================================================================== *)
(** ** fbd_translator.py: function block sheets to Structured Text *)
(* ================================================================== *)

Module Fbd.
Import PyStr.

(** The dictionary built for each AddOnInstruction element. *)
Record fb_info := mkFbInfo
  { name : string;
    operand : string;
    inputs : Dict.t string;
    outputs : Dict.t string;
    visible_pins : list string }.

(** The dictionary built for each Wire element; a missing attribute is
    [None]. *)
Record wire_info := mkWire
  { from_id : string;
    to_id : string;
    from_param : option string;
    to_param : option string }.

(** The fields of an [FBDTranslator] object. *)
Record FBDTranslator := mkFBD
  { input_refs : Dict.t string;
    output_refs : Dict.t string;
    function_blocks : Dict.t fb_info;
    wires : list wire_info;
    execution_order : list string }.

(** [__init__], and the state after the [clear()] calls that open
    [parse_fbd_content]. *)
Definition cleared : FBDTranslator := mkFBD [] [] [] [] [].

Definition _parse_refs (tag : string) (sheet : ET.Element)
  (refs : Dict.t string) : Dict.t string :=
  fold_left
    (fun refs r =>
       let ref_id := ET.get r "ID" in
       let operand := ET.get_or_empty r "Operand" in
       match ref_id with
       | Some id =>
           if negb (String.eqb id "") && negb (String.eqb operand "")
           then Dict.set id operand refs else refs
       | None => refs
       end)
    (ET.findall sheet tag) refs.

Definition _parse_input_refs (self : FBDTranslator) (sheet : ET.Element)
  : FBDTranslator :=
  mkFBD (_parse_refs "IRef" sheet (input_refs self)) (output_refs self)
        (function_blocks self) (wires self) (execution_order self).

Definition _parse_output_refs (self : FBDTranslator) (sheet : ET.Element)
  : FBDTranslator :=
  mkFBD (input_refs self) (_parse_refs "ORef" sheet (output_refs self))
        (function_blocks self) (wires self) (execution_order self).

Definition parse_fb (fb : ET.Element) : fb_info :=
  mkFbInfo (ET.get_or_empty fb "Name") (ET.get_or_empty fb "Operand")
    (fold_left
       (fun ins param =>
          let param_name := ET.get_or_empty param "Name" in
          let argument := ET.get_or_empty param "Argument" in
          if negb (String.eqb param_name "") && negb (String.eqb argument "")
          then Dict.set param_name argument ins else ins)
       (ET.findall fb "InOutParameter") [])
    []
    (split_ws (ET.get_or_empty fb "VisiblePins")).

Definition _parse_function_blocks (self : FBDTranslator) (sheet : ET.Element)
  : FBDTranslator :=
  mkFBD (input_refs self) (output_refs self)
    (fold_left
       (fun fbs fb =>
          match ET.get fb "ID" with
          | Some fb_id =>
              if negb (String.eqb fb_id "")
                 && negb (String.eqb (ET.get_or_empty fb "Name") "")
              then Dict.set fb_id (parse_fb fb) fbs else fbs
          | None => fbs
          end)
       (ET.findall sheet "AddOnInstruction") (function_blocks self))
    (wires self) (execution_order self).

Definition _parse_wires (self : FBDTranslator) (sheet : ET.Element)
  : FBDTranslator :=
  mkFBD (input_refs self) (output_refs self) (function_blocks self)
    (fold_left
       (fun ws wire =>
          match ET.get wire "FromID", ET.get wire "ToID" with
          | Some f, Some t =>
              if negb (String.eqb f "") && negb (String.eqb t "")
              then (ws ++ [mkWire f t (ET.get wire "FromParam")
                                  (ET.get wire "ToParam")])%list
              else ws
          | _, _ => ws
          end)
       (ET.findall sheet "Wire") (wires self))
    (execution_order self).

(** [s.add(x)] on a set kept as the list of its elements in the order they
    were first added. *)
Definition set_add (x : string) (s : list string) : list string :=
  if mem x s then s else s ++ [x].

(** [s.remove(x)] *)
Definition set_remove (x : string) (s : list string) : list string :=
  filter (fun y => negb (String.eqb y x)) s.

(** One pass of [for wire in self.wires] of [_determine_execution_order]:
    the source of a wire that joins two function blocks is added to the
    set of its destination. *)
Definition add_dependency (self : FBDTranslator)
  (dependencies : Dict.t (list string)) (w : wire_info)
  : Dict.t (list string) :=
  if Dict.contains (from_id w) (function_blocks self)
     && Dict.contains (to_id w) (function_blocks self)
  then match Dict.get (to_id w) dependencies with
       | Some s => Dict.set (to_id w) (set_add (from_id w) s) dependencies
       | None => dependencies
       end
  else dependencies.

(** The [dependencies] dictionary: an empty set for every function block,
    then the wires. *)
Definition build_dependencies (self : FBDTranslator)
  : Dict.t (list string) :=
  fold_left (add_dependency self) (wires self)
    (map (fun k => (k, [])) (Dict.keys (function_blocks self))).

(** The three variables that the nested function [visit] updates. *)
Record dfs := mkDfs
  { visited : list string;
    temp_visited : list string;
    order : list string }.

(** The four [_parse_...] calls that open [_parse_sheet]. *)
Definition parse_elements (self : FBDTranslator) (sheet : ET.Element)
  : FBDTranslator :=
  let self := _parse_input_refs self sheet in
  let self := _parse_output_refs self sheet in
  let self := _parse_function_blocks self sheet in
  _parse_wires self sheet.

(** *** The wire graph of the function blocks *)

Definition is_block (self : FBDTranslator) (fb_id : string) : bool :=
  Dict.contains fb_id (function_blocks self).

(** A wire of the translator leads from block [a] to block [b]. *)
Definition edge (self : FBDTranslator) (a b : string) : Prop :=
  exists w, In w (wires self) /\ from_id w = a /\ to_id w = b
            /\ is_block self a = true /\ is_block self b = true.

(** No block can be reached from itself along wires. *)
Definition acyclic (self : FBDTranslator) : Prop :=
  forall x, ~ clos_trans string (edge self) x x.

(** Block [y] feeds block [x], directly or through other blocks (or is
    [x]). *)
Definition feeds (self : FBDTranslator) (y x : string) : Prop :=
  clos_refl_trans string (edge self) y x.

(** *** What the ordering keeps true *)

(** [l] lists each of its entries once, after everything that [R] relates
    it to. *)
Inductive well_ordered (R : string -> string -> Prop)
  : list string -> Prop :=
  | wo_nil : well_ordered R []
  | wo_snoc (l : list string) (x : string) :
      well_ordered R l -> (forall a, R x a -> In a l) -> ~ In x l ->
      well_ordered R (l ++ [x]).

(** The state of the search agrees with what it has appended to
    [order0]: the new entries are well ordered, they are the visited blocks,
    and no block under visit is among them. *)
Definition dfs_inv (R : string -> string -> Prop)
  (nodes order0 : list string) (st : dfs) : Prop :=
  exists new,
    order st = (order0 ++ new)%list
    /\ well_ordered R new
    /\ (forall x, In x (visited st) <-> In x new)
    /\ (forall x, In x new -> In x nodes)
    /\ (forall x, In x (temp_visited st) -> ~ In x (visited st)).

(** How a call ends: it returns, or a RecursionError leaves it.  Either way
    the fields of [dfs] are as the call left them ([self.execution_order]
    is a field of the translator and survives the exception). *)
Inductive outcome : Type :=
  | Done (st : dfs)
  | Raised (st : dfs).

Section Interpreter.

(** The order in which a [for] loop meets the elements of a set of strings.
    It is the interpreter's choice (it follows the hashes of the strings);
    the argument is the set as the list of its elements in order of
    insertion. *)
Variable set_iter : list string -> list string.

(** The text of a RecursionError, which the interpreter chooses too. *)
Variable recursion_error : string.

(** The number of nested calls that one call of [logger.warning] makes at
    its deepest (the method itself, the test of the level, the making of
    the record, the handlers and their formatters): it depends on how
    logging is set up.  With fewer calls left, RecursionError leaves
    [logger.warning]; the handlers of the logging module let this
    exception through. *)
Variable warning_frames : nat.

(** [dependencies.get(fb_id, [])] as the [for] loop of [visit] meets it. *)
Definition deps_of (dependencies : Dict.t (list string)) (fb_id : string)
  : list string :=
  match Dict.get fb_id dependencies with
  | Some s => set_iter s
  | None => []
  end.

(** [for dep in ...: if dep in self.function_blocks: visit(dep)], where
    [call] is the nested call.  An exception ends the loop. *)
Definition visit_each (self : FBDTranslator) (call : dfs -> string -> outcome)
  (deps : list string) (start : outcome) : outcome :=
  fold_left
    (fun acc dep =>
       match acc with
       | Raised st => Raised st
       | Done st =>
           if Dict.contains dep (function_blocks self) then call st dep
           else Done st
       end)
    deps start.

(** [visit].  [depth] is the number of nested calls that the interpreter
    still allows; a call beyond it raises RecursionError.  A call of
    [visit] takes one of them, and on a block that is under visit the call
    of [logger.warning] needs [warning_frames] more. *)
Fixpoint visit (depth : nat) (self : FBDTranslator)
  (dependencies : Dict.t (list string)) (st : dfs) (fb_id : string)
  : outcome :=
  match depth with
  | O => Raised st
  | S depth =>
      if mem fb_id (temp_visited st) then
        if (warning_frames <=? depth)%nat then Done st else Raised st
      else if mem fb_id (visited st) then Done st
      else
        let st := mkDfs (visited st) (set_add fb_id (temp_visited st))
                        (order st) in
        match visit_each self (visit depth self dependencies)
                (deps_of dependencies fb_id) (Done st)
        with
        | Raised st => Raised st
        | Done st =>
            Done (mkDfs (set_add fb_id (visited st))
                        (set_remove fb_id (temp_visited st))
                        (order st ++ [fb_id]))
        end
  end.

(** [for fb_id in self.function_blocks: if fb_id not in visited: visit] *)
Definition visit_keys (call : dfs -> string -> outcome) (keys : list string)
  (start : outcome) : outcome :=
  fold_left
    (fun acc fb_id =>
       match acc with
       | Raised st => Raised st
       | Done st =>
           if mem fb_id (visited st) then Done st else call st fb_id
       end)
    keys start.

Definition visit_all (depth : nat) (self : FBDTranslator)
  (dependencies : Dict.t (list string)) (st : dfs) : outcome :=
  visit_keys (visit depth self dependencies)
    (Dict.keys (function_blocks self)) (Done st).

Definition with_order (self : FBDTranslator) (o : list string)
  : FBDTranslator :=
  mkFBD (input_refs self) (output_refs self) (function_blocks self)
        (wires self) o.

(** [_determine_execution_order]: the new entries go after those that
    [self.execution_order] already holds.  The boolean tells whether the
    call returned ([true]) or raised. *)
Definition _determine_execution_order (depth : nat) (self : FBDTranslator)
  : FBDTranslator * bool :=
  match visit_all depth self (build_dependencies self)
          (mkDfs [] [] (execution_order self)) with
  | Done st => (with_order self (order st), true)
  | Raised st => (with_order self (order st), false)
  end.

Definition _get_source_value (self : FBDTranslator) (from_id : string)
  (from_param : option string) : option string :=
  match Dict.get from_id (input_refs self) with
  | Some v => Some v
  | None =>
      match Dict.get from_id (output_refs self) with
      | Some v => Some v
      | None =>
          match Dict.get from_id (function_blocks self) with
          | Some info =>
              if ET.truthy from_param then
                let fp := match from_param with Some x => x | None => "" end in
                match Dict.get fp (inputs info) with
                | Some v => Some v
                | None => Some (operand info ++ "." ++ fp)
                end
              else None
          | None => None
          end
      end
  end.

Definition _generate_fb_code (self : FBDTranslator) (fb_id : string)
  (info : fb_info) : string :=
  let params :=
    flat_map
      (fun w =>
         if String.eqb (to_id w) fb_id && ET.truthy (to_param w) then
           let tp := match to_param w with Some x => x | None => "" end in
           match _get_source_value self (from_id w) (from_param w) with
           | Some source_value =>
               if String.eqb source_value "" then []
               else [tp ++ " := " ++ source_value]
           | None => []
           end
         else [])
      (wires self) in
  match params with
  | [] => operand info ++ "();"
  | _ => operand info ++ "(" ++ join ", " params ++ ");"
  end.

Definition _generate_output_assignments (self : FBDTranslator)
  : list string :=
  flat_map
    (fun w =>
       match Dict.get (from_id w) (function_blocks self),
             Dict.get (to_id w) (output_refs self) with
       | Some info, Some output_ref =>
           if ET.truthy (from_param w) then
             let fp := match from_param w with Some x => x | None => "" end in
             [output_ref ++ " := " ++ operand info ++ "." ++ fp ++ ";"]
           else []
       | _, _ => []
       end)
    (wires self).

(** The call statements of [_generate_st_code], one for each entry of
    [self.execution_order].  An entry is always a key of
    [self.function_blocks], and a call statement is never empty. *)
Definition call_lines (self : FBDTranslator) : list string :=
  flat_map
    (fun fb_id =>
       match Dict.get fb_id (function_blocks self) with
       | Some info => [_generate_fb_code self fb_id info]
       | None => []
       end)
    (execution_order self).

(** The call statement of one function block. *)
Definition call_of (self : FBDTranslator) (fb_id : string) : string :=
  match Dict.get fb_id (function_blocks self) with
  | Some info => _generate_fb_code self fb_id info
  | None => ""
  end.

(** [st_lines] of [_generate_st_code]. *)
Definition st_lines (self : FBDTranslator) : list string :=
  (call_lines self ++ _generate_output_assignments self)%list.

Definition _generate_st_code (self : FBDTranslator) : string :=
  join nl (st_lines self).

(** The state of the translator once a sheet has been read and ordered. *)
Definition read_sheet (depth : nat) (self : FBDTranslator)
  (sheet : ET.Element) : FBDTranslator * bool :=
  _determine_execution_order depth (parse_elements self sheet).

(** [_parse_sheet]: the text for the sheet and the translator after it. *)
Definition _parse_sheet (depth : nat) (self : FBDTranslator)
  (sheet : ET.Element) (sheet_num : nat) : string * FBDTranslator :=
  match read_sheet depth self sheet with
  | (self, true) => (_generate_st_code self, self)
  | (self, false) =>
      ("// ERROR: Failed to parse FBD sheet " ++ PyInt.str_of_nat sheet_num
         ++ " - " ++ recursion_error, self)
  end.

(** [for sheet_num, sheet in enumerate(sheets, 1)] *)
Fixpoint parse_sheets (depth : nat) (self : FBDTranslator)
  (sheets : list ET.Element) (sheet_num : nat) (st_code : list string)
  : list string :=
  match sheets with
  | [] => st_code
  | sheet :: rest =>
      let '(sheet_code, self) := _parse_sheet depth self sheet sheet_num in
      let st_code :=
        if String.eqb sheet_code "" then st_code
        else app st_code
               ["// Sheet " ++ PyInt.str_of_nat sheet_num; sheet_code]
      in
      parse_sheets depth self rest (S sheet_num) st_code
  end.

(** [parse_fbd_content].  The outer [except] arm is never reached: what
    [_parse_sheet] can raise it catches itself. *)
Definition parse_fbd_content (depth : nat) (fbd_content : ET.Element)
  : string :=
  match parse_sheets depth cleared (ET.findall fbd_content "Sheet") 1 [] with
  | [] => "// No FBD content to translate"
  | st_code => join nl st_code
  end.

Definition translate_fbd_to_st (depth : nat) (fbd_content : ET.Element)
  : string :=
  parse_fbd_content depth fbd_content.

End Interpreter.

End Fbd.

(* ================================================================== *)
(** ** constants.py and utils.py: the identifier policy *)
(* ================================================================== *)

Module Ident.
Import PyStr.

Definition RESERVED_WORDS : Dict.t string :=
  [("ON", "ON1");
   ("type", "TYPE1");
   ("EN", "EN1");
   ("SCALE", "scl1");
   ("alm", "alarm1");
   ("Alarm", "alert");
   ("ALARM", "alert");
   ("TON", "TON1");
   ("R_TRIG", "R_TRIG1");
   ("TO", "TO1");
   ("SHUTODWN1", "SHUTDOWN1");
   ("SHUTODWN2", "SHUTDOWN2");
   ("SHUTODWN3", "SHUTDOWN3");
   ("SHUTODWN4", "SHUTDOWN4");
   ("SHUTODWN5", "SHUTDOWN5");
   ("SHUTDOWN", "Shutdown");
   ("status", "Status");
   ("STATUS", "Status");
   ("HTY", "Hty");
   ("AVL", "Avl")].

(** The character class [[a-zA-Z0-9_]]. *)
Definition ident_char (a : ascii) : bool :=
  is_lower a || is_upper a || is_digit a || Ascii.eqb a "_".

(** [re.sub(r'[^a-zA-Z0-9_]', '_', identifier)] *)
Fixpoint sub_non_ident (s : string) : string :=
  match s with
  | "" => ""
  | String a r => String (if ident_char a then a else "_"%char) (sub_non_ident r)
  end.

Definition clean_identifier (identifier : string) : string :=
  let cleaned := sub_non_ident identifier in
  match cleaned with
  | String a _ => if is_digit a then "var_" ++ cleaned else cleaned
  | "" => cleaned
  end.

Definition sanitize_identifier (identifier : string) : string :=
  match Dict.get (upper identifier) RESERVED_WORDS with
  | Some replacement => replacement
  | None => clean_identifier identifier
  end.

(** Does the string hold an underscore? *)
Fixpoint has_underscore (s : string) : bool :=
  match s with
  | "" => false
  | String a r => Ascii.eqb a "_" || has_underscore r
  end.

End Ident.

(* ================================================================== *)
(** ** utils.extract_tag_info: the value of a tag *)
(* ================================================================== *)

Module TagValue.
Import PyStr.

(** The value of a character as a digit in base 16, if it has one. *)
Definition hex_digit (a : ascii) : option Z :=
  let n := nat_of_ascii a in
  if is_digit a then Some (Z.of_nat (n - 48))
  else if ((97 <=? n) && (n <=? 102))%nat then Some (Z.of_nat (n - 87))
  else if ((65 <=? n) && (n <=? 70))%nat then Some (Z.of_nat (n - 55))
  else None.

(** The white space that [int] skips around a number: tab to carriage
    return, the space, and the two characters above 127 that are spaces. *)
Definition int_space (a : ascii) : bool :=
  let n := nat_of_ascii a in
  (((9 <=? n) && (n <=? 13)) || (n =? 32) || (n =? 133) || (n =? 160))%nat.

Fixpoint skip_space (s : string) : string :=
  match s with
  | String a r => if int_space a then skip_space r else s
  | "" => ""
  end.

(** The digits of a number, with single underscores allowed between them:
    the value read, whether a digit was read, and the text that follows. *)
Fixpoint scan_digits (s : string) (acc : Z) (any : bool) (prev_us : bool)
  : option (Z * bool * string) :=
  match s with
  | "" => if prev_us then None else Some (acc, any, "")
  | String a r =>
      match hex_digit a with
      | Some d => scan_digits r (16 * acc + d)%Z true false
      | None =>
          if Ascii.eqb a "_"
          then (if prev_us then None else scan_digits r acc any true)
          else (if prev_us then None else Some (acc, any, s))
      end
  end.

(** The sign in front of a number, and the text after it. *)
Definition take_sign (s : string) : Z * string :=
  match s with
  | String a r =>
      if Ascii.eqb a "+" then (1%Z, r)
      else if Ascii.eqb a "-" then ((-1)%Z, r)
      else (1%Z, s)
  | "" => (1%Z, s)
  end.

(** The prefix 0x or 0X, which may be followed by one underscore. *)
Definition skip_0x (s : string) : string :=
  match s with
  | String a (String x r) =>
      if Ascii.eqb a "0" && (Ascii.eqb x "x" || Ascii.eqb x "X")
      then match r with
           | String u r' => if Ascii.eqb u "_" then r' else r
           | "" => r
           end
      else s
  | _ => s
  end.

Definition starts_with_underscore (s : string) : bool :=
  match s with
  | String a _ => Ascii.eqb a "_"
  | "" => false
  end.

(** [int(s, 16)]: [None] stands for ValueError. *)
Definition int16 (s : string) : option Z :=
  let '(sign, s) := take_sign (skip_space s) in
  let s := skip_0x s in
  if starts_with_underscore s then None
  else
    match scan_digits s 0 false false with
    | Some (v, true, rest) =>
        if String.eqb (skip_space rest) "" then Some (sign * v)%Z else None
    | _ => None
    end.

(** [value[2:-1].replace('$', '')]: what stands between ['$] and the last
    character, without its dollar signs. *)
Definition payload (value : string) : string :=
  remove_char "$" (slice value 2 (-1)).

Section Interpreter.

(** [sys.get_int_max_str_digits()]: the most decimal digits that [str]
    gives for an integer, 4300 unless the interpreter is told otherwise,
    and 0 when there is no limit (as in interpreters older than the
    limit).  The interpreter accepts no limit below 640. *)
Variable int_max_str_digits : nat.

(** [str(n)] for an integer [n]: [None] stands for the ValueError that a
    number of more digits than the limit raises.  The limit is looked at
    for a text of more than 640 characters only, and it bounds the digits,
    the sign not counted. *)
Definition str_int (n : Z) : option string :=
  let text := PyInt.str n in
  let digits :=
    (String.length text - (if (n <? 0)%Z then 1 else 0))%nat in
  if ((640 <? String.length text) && (0 <? int_max_str_digits)
      && (int_max_str_digits <? digits))%nat
  then None else Some text.

(** The block of [extract_tag_info] that starts at
    [# Handle hex values and other special formats], for a value that is a
    string.  The ValueError of [int] and the ValueError of [str] both end
    in [pass]: the value stays as it is. *)
Definition decode_value (value : string) : string :=
  if startswith "'$" value && endswith "'" value then
    let hex_str := payload value in
    match int16 hex_str with
    | Some n =>
        match str_int n with
        | Some text => text
        | None => value
        end
    | None => value
    end
  else value.

End Interpreter.

(** *** The quoted hex form of the specification *)

Definition is_hex (a : ascii) : bool :=
  match hex_digit a with Some _ => true | None => false end.

(** Groups of a dollar sign and two hex digits up to the closing quote;
    [seen] tells whether a group has been read. *)
Fixpoint hex_groups (r : string) (seen : bool) : bool :=
  match r with
  | String c (String a (String b r')) =>
      Ascii.eqb c "$" && is_hex a && is_hex b && hex_groups r' true
  | String c "" => Ascii.eqb c "'" && seen
  | _ => false
  end.

(** Is the value of the form ['$hh$hh...'], with at least one group? *)
Definition is_hex_form (value : string) : bool :=
  match value with
  | String c r => Ascii.eqb c "'" && hex_groups r false
  | "" => false
  end.

(** The number that the hex digits of a text spell in base 16, its other
    characters being passed over. *)
Fixpoint hex_value (s : string) (acc : Z) : Z :=
  match s with
  | "" => acc
  | String a r =>
      match hex_digit a with
      | Some d => hex_value r (16 * acc + d)%Z
      | None => hex_value r acc
      end
  end.


(** The text of a list of groups, [$ab$cd...], and its digits alone. *)
Fixpoint groups_text (pairs : list (ascii * ascii)) : string :=
  match pairs with
  | [] => ""
  | (a, b) :: rest => String "$" (String a (String b (groups_text rest)))
  end.

Fixpoint digits_text (pairs : list (ascii * ascii)) : string :=
  match pairs with
  | [] => ""
  | (a, b) :: rest => String a (String b (digits_text rest))
  end.

Definition hex_pair (p : ascii * ascii) : Prop :=
  is_hex (fst p) = true /\ is_hex (snd p) = true.

Fixpoint all_hex (s : string) : bool :=
  match s with
  | "" => true
  | String a r => is_hex a && all_hex r
  end.

(** A value of 1786 groups [$FF]: the number has 4302 decimal digits. *)
Definition long_hex_value : string :=
  String "'" (groups_text (List.repeat ("F"%char, "F"%char) 1786) ++ "'").

End TagValue.

(* ================================================================== *)
(** ** ir_converter.py: the fidelity score *)
(* ================================================================== *)

Module Fidelity.

(** models.TagScope *)
Inductive TagScope : Type := CONTROLLER | PROGRAM.

Definition TagScope_eqb (a b : TagScope) : bool :=
  match a, b with
  | CONTROLLER, CONTROLLER => true
  | PROGRAM, PROGRAM => true
  | _, _ => false
  end.

(** models.RoutineType *)
Inductive RoutineType : Type := ST | RLL | FBD | SFC.

(** The dataclasses of models.py, with the fields the converter fills in
    for every component; the optional ones that the score never reads
    (description, radix, ...) are left out. *)
Record IRTag := mkIRTag
  { tag_name : string;
    data_type : string;
    scope : TagScope;
    value : option string }.

Record IRDataTypeMember := mkIRMember
  { member_name : string; member_type : string }.

Record IRDataType := mkIRDataType
  { dt_name : string;
    base_type : option string;
    members : list IRDataTypeMember }.

Record IRRoutine := mkIRRoutine
  { routine_name : string; routine_type : RoutineType; content : string }.

Record IRProgram := mkIRProgram
  { prog_name : string;
    main_routine : option string;
    routines : list IRRoutine;
    prog_tags : list IRTag }.

Record IRController := mkIRController
  { ctrl_name : string;
    tags : list IRTag;
    data_types : list IRDataType }.

Record IRProject := mkIRProject
  { controller : IRController; programs : list IRProgram }.

(** [{x.name: x for x in xs}] *)
Definition by_name {A} (name_of : A -> string) (xs : list A) : Dict.t A :=
  fold_left (fun d x => Dict.set (name_of x) x d) xs [].

(** One of the three [for name, original_x in original_xs.items()] loops:
    the number of entries of [original] whose name is a key of [converted]
    and for which [same] holds. *)
Definition count_matched {A} (same : A -> A -> bool)
  (original converted : Dict.t A) : nat :=
  List.length
    (filter
       (fun kv =>
          match Dict.get (fst kv) converted with
          | Some c => same (snd kv) c
          | None => false
          end)
       original).

Definition same_tag (o c : IRTag) : bool :=
  String.eqb (data_type o) (data_type c) && TagScope_eqb (scope o) (scope c).

Definition same_data_type (o c : IRDataType) : bool :=
  Nat.eqb (List.length (members o)) (List.length (members c)).

Definition same_program (o c : IRProgram) : bool :=
  Nat.eqb (List.length (routines o)) (List.length (routines c)).

(** [total_components] when the function returns. *)
Definition total_components (original : IRProject) : nat :=
  List.length (by_name tag_name (tags (controller original)))
  + List.length (by_name dt_name (data_types (controller original)))
  + List.length (by_name prog_name (programs original)).

(** [matched_components] when the function returns. *)
Definition matched_components (original converted : IRProject) : nat :=
  count_matched same_tag
    (by_name tag_name (tags (controller original)))
    (by_name tag_name (tags (controller converted)))
  + count_matched same_data_type
      (by_name dt_name (data_types (controller original)))
      (by_name dt_name (data_types (controller converted)))
  + count_matched same_program
      (by_name prog_name (programs original))
      (by_name prog_name (programs converted)).

(** [calculate_fidelity_score].  The quotient of two integers is a float in
    Python; here it is the exact rational that the float rounds. *)
Definition calculate_fidelity_score (original converted : IRProject) : Q :=
  let total := total_components original in
  if Nat.eqb total 0 then 1
  else Z.of_nat (matched_components original converted)
       # Pos.of_nat total.


(** *** The score as the specification words it (section 4.7) *)

(** The components of [original] that have a partner in [converted]: one
    with the same name for which [same] holds. *)
Definition spec_matched {A} (name_of : A -> string) (same : A -> A -> bool)
  (original converted : list A) : nat :=
  List.length
    (filter
       (fun o =>
          existsb (fun c => String.eqb (name_of o) (name_of c) && same o c)
                  converted)
       original).

Definition spec_total (original : IRProject) : nat :=
  List.length (tags (controller original))
  + List.length (data_types (controller original))
  + List.length (programs original).

Definition spec_score (original converted : IRProject) : Q :=
  let total := spec_total original in
  if Nat.eqb total 0 then 1
  else Z.of_nat
         (spec_matched tag_name same_tag
            (tags (controller original)) (tags (controller converted))
          + spec_matched dt_name same_data_type
              (data_types (controller original))
              (data_types (controller converted))
          + spec_matched prog_name same_program
              (programs original) (programs converted))
       # Pos.of_nat total.

(** No two tags, no two data types and no two programs of the project have
    the same name. *)
Definition names_unique (p : IRProject) : Prop :=
  NoDup (map tag_name (tags (controller p)))
  /\ NoDup (map dt_name (data_types (controller p)))
  /\ NoDup (map prog_name (programs p)).

(** A project with two tags of one name, and its conversion. *)
Definition twice_a : IRProject :=
  mkIRProject
    (mkIRController "C"
       [mkIRTag "a" "DINT" CONTROLLER None; mkIRTag "a" "DINT" CONTROLLER None;
        mkIRTag "b" "DINT" CONTROLLER None] [])
    [].

Definition only_b : IRProject :=
  mkIRProject (mkIRController "C" [mkIRTag "b" "DINT" CONTROLLER None] []) [].

(** The project of scenario 6 (three tags, two user types of four members,
    one program of two routines), and the same with one member less in the
    second user type. *)
Definition four_members : list IRDataTypeMember :=
  [mkIRMember "m1" "DINT"; mkIRMember "m2" "DINT"; mkIRMember "m3" "DINT";
   mkIRMember "m4" "DINT"].

Definition scenario6 (members2 : list IRDataTypeMember) : IRProject :=
  mkIRProject
    (mkIRController "C"
       [mkIRTag "t1" "DINT" CONTROLLER None; mkIRTag "t2" "BOOL" CONTROLLER None;
        mkIRTag "t3" "REAL" CONTROLLER None]
       [mkIRDataType "U1" None four_members; mkIRDataType "U2" None members2])
    [mkIRProgram "MainProgram" (Some "MainRoutine")
       [mkIRRoutine "MainRoutine" ST ""; mkIRRoutine "Aux" ST ""] []].

End Fidelity.

(* ================================================================== *)
(** ** st2l5x.py: the DataTypes section *)
(* ================================================================== *)

Module Serializer.

(** The local [basic_types] of [_add_basic_data_types]. *)
Definition basic_types : list (string * string) :=
  [("BOOL", "BOOL"); ("SINT", "SINT"); ("INT", "INT"); ("DINT", "DINT");
   ("LINT", "LINT"); ("USINT", "USINT"); ("UINT", "UINT");
   ("UDINT", "UDINT"); ("ULINT", "ULINT"); ("REAL", "REAL");
   ("LREAL", "LREAL"); ("TIME", "TIME"); ("DATE", "DATE"); ("TOD", "TOD");
   ("DT", "DT"); ("STRING", "STRING")].

(** [_basic_types]: the names that the lifter does not record as user
    types. *)
Definition _basic_types : list string :=
  ["BOOL"; "SINT"; "INT"; "DINT"; "LINT"; "USINT"; "UINT"; "UDINT"; "ULINT";
   "REAL"; "LREAL"; "TIME"; "DATE"; "TOD"; "DT"; "STRING"].

(** The test of [_parse_variable_declarations] that decides whether the
    type of a declaration goes into [self.user_types]. *)
Definition is_user_type (var_type : string) : bool :=
  negb (PyStr.mem var_type _basic_types).

(** A DataType element as both loops build it. *)
Definition data_type_element (type_name base_type : string) : ET.Element :=
  ET.mkElement "DataType"
    [("Name", type_name); ("Family", "NoFamily"); ("Class", "User")] ""
    [ET.mkElement "Base" [] base_type []].

(** [_add_basic_data_types]: the children appended to [data_types_elem].
    [user_types] is [self.user_types], a set, as the list of its elements in
    the order in which the loop meets them. *)
Definition _add_basic_data_types (user_types : list string)
  (data_types_elem : ET.Element) : ET.Element :=
  ET.mkElement (ET.tag data_types_elem) (ET.attrib data_types_elem)
    (ET.text data_types_elem)
    (ET.children data_types_elem
     ++ map (fun tb => data_type_element (fst tb) (snd tb)) basic_types
     ++ map (fun user_type => data_type_element user_type "DINT") user_types).

(** The Name attributes of the children of an element, in order. *)
Definition child_names (e : ET.Element) : list string :=
  map (fun c => ET.get_or_empty c "Name") (ET.children e).


(** The base types as the specification lists them (section 4.6), for
    comparison with [basic_types]. *)
Definition spec_base_types : list string :=
  ["BOOL"; "SINT"; "INT"; "DINT"; "LINT"; "USINT"; "UINT"; "UDINT"; "ULINT";
   "REAL"; "LREAL"; "TIME"; "DATE"; "TOD"; "DT"; "STRING"; "BYTE"; "WORD";
   "DWORD"; "LWORD"].

(** An empty DataTypes element, as [_generate_l5x_xml] hands it over. *)
Definition empty_data_types : ET.Element := ET.mkElement "DataTypes" [] "" [].

End Serializer.

(* ================================================================== *)
(** ** The rungs of the end-to-end scenarios *)
(* ================================================================== *)

Module Scenario.
Import PyStr.

(** The three-operand timer rung, and the text the translator has for it
    and for its two-operand form. *)
Definition ton_rung : string := "XIC(Go)TON(T1,T#5s,Elapsed)".

Definition ton_rung_st : string :=
  "IF (((Go = 1))) THEN" ++ nl
  ++ tab ++ "// ERROR: TON requires exactly 2 parameters" ++ nl
  ++ "END_IF;" ++ nl.

Definition ton2_rung_st : string :=
  "IF (((Go = 1))) THEN" ++ nl
  ++ tab ++ "T1.PRE := T#5s;" ++ nl
  ++ "T1.TimerEnable := TRUE;" ++ nl
  ++ "TONR(T1);" ++ nl
  ++ "END_IF;" ++ nl.

(** The contact rung, and the text the translator has for it and for the
    same rung without its comma. *)
Definition ote_rung : string := "XIC(Start),XIO(Stop)OTE(Run)".

Definition ote_rung_st : string :=
  "IF (((Stop = 0))) THEN" ++ nl
  ++ tab ++ "Run := 1;" ++ nl
  ++ "ELSE" ++ nl
  ++ tab ++ "Run := 0;" ++ nl
  ++ "END_IF;" ++ nl.

Definition series_rung_st : string :=
  "IF (((Start = 1)) AND ((Stop = 0))) THEN" ++ nl
  ++ tab ++ "Run := 1;" ++ nl
  ++ "ELSE" ++ nl
  ++ tab ++ "Run := 0;" ++ nl
  ++ "END_IF;" ++ nl.


(** *** Function block sheets *)

Definition block (id operand : string) : ET.Element :=
  ET.mkElement "AddOnInstruction"
    [("ID", id); ("Name", operand); ("Operand", operand)] "" [].

Definition wire (from_id from_param to_id to_param : string) : ET.Element :=
  ET.mkElement "Wire"
    [("FromID", from_id); ("FromParam", from_param);
     ("ToID", to_id); ("ToParam", to_param)] "" [].

Definition reference (tag id operand : string) : ET.Element :=
  ET.mkElement tag [("ID", id); ("Operand", operand)] "" [].

(** Scenario 3: the input reference I1 feeds block A, A feeds block B, and
    B feeds the output reference O1.  Block B is the first in the sheet. *)
Definition chain_sheet : ET.Element :=
  ET.mkElement "Sheet" [] ""
    [reference "IRef" "0" "I1"; reference "ORef" "9" "O1";
     block "2" "B"; block "1" "A";
     ET.mkElement "Wire" [("FromID", "0"); ("ToID", "1"); ("ToParam", "in")]
       "" [];
     wire "1" "out" "2" "in"; wire "2" "out" "9" "in"].

Definition chain_rank (fb_id : string) : nat :=
  if String.eqb fb_id "2" then 1 else 0.

(** Three blocks inserted in the order Z, X, Y, and one wire, from Y to
    Z. *)
Definition tie_sheet : ET.Element :=
  ET.mkElement "Sheet" [] ""
    [block "Z" "Z"; block "X" "X"; block "Y" "Y"; wire "Y" "out" "Z" "in"].


(** *** Rungs of conditions in series before one OTE *)

(** A character that the rung text gives no meaning to: not white space, a
    parenthesis, a bracket, a comma or a semicolon. *)
Definition plain_char (a : ascii) : bool :=
  negb (is_space a
        || existsb (Ascii.eqb a)
             ["("; ")"; "["; "]"; "<"; ">"; ","; ";"]%char).

Fixpoint all_plain (s : string) : bool :=
  match s with
  | "" => true
  | String a r => plain_char a && all_plain r
  end.

(** An operand or a mnemonic: one plain character or more. *)
Definition plain (s : string) : bool :=
  negb (String.eqb s "") && all_plain s.

(** The text of one instruction call, [MNEMONIC(p1,p2,...)]. *)
Definition call_text (c : string * list string) : string :=
  fst c ++ "(" ++ join "," (snd c) ++ ")".

(** A condition call: one of the eight condition mnemonics and at least
    one operand. *)
Definition condition_call (c : string * list string) : bool :=
  Dict.contains (fst c) Ladder.CONDITIONAL_FUNCTIONS
  && negb (Ladder.is_nil (snd c)) && forallb plain (snd c).

Fixpoint calls_text (calls : list (string * list string)) : string :=
  match calls with
  | [] => ""
  | c :: rest => call_text c ++ calls_text rest
  end.

(** The rung text [C1(...)C2(...)...OTE(y)]. *)
Definition series_rung (conds : list (string * list string)) (y : string)
  : string :=
  calls_text (conds ++ [("OTE", [y])]).

(** What a call must be for the loop to pass over it. *)
Definition loop_call (c : string * list string) : Prop :=
  lacks "(" (fst c) = true /\ lacks "," (fst c) = true
  /\ lacks "[" (fst c) = true /\ lacks "]" (fst c) = true
  /\ lacks ")" (join "," (snd c)) = true.

(** A call whose mnemonic and operands are plain, with one operand at
    least. *)
Definition good_call (c : string * list string) : bool :=
  plain (fst c) && negb (Ladder.is_nil (snd c)) && forallb plain (snd c).

(** The instruction object that the parser builds for a call. *)
Definition call_func (c : string * list string) : Ladder.LLFunc :=
  Ladder.mkLLFunc (fst c) (snd c)
    (Dict.contains (fst c) Ladder.CONDITIONAL_FUNCTIONS).

(** The tokens of a sequence of calls: mnemonic, operands, mnemonic, ... *)
Fixpoint call_tokens (calls : list (string * list string)) : list string :=
  match calls with
  | [] => []
  | c :: rest => fst c :: join "," (snd c) :: call_tokens rest
  end.

(** The text of the calls with a space for every parenthesis. *)
Fixpoint spaced_text (calls : list (string * list string)) : string :=
  match calls with
  | [] => ""
  | c :: rest =>
      fst c ++ String " " (join "," (snd c) ++ String " " (spaced_text rest))
  end.

(** The text of one condition in the guard of an instruction. *)
Definition guard_text (cf : Ladder.LLFunc) : string :=
  match Dict.get (Ladder.fname cf) Ladder.CONDITIONAL_FUNCTIONS_IMPL with
  | Some impl => impl (Ladder.params cf)
  | None => "// Unknown conditional function: " ++ Ladder.fname cf
  end.

(** The boolean translation of one condition call, by the table. *)
Definition condition_st (c : string * list string) : string :=
  match Dict.get (fst c) Ladder.CONDITIONAL_FUNCTIONS_IMPL with
  | Some impl => impl (snd c)
  | None => ""
  end.

(** The IF statement that sets [y] under the conjunction of the
    conditions and clears it otherwise. *)
Definition guarded_ote (conds : list (string * list string)) (y : string)
  : string :=
  "IF (" ++ join " AND " (map condition_st conds) ++ ") THEN" ++ nl
  ++ tab ++ y ++ " := 1;" ++ nl
  ++ "ELSE" ++ nl
  ++ tab ++ y ++ " := 0;" ++ nl
  ++ "END_IF;" ++ nl.

(** The instruction objects that the parser builds for such a rung. *)
Definition series_funcs (conds : list (string * list string)) (y : string)
  : list Ladder.LLFunc :=
  map (fun c => Ladder.mkLLFunc (fst c) (snd c) true) conds
  ++ [Ladder.mkLLFunc "OTE" [y] false].

End Scenario.

(* ================================================================== *)
(** ** Rungs of calls, and the text the translator has for them *)
(* ================================================================== *)

Module Rungs.
Import PyStr Ladder Scenario.

(** The line that [process_instruction_list] writes for an instruction that
    no condition precedes: the table's translation, or the comment for a
    mnemonic that the table does not have. *)
Definition instruction_line (c : string * list string) : string :=
  match Dict.get (fst c) REGULAR_FUNCTIONS_IMPL with
  | Some impl => impl (snd c) true ++ nl
  | None =>
      "// Unknown function: " ++ fst c ++ "(" ++ join ", " (snd c) ++ ")" ++ nl
  end.

(** A call of an instruction that is not a condition. *)
Definition instruction_call (c : string * list string) : bool :=
  good_call c && negb (Dict.contains (fst c) CONDITIONAL_FUNCTIONS).

(** The lines of a list of instructions, one after the other. *)
Fixpoint instruction_lines (calls : list (string * list string)) : string :=
  match calls with
  | [] => ""
  | c :: rest => instruction_line c ++ instruction_lines rest
  end.

(** The message of an instruction that has not got the [k] operands it
    requires. *)
Definition arity_error (name : string) (k : nat) : string :=
  "// ERROR: " ++ name ++ " requires exactly " ++ PyInt.str_of_nat k
  ++ (if Nat.eqb k 1 then " parameter" else " parameters").

(** Every character of the text is white space. *)
Fixpoint all_space (s : string) : bool :=
  match s with
  | "" => true
  | String a r => is_space a && all_space r
  end.


(** *** Parallel branches before one OTE *)

(** The rung text [[B1,B2,...,Bn]OTE(y)], each branch a series of calls. *)
Definition branch_rung (branches : list (list (string * list string)))
  (y : string) : string :=
  "[" ++ join "," (map calls_text branches) ++ "]" ++ call_text ("OTE", [y]).

(** The same text once formatted: [<B1;B2;...;Bn>OTE(y)]. *)
Definition branch_rung_formatted
  (branches : list (list (string * list string))) (y : string) : string :=
  "<" ++ join ";" (map calls_text branches) ++ ">" ++ call_text ("OTE", [y]).

(** The IF statement that sets [y] when the conditions of one branch all
    hold; it has no ELSE arm. *)
Definition branch_ote (branches : list (list (string * list string)))
  (y : string) : string :=
  "IF ("
  ++ join " OR "
       (map (fun b => join " AND " (map condition_st b)) branches)
  ++ ") THEN" ++ nl
  ++ tab ++ y ++ " := 1;" ++ nl
  ++ "END_IF;" ++ nl.

(** A branch: one condition call or more. *)
Definition branch (b : list (string * list string)) : bool :=
  negb (is_nil b) && forallb condition_call b.

(** The number of calls of the branches. *)
Definition branch_calls (branches : list (list (string * list string)))
  : nat :=
  List.length (concat branches).

(** A text as the formatting loop sees it: calls [seg(a)], where [seg] is
    what stands between the end of the call before and the opening
    parenthesis. *)
Fixpoint segs_text (l : list (string * string)) : string :=
  match l with
  | [] => ""
  | (seg, a) :: r => seg ++ String "(" (a ++ String ")" (segs_text r))
  end.

(** What the loop does to the text between two calls. *)
Definition fix_seg (seg : string) : string :=
  replace_char "]" ">" (replace_char "[" "<" (replace_char "," ";" seg)).

Definition fix_segs (l : list (string * string)) : list (string * string) :=
  map (fun p => (fix_seg (fst p), snd p)) l.

(** The calls of a series, the first with [sep] before its mnemonic. *)
Definition series_segs (sep : string) (calls : list (string * list string))
  : list (string * string) :=
  match calls with
  | [] => []
  | c :: rest =>
      (sep ++ fst c, join "," (snd c))
      :: map (fun c => (fst c, join "," (snd c))) rest
  end.

(** The calls of the branches: [sep] opens the first branch, a comma each
    of the others. *)
Fixpoint branch_segs (sep : string)
  (branches : list (list (string * list string))) : list (string * string) :=
  match branches with
  | [] => []
  | b :: rest => (series_segs sep b ++ branch_segs "," rest)%list
  end.


(** What a call must be for the loop to find its parentheses. *)
Definition loop_seg (p : string * string) : Prop :=
  lacks "(" (fst p) = true /\ lacks ")" (snd p) = true.

End Rungs.

(* ================================================================== *)
(** ** The search of the function blocks on any wires *)
(* ================================================================== *)

Module FbdSearch.
Import Fbd.

(** What the search keeps true whatever the wires are: the entries it has
    appended to [order0] are the visited blocks, each once, and no block
    under visit is among them. *)
Definition dfs_sane (nodes order0 : list string) (st : dfs) : Prop :=
  exists new,
    order st = (order0 ++ new)%list
    /\ NoDup new
    /\ (forall x, In x (visited st) <-> In x new)
    /\ (forall x, In x new -> In x nodes)
    /\ (forall x, In x (temp_visited st) -> ~ In x (visited st)).

(** A sheet without function blocks and without wires. *)
Definition idle_sheet (sheet : ET.Element) : bool :=
  Ladder.is_nil (ET.findall sheet "AddOnInstruction")
  && Ladder.is_nil (ET.findall sheet "Wire").

(** A sheet with references only, and a routine that holds it. *)
Definition refs_sheet : ET.Element :=
  ET.mkElement "Sheet" [] ""
    [Scenario.reference "IRef" "0" "I1"; Scenario.reference "ORef" "9" "O1"].

(** Two blocks that feed each other. *)
Definition loop_sheet : ET.Element :=
  ET.mkElement "Sheet" [] ""
    [Scenario.block "1" "A"; Scenario.block "2" "B";
     Scenario.wire "1" "out" "2" "in"; Scenario.wire "2" "out" "1" "in"].


(** A chain of [n] blocks, numbered from 1, each wired into the next; the
    sheet lists the blocks from the last to the first. *)
Definition deep_sheet (n : nat) : ET.Element :=
  ET.mkElement "Sheet" [] ""
    (map (fun i =>
            Scenario.block (PyInt.str_of_nat i) ("B" ++ PyInt.str_of_nat i))
         (List.rev (seq 1 n))
     ++ map (fun i =>
               Scenario.wire (PyInt.str_of_nat i) "out"
                 (PyInt.str_of_nat (S i)) "in")
            (seq 1 (n - 1)))%list.

(** The number of entries of [l] from [x] on: it grows towards the front
    of the list, and is 0 for what [l] does not hold. *)
Fixpoint rank_from_end (x : string) (l : list string) : nat :=
  match l with
  | [] => 0
  | y :: r => if String.eqb x y then S (List.length r) else rank_from_end x r
  end.

End FbdSearch.

(* ================================================================== *)
(** ** Projects that differ by added components *)
(* ================================================================== *)

Module Projects.
Import Fidelity.

(** The project [p] with more tags, data types and programs after its
    own. *)
Definition with_more (p : IRProject) (more_tags : list IRTag)
  (more_types : list IRDataType) (more_programs : list IRProgram)
  : IRProject :=
  mkIRProject
    (mkIRController (ctrl_name (controller p))
       (tags (controller p) ++ more_tags)
       (data_types (controller p) ++ more_types))
    (programs p ++ more_programs).

(** No component of [xs] has the name of a component of [os]. *)
Definition fresh_names {A} (name_of : A -> string) (os xs : list A) : bool :=
  forallb (fun x => negb (PyStr.mem (name_of x) (map name_of os))) xs.

End Projects.

(* ================================================================== *)
(** ** The shape of an identifier *)
(* ================================================================== *)

Module Shapes.
Import PyStr Ident.

(** Every character of [s] satisfies [p]. *)
Fixpoint all_chars (p : ascii -> bool) (s : string) : bool :=
  match s with
  | "" => true
  | String a r => p a && all_chars p r
  end.

Definition starts_with_digit (s : string) : bool :=
  match s with
  | String a _ => is_digit a
  | "" => false
  end.

(** Letters, digits and underscores only, and no digit in front. *)
Definition identifier_shape (s : string) : bool :=
  all_chars ident_char s && negb (starts_with_digit s).

End Shapes.

(* ================================================================== *)
(** ** More Python string methods *)
(* ================================================================== *)

Module PyText.
Import PyStr.

(** [s.upper()], as far as a comparison of the result with a text of ASCII
    characters goes: a-z become A-Z and the sharp s (code point 223) becomes
    "SS".  Every other character above code point 127 is left as it is:
    Python maps it to a character that is again above 127. *)
Fixpoint py_upper (s : string) : string :=
  match s with
  | "" => ""
  | String a r =>
      if Nat.eqb (nat_of_ascii a) 223 then String "S" (String "S" (py_upper r))
      else String (upper_char a) (py_upper r)
  end.

(** [s.lower()]: A-Z and the capital letters of code points 192 to 222 (but
    the multiplication sign, 215) move up by 32. *)
Definition lower_char (a : ascii) : ascii :=
  let n := nat_of_ascii a in
  if ((65 <=? n) && (n <=? 90) || (192 <=? n) && (n <=? 222) && negb (n =? 215))%nat
  then ascii_of_nat (n + 32) else a.

Fixpoint lower (s : string) : string :=
  match s with
  | "" => ""
  | String a r => String (lower_char a) (lower r)
  end.

(** [s.rfind(c)] for a one-character [c]: the last index, or -1. *)
Fixpoint rfind_aux (c : ascii) (s : string) (i last : Z) : Z :=
  match s with
  | "" => last
  | String a r => rfind_aux c r (i + 1) (if Ascii.eqb a c then i else last)
  end.
Definition rfind_char (c : ascii) (s : string) : Z := rfind_aux c s 0 (-1).

(** Does the text start, or end, with white space? *)
Definition starts_space (s : string) : bool :=
  match s with
  | "" => false
  | String a _ => is_space a
  end.

Fixpoint ends_space (s : string) : bool :=
  match s with
  | "" => false
  | String a r =>
      match r with
      | "" => is_space a
      | _ => ends_space r
      end
  end.

(** A text that [strip] leaves as it is: no white space at either end. *)
Definition trimmed (s : string) : bool :=
  negb (starts_space s) && negb (ends_space s).

(** [re.sub(r'\s+', ' ', s)]: every run of white space becomes one space.
    [in_run] tells whether the character before was white space. *)
Fixpoint collapse_aux (in_run : bool) (s : string) : string :=
  match s with
  | "" => ""
  | String a r =>
      if is_space a
      then (if in_run then collapse_aux true r
            else String " " (collapse_aux true r))
      else String a (collapse_aux false r)
  end.
Definition collapse (s : string) : string := collapse_aux false s.

(** [str.isdigit] on one character with code point below 256: the ASCII
    digits and the superscripts two, three and one. *)
Definition py_isdigit_char (a : ascii) : bool :=
  let n := nat_of_ascii a in
  (is_digit a || (n =? 178) || (n =? 179) || (n =? 185))%nat.

(** [s.isdigit()]: at least one character, and digits only. *)
Definition py_isdigit (s : string) : bool :=
  negb (String.eqb s "")
  && (fix all (t : string) : bool :=
        match t with
        | "" => true
        | String a r => py_isdigit_char a && all r
        end) s.

End PyText.

(* ================================================================== *)
(** ** instructions.py: the rung processor of the L5X project API *)
(* ================================================================== *)

Module Instructions.
Import PyStr PyText.

Definition process_equ (params : list string) : string :=
  match params with
  | a :: b :: _ => a ++ " = " ++ b
  | _ => ""
  end.

Definition process_neq (params : list string) : string :=
  match params with
  | a :: b :: _ => a ++ " <> " ++ b
  | _ => ""
  end.

Definition process_xic (params : list string) : string :=
  match params with
  | a :: _ => a ++ " = 1"
  | [] => ""
  end.

Definition process_xio (params : list string) : string :=
  match params with
  | a :: _ => a ++ " = 0"
  | [] => ""
  end.

Definition process_ote (params : list string) (condition : string) : string :=
  match params with
  | a :: _ =>
      if negb (String.eqb condition "")
      then "IF " ++ condition ++ " THEN" ++ nl ++ tab ++ a ++ " := 1;" ++ nl
           ++ "END_IF;"
      else a ++ " := 1;"
  | [] => ""
  end.

Definition process_otl (params : list string) : string :=
  match params with
  | a :: _ => a ++ " := 1;"
  | [] => ""
  end.

Definition process_otu (params : list string) : string :=
  match params with
  | a :: _ => a ++ " := 0;"
  | [] => ""
  end.

Definition process_clr (params : list string) : string :=
  match params with
  | a :: _ => a ++ " := 0;"
  | [] => ""
  end.

Definition process_nop (params : list string) : string := "(*NOP*)".

Definition process_ton (params : list string) (enable : string) : string :=
  match params with
  | timer_name :: preset :: accumulated :: _ =>
      if negb (String.eqb enable "")
      then "IF " ++ enable ++ " THEN" ++ nl
           ++ "    " ++ timer_name ++ ".IN := 1;" ++ nl
           ++ "    " ++ timer_name ++ ".PT := " ++ preset ++ ";" ++ nl
           ++ "    " ++ timer_name ++ ".Q := " ++ timer_name ++ ".ET >= "
           ++ timer_name ++ ".PT;" ++ nl
           ++ "    " ++ accumulated ++ " := " ++ timer_name ++ ".ET;" ++ nl
           ++ "ELSE" ++ nl
           ++ "    " ++ timer_name ++ ".IN := 0;" ++ nl
           ++ "    " ++ timer_name ++ ".ET := 0;" ++ nl
           ++ "    " ++ timer_name ++ ".Q := 0;" ++ nl
           ++ "    " ++ accumulated ++ " := 0;" ++ nl
           ++ "END_IF;"
      else timer_name ++ ".IN := 1; " ++ timer_name ++ ".PT := " ++ preset
           ++ "; " ++ accumulated ++ " := " ++ timer_name ++ ".ET;"
  | _ => ""
  end.

Definition process_mov (params : list string) : string :=
  match params with
  | a :: b :: _ => b ++ " := " ++ a ++ ";"
  | _ => ""
  end.

Definition process_cop (params : list string) : string :=
  match params with
  | a :: b :: _ => b ++ " := " ++ a ++ ";"
  | _ => ""
  end.

Definition process_msg (params : list string) : string :=
  match params with
  | a :: _ => "(*MSG instruction: " ++ a ++ "*)"
  | [] => ""
  end.

Definition process_mul (params : list string) : string :=
  match params with
  | a :: b :: c :: _ => c ++ " := " ++ a ++ " * " ++ b ++ ";"
  | _ => ""
  end.

Definition process_gsv (params : list string) : string :=
  match params with
  | class_name :: instance_name :: attribute_name :: destination :: _ =>
      destination ++ " := " ++ class_name ++ "." ++ instance_name ++ "."
      ++ attribute_name ++ ";"
  | _ => ""
  end.

Definition process_ssv (params : list string) : string :=
  match params with
  | class_name :: instance_name :: attribute_name :: source :: _ =>
      class_name ++ "." ++ instance_name ++ "." ++ attribute_name ++ " := "
      ++ source ++ ";"
  | _ => ""
  end.

(** The project argument [prj] is not used. *)
Definition process_jsr (params : list string) (tab : string) : string :=
  match params with
  | routine_name :: _ => tab ++ "(*JSR to " ++ routine_name ++ "*)"
  | [] => ""
  end.

(** The mnemonics that the [if]/[elif] chain of [process_function] tests
    for, in its order. *)
Definition MNEMONICS : list string :=
  ["EQU"; "NEQ"; "XIC"; "XIO"; "OTE"; "OTL"; "OTU"; "CLR"; "NOP"; "TON";
   "MOV"; "COP"; "MSG"; "MUL"; "GSV"; "SSV"; "JSR"].

Definition process_function (func : string) (params : list string) : string :=
  let u := py_upper func in
  if String.eqb u "EQU" then process_equ params
  else if String.eqb u "NEQ" then process_neq params
  else if String.eqb u "XIC" then process_xic params
  else if String.eqb u "XIO" then process_xio params
  else if String.eqb u "OTE" then process_ote params ""
  else if String.eqb u "OTL" then process_otl params
  else if String.eqb u "OTU" then process_otu params
  else if String.eqb u "CLR" then process_clr params
  else if String.eqb u "NOP" then process_nop params
  else if String.eqb u "TON" then process_ton params ""
  else if String.eqb u "MOV" then process_mov params
  else if String.eqb u "COP" then process_cop params
  else if String.eqb u "MSG" then process_msg params
  else if String.eqb u "MUL" then process_mul params
  else if String.eqb u "GSV" then process_gsv params
  else if String.eqb u "SSV" then process_ssv params
  else if String.eqb u "JSR" then process_jsr params ""
  else func ++ "(" ++ join ", " params ++ ");".

Definition process_sequential_function_calls (sequence : list string)
  : string :=
  match sequence with
  | [] => ""
  | _ => join "; " sequence
  end.

Definition process_rung_instructions (text : string) : list string :=
  filter (fun part => negb (String.eqb part ""))
    (map strip (split_char ";" text)).

(** [[p.strip() for p in params_str.split(',') if p.strip()]] *)
Definition split_params (params_str : string) : list string :=
  map strip
    (filter (fun p => negb (String.eqb (strip p) ""))
       (split_char "," params_str)).

(** One pass of the loop of [process_instruction_list]: the lines that the
    instruction adds to [result]. *)
Definition instruction_lines (tab : string) (instr : string) : list string :=
  if negb (lacks "(" instr) && negb (lacks ")" instr) then
    let func_name := strip (slice_to instr (find_char "(" instr)) in
    let params_str :=
      slice instr (find_char "(" instr + 1) (rfind_char ")" instr) in
    let st_instr := process_function func_name (split_params params_str) in
    if negb (String.eqb st_instr "") then [tab ++ st_instr] else []
  else [tab ++ instr ++ ";"].

Definition process_instruction_list (instr_list : list string) (tab : string)
  : string :=
  join nl (flat_map (instruction_lines tab) instr_list).

Definition process_rung (rung_text : string) (tab : string) : string :=
  let rung_text := strip rung_text in
  if contains "MSG" rung_text then tab ++ "(*MSG command commented out*)"
  else process_instruction_list (process_rung_instructions rung_text) tab.

(** [process_routine], on the texts of the rungs of the routine. *)
Definition process_routine (rungs : list string) (tab : string) : string :=
  join nl
    (filter (fun st_rung => negb (String.eqb st_rung ""))
       (map (fun rung_text => process_rung rung_text tab) rungs)).

(** [process_routines], on the routines by name, each the texts of its
    rungs. *)
Definition process_routines (routines : Dict.t (list string)) : string :=
  join nl
    (flat_map
       (fun kv =>
          if negb (String.eqb (fst kv) "MainProgram")
          then ["(*Routine: " ++ fst kv ++ "*)"; process_routine (snd kv) tab]
          else [])
       routines).

(** A statement as [process_rung_instructions] returns it: not empty, no
    white space at its ends, no semicolon. *)
Definition statement (s : string) : bool :=
  negb (String.eqb s "") && trimmed s && lacks ";" s.


(** The text that [process_function] has for a call of a function that is
    none of its mnemonics. *)
Definition generic_call (func : string) (params : list string) : string :=
  func ++ "(" ++ join ", " params ++ ");".

End Instructions.

(* ================================================================== *)
(** ** utils.py: text helpers *)
(* ================================================================== *)

Module Utils.
Import PyStr PyText.

(** [format_rung_text] of utils.py:
    [re.sub(r'\s+', ' ', text.strip())]. *)
Definition format_rung_text (text : string) : string :=
  collapse (strip text).

(** The class [\w] on a character with code point below 256: the
    characters of an identifier and the letters and digits above 127. *)
Definition word_char (a : ascii) : bool :=
  let n := nat_of_ascii a in
  (Ident.ident_char a
   || existsb (Nat.eqb n) [170; 178; 179; 181; 185; 186; 188; 189; 190]
   || (192 <=? n) && (n <=? 214)
   || (216 <=? n) && (n <=? 246)
   || (248 <=? n) && (n <=? 255))%nat.

(** The longest prefix of characters that satisfy [p], and what follows. *)
Fixpoint span (p : ascii -> bool) (s : string) : string * string :=
  match s with
  | "" => ("", "")
  | String a r =>
      if p a then let '(x, y) := span p r in (String a x, y)
      else ("", s)
  end.

(** [parse_function_call]: the pattern that [re.match] applies is a run of
    word characters, white space if any, an opening parenthesis, a run of
    characters other than the closing parenthesis, and a closing
    parenthesis.  Each of the three runs is followed by a character outside
    its class, so the match, when there is one, takes the longest run each
    time. *)
Definition parse_function_call (text : string) : string * list string :=
  let '(func_name, r1) := span word_char text in
  if String.eqb func_name "" then (text, [])
  else
    let '(_, r2) := span is_space r1 in
    match r2 with
    | String c r3 =>
        if Ascii.eqb c "(" then
          let '(params_str, r4) := span (fun a => negb (Ascii.eqb a ")")) r3 in
          match r4 with
          | String _ _ =>
              (func_name,
               map strip
                 (filter (fun p => negb (String.eqb (strip p) ""))
                    (split_char "," params_str)))
          | "" => (text, [])
          end
        else (text, [])
    | "" => (text, [])
    end.

(** Does [c] come before the end of the line?  The dot of a pattern does
    not match the line feed. *)
Fixpoint closes (c : ascii) (s : string) : bool :=
  match s with
  | "" => false
  | String a r =>
      if Ascii.eqb a c then true
      else if Ascii.eqb a (chr 10) then false
      else closes c r
  end.

(** [re.sub(o + '.*?' + c, '', s)] for two characters [o] and [c]: from
    each [o] that a [c] follows on the same line, the text up to the first
    such [c] goes.  [skipping] tells whether the scan is inside such a
    stretch. *)
Fixpoint sub_lazy (o c : ascii) (skipping : bool) (s : string) : string :=
  match s with
  | "" => ""
  | String a r =>
      if skipping then sub_lazy o c (negb (Ascii.eqb a c)) r
      else if Ascii.eqb a o && closes c r then sub_lazy o c true r
      else String a (sub_lazy o c false r)
  end.

Definition get_base_data_type (data_type : string) : string :=
  strip (sub_lazy "<" ">" false (sub_lazy "[" "]" false data_type)).

(** A function name: one character of the class [\w] or more. *)
Definition word (s : string) : bool :=
  negb (String.eqb s "") && Shapes.all_chars word_char s.

(** An operand of a call: not empty, no white space at its ends, no comma
    and no closing parenthesis. *)
Definition operand (s : string) : bool :=
  negb (String.eqb s "") && trimmed s && lacks "," s && lacks ")" s.

End Utils.

(* ================================================================== *)
(** ** models.py: the compiler state *)
(* ================================================================== *)

Module State.
Import PyStr PyText.

(** The fields of [CompilerState] that [add_variable] reads and writes.
    [var_names] is an [OrderedSet]: a list without repetition, a new item
    goes last. *)
Record CompilerState : Type := mkCompilerState {
  var_names : list string;
  data_types : Dict.t string;
  var_origin : Dict.t string
}.

(** A state as the dataclass creates it. *)
Definition initial : CompilerState := mkCompilerState [] [] [].

Definition add_variable (st : CompilerState)
  (var_name data_type origin : string) : CompilerState :=
  let var_name_lower := lower var_name in
  if negb (mem var_name_lower (var_names st)) then
    mkCompilerState
      (Dict.add_distinct (var_names st) var_name_lower)
      (Dict.set var_name_lower data_type (data_types st))
      (Dict.set var_name_lower origin (var_origin st))
  else st.

(** A registration: the three arguments of one call. *)
Record Registration : Type := mkRegistration {
  reg_name : string;
  reg_type : string;
  reg_origin : string
}.

(** The calls of [add_variable], one after the other. *)
Definition add_variables (st : CompilerState) (regs : list Registration)
  : CompilerState :=
  fold_left
    (fun st r => add_variable st (reg_name r) (reg_type r) (reg_origin r))
    regs st.

(** The first registration of a name, whatever the case of its letters. *)
Definition first_registration (name : string) (regs : list Registration)
  : option Registration :=
  find (fun r => String.eqb (lower (reg_name r)) (lower name)) regs.

(** The three fields hold the same names. *)
Definition aligned (st : CompilerState) : Prop :=
  Dict.keys (data_types st) = var_names st
  /\ Dict.keys (var_origin st) = var_names st.

End State.

(* ================================================================== *)
(** ** st2l5x.py: the text of the generated routine *)
(* ================================================================== *)

Module St2L5x.
Import PyStr.

(** One turn of the loop of [_format_st_code]: what a statement adds to
    [formatted_code]. *)
Definition format_statement (statement : string) : list string :=
  let statement := strip statement in
  if negb (String.eqb statement "") then
    [if negb (endswith ";" statement) then statement ++ ";" else statement]
  else [].

(** The list [formatted_code] after the loop. *)
Definition formatted_code (program_logic : list string) : list string :=
  flat_map format_statement program_logic.

Definition _format_st_code (program_logic : list string) : string :=
  match program_logic with
  | [] => "// No program logic found"
  | _ => join (String (chr 10) "") (formatted_code program_logic)
  end.

(** A line as [_format_st_code] writes it. *)
Definition closed_statement (s : string) : bool :=
  negb (String.eqb s "") && PyText.trimmed s && endswith ";" s.

End St2L5x.

(* ================================================================== *)
(** ** utils.py: operands of a binary operator *)
(* ================================================================== *)

Module Tokens.
Import PyStr PyText.

Definition item (i : nat) (l : list string) : string := nth i l "".

(** [l[i] = v] for an index of the list.  (The guard of the loop below
    keeps both indices it writes inside the list.) *)
Fixpoint set_item (i : nat) (v : string) (l : list string) : list string :=
  match l, i with
  | [], _ => []
  | _ :: r, O => v :: r
  | x :: r, S i => x :: set_item i v r
  end.

(** [oper in ['+', '-', '*', '/']] *)
Definition arithmetic (oper : string) : bool := mem oper ["+"; "-"; "*"; "/"].

(** [x.isdigit() and '.' not in x] *)
Definition whole_number (x : string) : bool := py_isdigit x && lacks "." x.

(** What one turn of the loop of [fix_mismatched_binary_expr] does to the
    list [tokenized], before it appends [tokenized[i]] to the result. *)
Definition turn (oper : string) (tokenized : list string) (i : nat)
  : list string :=
  if String.eqb (item i tokenized) oper && (0 <? i)%nat
     && (i + 1 <? List.length tokenized)%nat
  then
    let left := item (i - 1) tokenized in
    let right := item (i + 1) tokenized in
    if arithmetic oper then
      let tokenized :=
        if whole_number left
        then set_item (i - 1) (left ++ ".0") tokenized else tokenized in
      if whole_number right
      then set_item (i + 1) (right ++ ".0") tokenized else tokenized
    else tokenized
  else tokenized.

(** The [while] loop: the result so far and the list, which the loop
    changes in place.  [None]: out of fuel. *)
Fixpoint loop (fuel : nat) (oper : string) (tokenized : list string)
  (i : nat) (result : list string) : option (list string * list string) :=
  match fuel with
  | O => None
  | S fuel =>
      if (i <? List.length tokenized)%nat then
        let tokenized := turn oper tokenized i in
        loop fuel oper tokenized (i + 1) (result ++ [item i tokenized])
      else Some (result, tokenized)
  end.

(** The list returned, and the list of the caller after the call. *)
Definition fix_mismatched_binary_expr (tokenized : list string)
  (oper : string) : option (list string * list string) :=
  loop (S (List.length tokenized)) oper tokenized 0 [].

(** The token at [j] stands right after the operator, which is not the
    first token, and is a number without a fraction. *)
Definition after_operator (t : list string) (oper : string) (j : nat)
  : bool :=
  arithmetic oper && (2 <=? j)%nat && String.eqb (item (j - 1) t) oper
  && py_isdigit (item j t).

(** The token at [j] stands right before the operator, which is not the
    last token, and is a number without a fraction. *)
Definition before_operator (t : list string) (oper : string) (j : nat)
  : bool :=
  arithmetic oper && String.eqb (item (j + 1) t) oper
  && (j + 2 <? List.length t)%nat && py_isdigit (item j t).

Definition with_fraction (b : bool) (x : string) : string :=
  if b then x ++ ".0" else x.

(** The list [tokenized] when turn [i] starts. *)
Definition tokens_at (t : list string) (oper : string) (i : nat)
  : list string :=
  map (fun j =>
         with_fraction
           (after_operator t oper j && (j <=? i)%nat
            || before_operator t oper j && (j + 2 <=? i)%nat)
           (item j t))
      (seq 0 (List.length t)).

End Tokens.

(* ================================================================== *)
(** * Properties *)
(* ================================================================== *)

(** Splits a conjunction into its parts. *)
Ltac splits := repeat match goal with |- _ /\ _ => split end.

(** ** The ladder translator on given rungs *)

Module LadderFacts.
Import PyStr Ladder Scenario.

(** More fuel does not change what the formatting loop returns. *)
Lemma format_loop_more (fuel k : nat) :
  forall formatted start offset r,
    format_loop fuel formatted start offset = Some r ->
    format_loop (fuel + k) formatted start offset = Some r.
Proof.
  induction fuel as [|fuel IH]; intros formatted start offset r H.
  - simpl in H. destruct (offset =? -1)%Z eqn:E; [|discriminate].
    destruct k; simpl; rewrite E; exact H.
  - simpl in *. destruct (offset =? -1)%Z; [exact H|].
    destruct (format_step formatted start offset) as [[f' s'] o'].
    apply IH; exact H.
Qed.

Lemma translate_more (fuel k : nat) (text out : string) :
  translate_ladder_to_st fuel text = Some out ->
  translate_ladder_to_st (fuel + k) text = Some out.
Proof.
  unfold translate_ladder_to_st, process_rung, format_rung_text.
  destruct (format_loop fuel _ _ _) as [[f st]|] eqn:E; [|discriminate].
  rewrite (format_loop_more fuel k _ _ _ _ E). auto.
Qed.

Lemma translate_from (n fuel : nat) (text out : string) :
  translate_ladder_to_st n text = Some out ->
  (n <= fuel)%nat ->
  translate_ladder_to_st fuel text = Some out.
Proof.
  intros H Hle. replace fuel with (n + (fuel - n))%nat by lia.
  apply translate_more; exact H.
Qed.

(** Whatever the fuel, a rung has at most one translation. *)
Lemma translate_unique (f1 f2 : nat) (text o1 o2 : string) :
  translate_ladder_to_st f1 text = Some o1 ->
  translate_ladder_to_st f2 text = Some o2 ->
  o1 = o2.
Proof.
  intros H1 H2.
  apply (translate_more f1 f2) in H1. apply (translate_more f2 f1) in H2.
  rewrite Nat.add_comm in H2. congruence.
Qed.

(** C1, as the specification has it, fails: no run of the translator on
    [XIC(Go)TON(T1,T#5s,Elapsed)] yields text that assigns [T1.PT], and
    none yields an ELSE arm. *)
Lemma ton_rung_no_PT_no_ELSE :
  ~ exists fuel out,
      translate_ladder_to_st fuel ton_rung = Some out
      /\ (contains "T1.PT := T#5s" out = true \/ contains "ELSE" out = true).
Proof.
  intros (fuel & out & H & Hc).
  assert (E : translate_ladder_to_st 2 ton_rung = Some ton_rung_st)
    by (vm_compute; reflexivity).
  rewrite (translate_unique _ _ _ _ _ H E) in Hc.
  vm_compute in Hc. destruct Hc as [Hc|Hc]; discriminate Hc.
Qed.

(** C1, amended: on [XIC(Go)TON(T1,T#5s,Elapsed)] the translator returns an
    IF on [Go = 1] whose only statement is the comment
    [// ERROR: TON requires exactly 2 parameters], without ELSE arm; on the
    two-operand rung [XIC(Go)TON(T1,T#5s)] it returns the same IF around
    [T1.PRE := T#5s;], [T1.TimerEnable := TRUE;] and [TONR(T1);]. *)
Theorem ton_rung_translation (fuel : nat) (Hfuel : (2 <= fuel)%nat) :
  translate_ladder_to_st fuel ton_rung = Some ton_rung_st
  /\ translate_ladder_to_st fuel "XIC(Go)TON(T1,T#5s)" = Some ton2_rung_st.
Proof.
  split; apply (translate_from 2);
    first [exact Hfuel | vm_compute; reflexivity].
Qed.

Lemma ton_rung_translation_witness :
  (2 <= 2)%nat
  /\ translate_ladder_to_st 2 ton_rung = Some ton_rung_st
  /\ translate_ladder_to_st 2 "XIC(Go)TON(T1,T#5s)" = Some ton2_rung_st.
Proof.
  split; [lia | apply (ton_rung_translation 2); lia].
Defined.

(** C2, as the specification has it, fails: no run of the translator on
    [XIC(Start),XIO(Stop)OTE(Run)] yields text that contains
    [IF ((Start = 1) AND (Stop = 0)) THEN]. *)
Lemma ote_rung_guard_absent :
  ~ exists fuel out,
      translate_ladder_to_st fuel ote_rung = Some out
      /\ contains "IF ((Start = 1) AND (Stop = 0)) THEN" out = true.
Proof.
  intros (fuel & out & H & Hc).
  assert (E : translate_ladder_to_st 3 ote_rung = Some ote_rung_st)
    by (vm_compute; reflexivity).
  rewrite (translate_unique _ _ _ _ _ H E) in Hc.
  vm_compute in Hc. discriminate Hc.
Qed.

(** C2, amended: on [XIC(Start),XIO(Stop)OTE(Run)] the translator returns
    text that contains, in order, [IF (((Stop = 0))) THEN], [Run := 1;],
    [ELSE], [Run := 0;] and [END_IF;]; the guard on both contacts,
    [IF (((Start = 1)) AND ((Stop = 0))) THEN], is what it returns for the
    rung without the comma, [XIC(Start)XIO(Stop)OTE(Run)]. *)
Theorem ote_rung_translation (fuel : nat) (Hfuel : (3 <= fuel)%nat) :
  translate_ladder_to_st fuel ote_rung = Some ote_rung_st
  /\ in_order ["IF (((Stop = 0))) THEN"; "Run := 1;"; "ELSE"; "Run := 0;";
               "END_IF;"] ote_rung_st = true
  /\ translate_ladder_to_st fuel "XIC(Start)XIO(Stop)OTE(Run)"
     = Some series_rung_st
  /\ in_order ["IF (((Start = 1)) AND ((Stop = 0))) THEN"; "Run := 1;";
               "ELSE"; "Run := 0;"; "END_IF;"] series_rung_st = true.
Proof.
  split; [|split; [|split]].
  - apply (translate_from 3); [vm_compute; reflexivity | exact Hfuel].
  - vm_compute; reflexivity.
  - apply (translate_from 3); [vm_compute; reflexivity | exact Hfuel].
  - vm_compute; reflexivity.
Qed.

Lemma ote_rung_translation_witness :
  (3 <= 4)%nat /\ translate_ladder_to_st 4 ote_rung = Some ote_rung_st.
Proof.
  split; [lia | apply (ote_rung_translation 4); lia].
Defined.

(** *** A rung on which the translator does not return *)

(** On ["A("] one pass of the formatting loop leaves its variables as they
    were, with [offset] still different from -1. *)
Lemma format_step_stuck : format_step "A(" 0 1 = ("A(", 0%Z, 1%Z).
Proof. vm_compute. reflexivity. Qed.

Lemma format_loop_stuck (fuel : nat) : format_loop fuel "A(" 0 1 = None.
Proof.
  induction fuel as [|fuel IH]; [vm_compute; reflexivity|].
  change (format_loop (S fuel) "A(" 0 1)
    with (let '(f, s, o) := format_step "A(" 0 1 in format_loop fuel f s o).
  rewrite format_step_stuck. exact IH.
Qed.

(** C10, the ladder translator: on the rung text ["A("], an opening
    parenthesis that is never closed, the loop of [format_rung_text] runs
    for ever; whatever the fuel, [translate_ladder_to_st] has no result. *)
Theorem translate_ladder_diverges (fuel : nat) :
  translate_ladder_to_st fuel "A(" = None.
Proof.
  unfold translate_ladder_to_st, process_rung, format_rung_text.
  change (remove_char " " "A(") with "A(".
  change (find_char "(" "A(") with 1%Z.
  rewrite format_loop_stuck. reflexivity.
Qed.

End LadderFacts.

(** ** The identifier policy *)

Module IdentFacts.
Import PyStr Ident.

Lemma get_In {V} (k : string) (v : V) (d : Dict.t V) :
  Dict.get k d = Some v -> In (k, v) d.
Proof.
  induction d as [|[k' v'] d IH]; simpl; [discriminate|].
  destruct (String.eqb k k') eqn:E.
  - apply String.eqb_eq in E. intros [= ->]. left. congruence.
  - intros H. right. auto.
Qed.

Lemma ident_char_sub (a : ascii) :
  ident_char (if ident_char a then a else "_"%char) = true.
Proof. destruct (ident_char a) eqn:E; [exact E | reflexivity]. Qed.

Lemma sub_non_ident_idem (s : string) :
  sub_non_ident (sub_non_ident s) = sub_non_ident s.
Proof.
  induction s as [|a r IH]; simpl; [reflexivity|].
  rewrite IH, ident_char_sub. reflexivity.
Qed.

Lemma clean_identifier_var (x : string) :
  clean_identifier ("var_" ++ x) = "var_" ++ sub_non_ident x.
Proof. reflexivity. Qed.

(** Cleaning a cleaned identifier changes nothing. *)
Lemma clean_identifier_idem (s : string) :
  clean_identifier (clean_identifier s) = clean_identifier s.
Proof.
  assert (I := sub_non_ident_idem s).
  assert (C : clean_identifier s
              = match sub_non_ident s with
                | String a _ =>
                    if is_digit a then "var_" ++ sub_non_ident s
                    else sub_non_ident s
                | "" => sub_non_ident s
                end) by reflexivity.
  destruct (sub_non_ident s) as [|a r] eqn:E.
  - rewrite C. reflexivity.
  - destruct (is_digit a) eqn:D; rewrite C.
    + rewrite clean_identifier_var, I. reflexivity.
    + unfold clean_identifier. rewrite I, D. reflexivity.
Qed.

Lemma upper_char_underscore (a : ascii) :
  Ascii.eqb (upper_char a) "_" = Ascii.eqb a "_".
Proof.
  destruct a as [[] [] [] [] [] [] [] []]; reflexivity.
Qed.

Lemma has_underscore_upper (s : string) :
  has_underscore (upper s) = has_underscore s.
Proof.
  induction s as [|a r IH]; simpl; [reflexivity|].
  rewrite IH, upper_char_underscore. reflexivity.
Qed.

Lemma sub_non_ident_plain (s : string) :
  has_underscore (sub_non_ident s) = false -> sub_non_ident s = s.
Proof.
  induction s as [|a r IH]; simpl; [reflexivity|].
  intros H. apply orb_false_iff in H. destruct H as [Ha Hr].
  rewrite (IH Hr). destruct (ident_char a); [reflexivity|].
  discriminate Ha.
Qed.

(** A cleaned identifier without underscore is the identifier itself. *)
Lemma clean_identifier_plain (s : string) :
  has_underscore (clean_identifier s) = false -> clean_identifier s = s.
Proof.
  unfold clean_identifier.
  destruct (sub_non_ident s) as [|a r] eqn:E.
  - intros _. destruct s; [reflexivity | discriminate E].
  - destruct (is_digit a).
    + intros H. discriminate H.
    + intros H. rewrite <- E in *. apply sub_non_ident_plain. exact H.
Qed.

(** Two facts of the table, by inspection of its twenty entries: every
    replacement is left alone by the policy, and R_TRIG is the one key with
    an underscore. *)
Lemma replacements_fixed :
  forallb (fun kv => String.eqb (sanitize_identifier (snd kv)) (snd kv))
          RESERVED_WORDS = true.
Proof. vm_compute. reflexivity. Qed.

Lemma underscore_key :
  forallb (fun kv => negb (has_underscore (fst kv))
                     || String.eqb (fst kv) "R_TRIG")
          RESERVED_WORDS = true.
Proof. vm_compute. reflexivity. Qed.

Lemma sanitize_reserved (s v : string) :
  Dict.get (upper s) RESERVED_WORDS = Some v -> sanitize_identifier s = v.
Proof. unfold sanitize_identifier. intros ->. reflexivity. Qed.

Lemma sanitize_plain (s : string) :
  Dict.get (upper s) RESERVED_WORDS = None ->
  sanitize_identifier s = clean_identifier s.
Proof. unfold sanitize_identifier. intros ->. reflexivity. Qed.

Lemma clean_identifier_r_trig (s : string) :
  upper (clean_identifier s) = "R_TRIG" ->
  clean_identifier s = sub_non_ident s.
Proof.
  unfold clean_identifier.
  destruct (sub_non_ident s) as [|a r]; [reflexivity|].
  destruct (is_digit a); [|reflexivity].
  intros H. exfalso. cbn in H. injection H as H _. vm_compute in H.
  discriminate H.
Qed.

(** C5, as the specification has it, fails: cleaning ["R-TRIG"] gives the
    reserved word ["R_TRIG"], which a second application replaces. *)
Lemma sanitize_twice_differs :
  sanitize_identifier (sanitize_identifier "R-TRIG")
  <> sanitize_identifier "R-TRIG".
Proof. vm_compute. intros H. discriminate H. Qed.

(** C5, amended: a second application of [sanitize_identifier] changes
    nothing, except on a string that is not reserved itself but whose
    cleaned form is, in upper case, the reserved word R_TRIG (such as
    ["R-TRIG"] or ["r trig"]): there the first application gives the cleaned
    form and the second gives ["R_TRIG1"]. *)
Theorem sanitize_idempotent_but_r_trig (s : string) :
  sanitize_identifier (sanitize_identifier s) = sanitize_identifier s
  \/ (upper (sub_non_ident s) = "R_TRIG"
      /\ upper s <> "R_TRIG"
      /\ sanitize_identifier s = sub_non_ident s
      /\ sanitize_identifier (sanitize_identifier s) = "R_TRIG1").
Proof.
  destruct (Dict.get (upper s) RESERVED_WORDS) as [v|] eqn:G.
  - left. rewrite (sanitize_reserved _ _ G).
    apply get_In in G.
    pose proof (proj1 (forallb_forall _ _) replacements_fixed _ G) as F.
    apply String.eqb_eq in F. exact F.
  - rewrite (sanitize_plain _ G).
    destruct (Dict.get (upper (clean_identifier s)) RESERVED_WORDS)
      as [v|] eqn:G2.
    + pose proof (get_In _ _ _ G2) as I.
      pose proof (proj1 (forallb_forall _ _) underscore_key _ I) as U.
      cbn [fst] in U.
      destruct (has_underscore (upper (clean_identifier s))) eqn:HU.
      * right. cbn in U. apply String.eqb_eq in U.
        pose proof (clean_identifier_r_trig _ U) as C.
        rewrite C in *.
        repeat split; auto.
        -- intros E. rewrite E in G. vm_compute in G. discriminate G.
        -- unfold sanitize_identifier. rewrite U. reflexivity.
      * exfalso. rewrite has_underscore_upper in HU.
        rewrite (clean_identifier_plain _ HU) in G2. congruence.
    + left. rewrite (sanitize_plain _ G2). apply clean_identifier_idem.
Qed.

(** C6: two keys of the table are written in lower case, and the policy,
    which looks up the upper-case form of its argument, never finds them:
    ["type"] and ["alm"] come back unchanged instead of as ["TYPE1"] and
    ["alarm1"].  Every other key is mapped to its replacement, and the
    lookup ignores the case of the argument. *)
Theorem reserved_lower_case_keys_missed :
  (Dict.get "type" RESERVED_WORDS = Some "TYPE1"
   /\ sanitize_identifier "type" = "type")
  /\ (Dict.get "alm" RESERVED_WORDS = Some "alarm1"
      /\ sanitize_identifier "alm" = "alm")
  /\ forallb (fun kv => String.eqb (sanitize_identifier (fst kv)) (snd kv)
                        || String.eqb (fst kv) "type"
                        || String.eqb (fst kv) "alm")
             RESERVED_WORDS = true
  /\ sanitize_identifier "on" = "ON1"
  /\ sanitize_identifier "Shutdown" = "Shutdown".
Proof. vm_compute. repeat split. Qed.

End IdentFacts.

(** ** The DataTypes section of the serializer *)

Module SerializerFacts.
Import Serializer.

Lemma user_type_names (user_types : list string) :
  map (fun c => ET.get_or_empty c "Name")
      (map (fun user_type => data_type_element user_type "DINT") user_types)
  = user_types.
Proof.
  induction user_types as [|u us IH]; [reflexivity|].
  cbn [map]. rewrite IH. reflexivity.
Qed.

(** C9, as the specification has it, fails: with no user type recorded the
    section holds sixteen types, and BYTE, WORD, DWORD and LWORD are not
    among them. *)
Lemma word_types_not_emitted :
  child_names (_add_basic_data_types [] empty_data_types) <> spec_base_types
  /\ ~ In "BYTE" (child_names (_add_basic_data_types [] empty_data_types)).
Proof.
  vm_compute. split; [intros H; discriminate H|].
  intros H.
  repeat (destruct H as [H|H]; [discriminate H|]). exact H.
Qed.

(** C9, amended: the serializer appends to the DataTypes element the
    sixteen base types BOOL, SINT, INT, DINT, LINT, USINT, UINT, UDINT,
    ULINT, REAL, LREAL, TIME, DATE, TOD, DT, STRING, in that order, and after
    them one element for every user type recorded by the lifter; BYTE, WORD,
    DWORD and LWORD are not base types for it: the lifter records a
    declaration of such a type as a user type. *)
Theorem data_types_section (user_types : list string)
  (data_types_elem : ET.Element) :
  child_names (_add_basic_data_types user_types data_types_elem)
  = (child_names data_types_elem
     ++ ["BOOL"; "SINT"; "INT"; "DINT"; "LINT"; "USINT"; "UINT"; "UDINT";
         "ULINT"; "REAL"; "LREAL"; "TIME"; "DATE"; "TOD"; "DT"; "STRING"]
     ++ user_types)%list
  /\ ET.children (_add_basic_data_types user_types data_types_elem)
     = (ET.children data_types_elem
        ++ map (fun tb => data_type_element (fst tb) (snd tb)) basic_types
        ++ map (fun u => data_type_element u "DINT") user_types)%list
  /\ forallb is_user_type ["BYTE"; "WORD"; "DWORD"; "LWORD"] = true.
Proof.
  split; [|split; [reflexivity | vm_compute; reflexivity]].
  unfold child_names, _add_basic_data_types. cbn [ET.children].
  rewrite !map_app, user_type_names. reflexivity.
Qed.

End SerializerFacts.

(** ** Facts about strings *)

Module StrFacts.
Import PyStr.

Lemma app_nil_r (s : string) : s ++ "" = s.
Proof. induction s as [|a r IH]; simpl; [|rewrite IH]; reflexivity. Qed.

Lemma app_assoc (a b c : string) : (a ++ b) ++ c = a ++ (b ++ c).
Proof. induction a as [|x a IH]; simpl; [|rewrite IH]; reflexivity. Qed.

Lemma length_app (a b : string) :
  String.length (a ++ b) = (String.length a + String.length b)%nat.
Proof. induction a as [|x a IH]; simpl; [|rewrite IH]; reflexivity. Qed.

Lemma take_app_length (a b : string) : take (String.length a) (a ++ b) = a.
Proof. induction a as [|x a IH]; simpl; [destruct b|rewrite IH]; reflexivity. Qed.

Lemma drop_app_length (a b : string) : drop (String.length a) (a ++ b) = b.
Proof. induction a as [|x a IH]; simpl; [reflexivity | exact IH]. Qed.

Lemma rev_snoc (s : string) (c : ascii) :
  rev (s ++ String c "") = String c (rev s).
Proof. induction s as [|x s IH]; simpl; [|rewrite IH]; reflexivity. Qed.

Lemma bound_nonneg (s : string) (i : Z) :
  (0 <= i <= len s)%Z -> bound s i = Z.to_nat i.
Proof.
  intros H. unfold bound.
  destruct (Z.ltb_spec i 0); [lia|]. rewrite Z.min_l by lia. reflexivity.
Qed.

Lemma bound_neg (s : string) (i : Z) :
  (i < 0)%Z -> (0 <= i + len s)%Z -> bound s i = Z.to_nat (i + len s).
Proof.
  intros H1 H2. unfold bound.
  destruct (Z.ltb_spec i 0); [|lia]. rewrite Z.max_r by lia. reflexivity.
Qed.

(** [s[2:-1]] drops two characters in front and one at the end. *)
Lemma slice_inner (c1 c2 c3 : ascii) (t : string) :
  slice (String c1 (String c2 (t ++ String c3 ""))) 2 (-1) = t.
Proof.
  set (v := String c1 (String c2 (t ++ String c3 ""))).
  assert (L : len v = (Z.of_nat (String.length t) + 3)%Z).
  { unfold len, v. simpl String.length. rewrite length_app. simpl. lia. }
  unfold slice.
  rewrite (bound_nonneg v 2) by lia.
  rewrite (bound_neg v (-1)) by lia.
  rewrite L.
  replace (Z.to_nat (-1 + (Z.of_nat (String.length t) + 3)) - Z.to_nat 2)%nat
    with (String.length t) by lia.
  change (Z.to_nat 2) with 2%nat. unfold v. cbn [drop].
  apply take_app_length.
Qed.


(** *** Strings in which a character does not occur *)

Lemma lacks_app (c : ascii) (a b : string) :
  lacks c (a ++ b) = lacks c a && lacks c b.
Proof.
  induction a as [|x a IH]; simpl; [reflexivity|].
  rewrite IH, andb_assoc. reflexivity.
Qed.

Lemma remove_char_lacks (c : ascii) (s : string) :
  lacks c s = true -> remove_char c s = s.
Proof.
  induction s as [|x s IH]; simpl; [reflexivity|].
  intros H. apply andb_true_iff in H. destruct H as [H1 H2].
  destruct (Ascii.eqb x c); [discriminate H1|]. rewrite (IH H2). reflexivity.
Qed.

Lemma replace_char_lacks (c d : ascii) (s : string) :
  lacks c s = true -> replace_char c d s = s.
Proof.
  induction s as [|x s IH]; simpl; [reflexivity|].
  intros H. apply andb_true_iff in H. destruct H as [H1 H2].
  destruct (Ascii.eqb x c); [discriminate H1|]. rewrite (IH H2). reflexivity.
Qed.

Lemma replace_char_app (c d : ascii) (a b : string) :
  replace_char c d (a ++ b) = replace_char c d a ++ replace_char c d b.
Proof.
  induction a as [|x a IH]; simpl; [|rewrite IH]; reflexivity.
Qed.

Lemma find_char_lacks (c : ascii) (s : string) :
  lacks c s = true -> find_char c s = (-1)%Z.
Proof.
  induction s as [|x s IH]; simpl; [reflexivity|].
  intros H. apply andb_true_iff in H. destruct H as [H1 H2].
  destruct (Ascii.eqb x c); [discriminate H1|]. rewrite (IH H2). reflexivity.
Qed.

Lemma find_char_app (c : ascii) (a b : string) :
  lacks c a = true -> find_char c (a ++ String c b) = len a.
Proof.
  unfold len. induction a as [|x a IH]; intros H.
  - simpl. rewrite Ascii.eqb_refl. reflexivity.
  - simpl in H. apply andb_true_iff in H. destruct H as [H1 H2].
    cbn [String.append find_char String.length].
    destruct (Ascii.eqb x c); [discriminate H1|].
    rewrite (IH H2).
    destruct (Z.ltb_spec (Z.of_nat (String.length a)) 0); lia.
Qed.

Lemma split_char_lacks (c : ascii) (s : string) :
  lacks c s = true -> split_char c s = [s].
Proof.
  induction s as [|x s IH]; simpl; [reflexivity|].
  intros H. apply andb_true_iff in H. destruct H as [H1 H2].
  destruct (Ascii.eqb x c); [discriminate H1|]. rewrite (IH H2). reflexivity.
Qed.

Lemma split_char_app (c : ascii) (a b : string) :
  lacks c a = true -> split_char c (a ++ String c b) = a :: split_char c b.
Proof.
  induction a as [|x a IH]; intros H.
  - simpl. rewrite Ascii.eqb_refl. reflexivity.
  - simpl in H. apply andb_true_iff in H. destruct H as [H1 H2].
    cbn [String.append split_char].
    destruct (Ascii.eqb x c); [discriminate H1|].
    rewrite (IH H2). reflexivity.
Qed.

Lemma lacks_drop (c : ascii) (n : nat) :
  forall s, lacks c s = true -> lacks c (drop n s) = true.
Proof.
  induction n as [|n IH]; intros s H; [exact H|].
  destruct s as [|x s]; [reflexivity|].
  simpl in H. apply andb_true_iff in H. apply IH, H.
Qed.

Lemma take_drop (n : nat) : forall s, take n s ++ drop n s = s.
Proof.
  induction n as [|n IH]; intros s; [reflexivity|].
  destruct s as [|x s]; [reflexivity|]. simpl. rewrite IH. reflexivity.
Qed.

(** *** Slices at the seams of a concatenation *)

Lemma len_app (a b : string) : len (a ++ b) = (len a + len b)%Z.
Proof. unfold len. rewrite length_app. lia. Qed.

Lemma len_nonneg (a : string) : (0 <= len a)%Z.
Proof. unfold len. lia. Qed.

Lemma bound_seam (a b : string) : bound (a ++ b) (len a) = String.length a.
Proof.
  rewrite bound_nonneg.
  - unfold len. apply Nat2Z.id.
  - rewrite len_app. pose proof (len_nonneg a). pose proof (len_nonneg b). lia.
Qed.

Lemma slice_to_seam (a b : string) : slice_to (a ++ b) (len a) = a.
Proof. unfold slice_to. rewrite bound_seam. apply take_app_length. Qed.

Lemma slice_from_seam (a b : string) : slice_from (a ++ b) (len a) = b.
Proof. unfold slice_from. rewrite bound_seam. apply drop_app_length. Qed.

Lemma slice_seams (a b c : string) :
  slice (a ++ b ++ c) (len a) (len a + len b) = b.
Proof.
  unfold slice. rewrite bound_seam.
  rewrite <- len_app, <- app_assoc, bound_seam, length_app.
  replace (String.length a + String.length b - String.length a)%nat
    with (String.length b) by lia.
  rewrite app_assoc, drop_app_length. apply take_app_length.
Qed.


(** *** White space *)

Lemma no_space_app (a b : string) :
  no_space (a ++ b) = no_space a && no_space b.
Proof.
  induction a as [|x a IH]; simpl; [reflexivity|].
  rewrite IH, andb_assoc. reflexivity.
Qed.

Lemma no_space_rev (s : string) : no_space (rev s) = no_space s.
Proof.
  induction s as [|x s IH]; [reflexivity|].
  cbn [rev]. rewrite no_space_app, IH. cbn [no_space].
  rewrite andb_true_r. apply andb_comm.
Qed.

Lemma rev_involutive (s : string) : rev (rev s) = s.
Proof.
  induction s as [|x s IH]; [reflexivity|].
  cbn [rev]. rewrite rev_snoc, IH. reflexivity.
Qed.

Lemma lstrip_no_space (s : string) : no_space s = true -> lstrip s = s.
Proof.
  destruct s as [|x s]; [reflexivity|]. cbn [no_space lstrip].
  intros H. apply andb_true_iff in H. destruct H as [H _].
  apply negb_true_iff in H. rewrite H. reflexivity.
Qed.

Lemma strip_no_space (s : string) : no_space s = true -> strip s = s.
Proof.
  intros H. unfold strip, rstrip. rewrite (lstrip_no_space s H).
  rewrite lstrip_no_space by (rewrite no_space_rev; exact H).
  apply rev_involutive.
Qed.

(** A token followed by a space is the next field of [split()]. *)
Lemma split_ws_token (t : string) :
  forall cur rest,
    no_space t = true -> String.eqb (cur ++ t) "" = false ->
    split_ws_aux cur (t ++ String " " rest)
    = (cur ++ t) :: split_ws_aux "" rest.
Proof.
  induction t as [|x t IH]; intros cur rest Hs Hn.
  - rewrite app_nil_r in *. cbn [String.append split_ws_aux].
    change (is_space " ") with true. cbv iota. rewrite Hn. reflexivity.
  - cbn [no_space] in Hs. apply andb_true_iff in Hs. destruct Hs as [Hx Ht].
    apply negb_true_iff in Hx.
    cbn [String.append split_ws_aux]. rewrite Hx.
    rewrite IH.
    + rewrite app_assoc. reflexivity.
    + exact Ht.
    + rewrite app_assoc. exact Hn.
Qed.

Lemma split_join (ps : list string) :
  ps <> [] -> forallb (lacks ",") ps = true ->
  split_char "," (join "," ps) = ps.
Proof.
  induction ps as [|p ps IH]; [congruence|]. intros _ H.
  cbn [forallb] in H. apply andb_true_iff in H. destruct H as [Hp Hps].
  destruct ps as [|q ps]; [apply split_char_lacks; exact Hp|].
  change (join "," (p :: q :: ps)) with (p ++ String "," (join "," (q :: ps))).
  rewrite (split_char_app _ _ _ Hp), IH; [reflexivity | discriminate | exact Hps].
Qed.

End StrFacts.

(** ** The value of a tag *)

Module TagValueFacts.
Import PyStr TagValue StrFacts.

(** What a hex digit is not. *)
Lemma hex_char_facts (a : ascii) :
  is_hex a = true ->
  Ascii.eqb a "$" = false /\ int_space a = false
  /\ Ascii.eqb a "+" = false /\ Ascii.eqb a "-" = false
  /\ Ascii.eqb a "_" = false /\ Ascii.eqb a "x" = false
  /\ Ascii.eqb a "X" = false.
Proof.
  destruct a as [[] [] [] [] [] [] [] []]; vm_compute; intros H;
    try discriminate H; repeat split.
Qed.

Lemma remove_dollar_groups (ps : list (ascii * ascii)) :
  Forall hex_pair ps -> remove_char "$" (groups_text ps) = digits_text ps.
Proof.
  induction 1 as [|[a b] ps [Ha Hb] _ IH]; [reflexivity|].
  cbn [fst snd] in Ha, Hb.
  destruct (hex_char_facts a Ha) as (Da & _).
  destruct (hex_char_facts b Hb) as (Db & _).
  cbn [groups_text digits_text remove_char].
  change (Ascii.eqb "$" "$") with true. cbv iota.
  rewrite Da, Db, IH. reflexivity.
Qed.

Lemma all_hex_digits (ps : list (ascii * ascii)) :
  Forall hex_pair ps -> all_hex (digits_text ps) = true.
Proof.
  induction 1 as [|[a b] ps [Ha Hb] _ IH]; [reflexivity|].
  cbn [fst snd] in Ha, Hb. cbn [digits_text all_hex].
  rewrite Ha, Hb, IH. reflexivity.
Qed.

(** Reading a run of hex digits to its end gives the number they spell. *)
Lemma scan_all_hex (d : string) :
  forall acc any,
    all_hex d = true ->
    scan_digits d acc any false
    = Some (hex_value d acc, any || negb (String.eqb d ""), "").
Proof.
  induction d as [|a r IH]; intros acc any H.
  - cbn. rewrite orb_false_r. reflexivity.
  - cbn [all_hex] in H. apply andb_true_iff in H. destruct H as [Ha Hr].
    cbn [scan_digits hex_value]. unfold is_hex in Ha.
    destruct (hex_digit a) as [dv|]; [|discriminate Ha].
    rewrite (IH _ _ Hr). cbn. rewrite orb_true_r. reflexivity.
Qed.

(** [int] of two or more hex digits is the number they spell. *)
Lemma int16_hex (a b : ascii) (r : string) :
  is_hex a = true -> is_hex b = true -> all_hex r = true ->
  int16 (String a (String b r)) = Some (hex_value (String a (String b r)) 0).
Proof.
  intros Ha Hb Hr.
  destruct (hex_char_facts a Ha) as (_ & Sa & Pa & Ma & Ua & _).
  destruct (hex_char_facts b Hb) as (_ & _ & _ & _ & _ & Xb & XXb).
  unfold int16. cbn [skip_space]. rewrite Sa.
  unfold take_sign. rewrite Pa, Ma.
  unfold skip_0x. rewrite Xb, XXb, andb_false_r.
  cbn [starts_with_underscore]. rewrite Ua.
  rewrite scan_all_hex
    by (cbn [all_hex]; rewrite Ha, Hb, Hr; reflexivity).
  cbn [orb String.eqb negb skip_space].
  destruct (hex_value (String a (String b r)) 0); reflexivity.
Qed.

Lemma hex_value_groups (ps : list (ascii * ascii)) :
  forall acc,
    hex_value (groups_text ps ++ "'") acc = hex_value (digits_text ps) acc.
Proof.
  induction ps as [|[a b] ps IH]; intros acc; [reflexivity|].
  cbn [groups_text digits_text String.append hex_value].
  change (hex_digit "$") with (@None Z). cbv iota.
  destruct (hex_digit a); destruct (hex_digit b); apply IH.
Qed.

(** A value made of a quote, one group or more, and a quote. *)
Lemma decode_groups (limit : nat) (a b : ascii) (ps : list (ascii * ascii)) :
  is_hex a = true -> is_hex b = true -> Forall hex_pair ps ->
  decode_value limit (String "'" (groups_text ((a, b) :: ps) ++ "'"))
  = match str_int limit (hex_value (digits_text ((a, b) :: ps)) 0) with
    | Some text => text
    | None => String "'" (groups_text ((a, b) :: ps) ++ "'")
    end.
Proof.
  intros Ha Hb Hps.
  unfold decode_value, payload. cbn [groups_text String.append].
  change (String a (String b (groups_text ps ++ "'")))
    with (String a (String b (groups_text ps)) ++ "'").
  remember (String a (String b (groups_text ps))) as t eqn:Et.
  assert (S1 : startswith "'$" (String "'" (String "$" (t ++ "'"))) = true)
    by reflexivity.
  assert (S2 : endswith "'" (String "'" (String "$" (t ++ "'"))) = true).
  { unfold endswith.
    change (String "'" (String "$" (t ++ "'")))
      with (String "'" (String "$" t) ++ "'").
    rewrite rev_snoc. reflexivity. }
  rewrite S1, S2. cbn [andb].
  rewrite slice_inner. subst t. cbn [remove_char].
  destruct (hex_char_facts a Ha) as (Da & _).
  destruct (hex_char_facts b Hb) as (Db & _).
  rewrite Da, Db, (remove_dollar_groups _ Hps).
  rewrite int16_hex by (auto using all_hex_digits). reflexivity.
Qed.

(** The shape of a text that [hex_groups] accepts. *)
Lemma hex_groups_shape (n : nat) :
  forall r seen,
    (String.length r <= n)%nat ->
    hex_groups r seen = true ->
    exists ps,
      r = groups_text ps ++ "'" /\ Forall hex_pair ps
      /\ (seen = false -> ps <> []).
Proof.
  induction n as [|n IH]; intros r seen L H.
  - destruct r; [discriminate H | simpl in L; lia].
  - destruct r as [|c [|a [|b r']]]; try discriminate H.
    + cbn in H. apply andb_true_iff in H. destruct H as [Hc Hs].
      apply Ascii.eqb_eq in Hc. subst c.
      exists []. repeat split; [constructor | congruence].
    + cbn [hex_groups] in H.
      apply andb_true_iff in H. destruct H as [H Hr].
      apply andb_true_iff in H. destruct H as [H Hb].
      apply andb_true_iff in H. destruct H as [Hc Ha].
      apply Ascii.eqb_eq in Hc. subst c.
      destruct (IH r' true) as (ps & E & F & _);
        [simpl in L; lia | exact Hr |].
      exists ((a, b) :: ps). subst r'.
      repeat split; [constructor; [split|]; assumption | discriminate].
Qed.

(** A text within the limit, or any text when there is none, is given. *)
Lemma str_int_fits (limit : nat) (n : Z) :
  (0 <= n)%Z ->
  (limit = 0 \/ String.length (PyInt.str n) <= limit)%nat ->
  str_int limit n = Some (PyInt.str n).
Proof.
  intros P H. unfold str_int.
  destruct (640 <? String.length (PyInt.str n))%nat; [|reflexivity].
  cbn [andb]. destruct H as [->|H]; [reflexivity|].
  replace (n <? 0)%Z with false by (symmetry; apply Z.ltb_ge; exact P).
  rewrite Nat.sub_0_r.
  apply Nat.ltb_ge in H. rewrite H, andb_false_r. reflexivity.
Qed.

(** A text of up to 640 characters is never refused. *)
Lemma str_int_short (limit : nat) (n : Z) :
  (String.length (PyInt.str n) <= 640)%nat ->
  str_int limit n = Some (PyInt.str n).
Proof.
  intros H. unfold str_int. apply Nat.ltb_ge in H. rewrite H. reflexivity.
Qed.




End TagValueFacts.

(** ** Facts about dictionaries *)

Module DictFacts.
#[local] Open Scope list_scope.

Section WithValue.
Context {V : Type}.

Lemma get_app (k : string) (a b : Dict.t V) :
  Dict.get k (a ++ b)
  = match Dict.get k a with Some v => Some v | None => Dict.get k b end.
Proof.
  induction a as [|[k' v'] a IH]; simpl; [reflexivity|].
  destruct (String.eqb k k'); [reflexivity | exact IH].
Qed.

Lemma set_fresh (k : string) (v : V) (d : Dict.t V) :
  Dict.get k d = None -> Dict.set k v d = d ++ [(k, v)].
Proof.
  induction d as [|[k' v'] d IH]; simpl; [reflexivity|].
  destruct (String.eqb k k'); [discriminate|].
  intros H. rewrite (IH H). reflexivity.
Qed.

Lemma keys_set (k : string) (v : V) (d : Dict.t V) :
  Dict.keys (Dict.set k v d) = Dict.add_distinct (Dict.keys d) k.
Proof.
  unfold Dict.add_distinct.
  induction d as [|[k' v'] d IH]; simpl; [reflexivity|].
  destruct (String.eqb k k'); simpl; [reflexivity|].
  rewrite IH. destruct (existsb (String.eqb k) (Dict.keys d)); reflexivity.
Qed.

Lemma contains_In (k : string) (d : Dict.t V) :
  Dict.contains k d = true <-> In k (Dict.keys d).
Proof.
  unfold Dict.contains.
  induction d as [|[k' v'] d IH]; simpl; [split; [discriminate | tauto]|].
  destruct (String.eqb_spec k k') as [->|N].
  - split; auto.
  - rewrite IH. split; [auto | intros [E|I]; [congruence | exact I]].
Qed.

Lemma get_set (b k : string) (v : V) (d : Dict.t V) :
  Dict.get b (Dict.set k v d)
  = if String.eqb b k then Some v else Dict.get b d.
Proof.
  induction d as [|[k' v'] d IH]; simpl.
  - reflexivity.
  - destruct (String.eqb_spec k k') as [->|N]; simpl.
    + destruct (String.eqb b k'); reflexivity.
    + rewrite IH. destruct (String.eqb_spec b k) as [->|N'];
        [|reflexivity].
      destruct (String.eqb_spec k k'); [congruence | reflexivity].
Qed.

Lemma get_none_keys (k : string) (d : Dict.t V) :
  Dict.get k d = None <-> ~ In k (Dict.keys d).
Proof.
  induction d as [|[k' v'] d IH]; simpl; [tauto|].
  destruct (String.eqb_spec k k') as [->|N].
  - split; [discriminate | intros H; exfalso; apply H; left; reflexivity].
  - rewrite IH. split; [intros H [E|I]; [congruence | auto] | tauto].
Qed.

End WithValue.

Section ByName.
Context {A : Type} (name_of : A -> string).

Let step := fun (d : Dict.t A) (x : A) => Dict.set (name_of x) x d.

(** The keys of a dictionary built by name are the distinct names. *)
Lemma keys_fold (xs : list A) :
  forall acc,
    Dict.keys (fold_left step xs acc)
    = fold_left Dict.add_distinct (map name_of xs) (Dict.keys acc).
Proof.
  induction xs as [|x xs IH]; intros acc; [reflexivity|].
  cbn [fold_left map]. rewrite IH.
  change (step acc x) with (Dict.set (name_of x) x acc).
  rewrite keys_set. reflexivity.
Qed.

Lemma length_by_name (xs : list A) :
  List.length (Fidelity.by_name name_of xs)
  = List.length (Dict.distinct (map name_of xs)).
Proof.
  unfold Fidelity.by_name, Dict.distinct.
  change (fun (d : Dict.t A) (x : A) => Dict.set (name_of x) x d) with step.
  pose proof (keys_fold xs []) as K.
  change (Dict.keys (@nil (string * A))) with (@nil string) in K.
  rewrite <- K. unfold Dict.keys. rewrite length_map. reflexivity.
Qed.

(** With names that are all different, the dictionary is the list. *)
Lemma fold_nodup (xs : list A) :
  forall acc,
    NoDup (map name_of xs) ->
    (forall x, In x xs -> Dict.get (name_of x) acc = None) ->
    fold_left step xs acc = acc ++ map (fun x => (name_of x, x)) xs.
Proof.
  induction xs as [|x xs IH]; intros acc N F.
  - simpl. rewrite app_nil_r. reflexivity.
  - cbn [fold_left map]. inversion N as [|? ? Nx N']; subst.
    change (step acc x) with (Dict.set (name_of x) x acc).
    rewrite set_fresh by (apply F; left; reflexivity).
    rewrite IH; [rewrite <- app_assoc; reflexivity | exact N' |].
    intros y Hy. rewrite get_app, (F y (or_intror Hy)). simpl.
    destruct (String.eqb_spec (name_of y) (name_of x)) as [E|_];
      [|reflexivity].
    exfalso. apply Nx. rewrite <- E. apply in_map. exact Hy.
Qed.

Lemma by_name_nodup (xs : list A) :
  NoDup (map name_of xs) ->
  Fidelity.by_name name_of xs = map (fun x => (name_of x, x)) xs.
Proof.
  intros N. unfold Fidelity.by_name.
  change (fun (d : Dict.t A) (x : A) => Dict.set (name_of x) x d) with step.
  rewrite fold_nodup; [reflexivity | exact N | reflexivity].
Qed.

(** Looking a name up finds the one component that has it, if any. *)
Lemma lookup_exists (same : A -> A -> bool) (o : A) (cs : list A) :
  NoDup (map name_of cs) ->
  match Dict.get (name_of o) (map (fun x => (name_of x, x)) cs) with
  | Some c => same o c
  | None => false
  end
  = existsb (fun c => String.eqb (name_of o) (name_of c) && same o c) cs.
Proof.
  induction cs as [|c cs IH]; intros N; [reflexivity|].
  inversion N as [|? ? Nc N']; subst. cbn [map Dict.get existsb].
  destruct (String.eqb_spec (name_of o) (name_of c)) as [E|_].
  - cbn [andb].
    assert (Z : existsb
                  (fun c' => String.eqb (name_of o) (name_of c') && same o c')
                  cs = false).
    { apply not_true_is_false. intros H. apply existsb_exists in H.
      destruct H as (c' & I & H). apply andb_true_iff in H.
      destruct H as [H _]. apply String.eqb_eq in H.
      apply Nc. rewrite <- E, H. apply in_map. exact I. }
    rewrite Z, orb_false_r. reflexivity.
  - cbn [andb orb]. apply IH. exact N'.
Qed.

Lemma count_matched_spec (same : A -> A -> bool) (os cs : list A) :
  NoDup (map name_of os) -> NoDup (map name_of cs) ->
  Fidelity.count_matched same (Fidelity.by_name name_of os)
                         (Fidelity.by_name name_of cs)
  = Fidelity.spec_matched name_of same os cs.
Proof.
  intros No Nc. unfold Fidelity.count_matched, Fidelity.spec_matched.
  rewrite (by_name_nodup os No), (by_name_nodup cs Nc).
  clear No. induction os as [|o os IH]; [reflexivity|].
  cbn [map filter fst snd]. rewrite (lookup_exists same o cs Nc).
  destruct (existsb _ cs); cbn [List.length]; rewrite IH; reflexivity.
Qed.

Lemma count_matched_le (same : A -> A -> bool) (o c : Dict.t A) :
  (Fidelity.count_matched same o c <= List.length o)%nat.
Proof. unfold Fidelity.count_matched. apply filter_length_le. Qed.

Lemma distinct_nodup_length (xs : list A) :
  NoDup (map name_of xs) ->
  List.length (Fidelity.by_name name_of xs) = List.length xs.
Proof.
  intros N. rewrite (by_name_nodup xs N). apply length_map.
Qed.

End ByName.

End DictFacts.

(** ** The fidelity score *)

Module FidelityFacts.
Import Fidelity DictFacts.

Lemma pos_of_nat (t : nat) : t <> 0%nat -> Z.pos (Pos.of_nat t) = Z.of_nat t.
Proof. intros H. lia. Qed.

Lemma matched_le_total (original converted : IRProject) :
  (matched_components original converted <= total_components original)%nat.
Proof.
  unfold matched_components, total_components.
  repeat apply Nat.add_le_mono; apply count_matched_le.
Qed.

(** C7, as the specification has it, fails: two tags of one name count as
    one component.  With tags a, a, b in the original and b alone in the
    conversion the score is 1/2, which is no number of thirds. *)
Lemma same_name_counted_once :
  spec_total twice_a = 3%nat
  /\ total_components twice_a = 2%nat
  /\ calculate_fidelity_score twice_a only_b = 1 # 2
  /\ forall matched : nat,
       ~ (calculate_fidelity_score twice_a only_b
          == Z.of_nat matched # Pos.of_nat (spec_total twice_a)).
Proof.
  split; [reflexivity|]. split; [reflexivity|]. split; [reflexivity|].
  intros matched H.
  change (calculate_fidelity_score twice_a only_b) with (1 # 2) in H.
  change (Pos.of_nat (spec_total twice_a)) with 3%positive in H.
  unfold Qeq in H. cbn [Qnum Qden] in H. lia.
Qed.

(** C7, amended: the score lies in [0, 1]; it is 1 when the original has no
    component; its denominator is the number of distinct tag names plus the
    number of distinct user type names plus the number of distinct program
    names of the original; and when no two tags, no two user types and no
    two programs share a name, in the original and in the conversion, the
    score is the number of matched pairs over
    |tags| + |user types| + |programs|, a pair matching as the
    specification says. *)
Theorem fidelity_score_meaning (original converted : IRProject) :
  (0 <= calculate_fidelity_score original converted
   /\ calculate_fidelity_score original converted <= 1)%Q
  /\ (total_components original = 0%nat ->
      calculate_fidelity_score original converted = 1%Q)
  /\ total_components original
     = (List.length
          (Dict.distinct (map tag_name (tags (controller original))))
        + List.length
            (Dict.distinct (map dt_name (data_types (controller original))))
        + List.length (Dict.distinct (map prog_name (programs original))))%nat
  /\ (names_unique original -> names_unique converted ->
      calculate_fidelity_score original converted
      = spec_score original converted).
Proof.
  split; [|split; [|split]].
  - pose proof (matched_le_total original converted) as L.
    unfold calculate_fidelity_score.
    destruct (Nat.eqb_spec (total_components original) 0) as [E|N].
    + split; unfold Qle; cbn; lia.
    + split; unfold Qle; cbn [Qnum Qden]; rewrite ?(pos_of_nat _ N); lia.
  - intros E. unfold calculate_fidelity_score. rewrite E. reflexivity.
  - unfold total_components. rewrite !length_by_name. reflexivity.
  - intros (Ot & Od & Op) (Ct & Cd & Cp).
    unfold calculate_fidelity_score, spec_score, matched_components,
      total_components, spec_total.
    rewrite !count_matched_spec by assumption.
    rewrite !distinct_nodup_length by assumption.
    reflexivity.
Qed.


Ltac nodup_names :=
  repeat constructor; cbn; intuition discriminate.

Lemma scenario6_names_unique (ms : list IRDataTypeMember) :
  names_unique (scenario6 ms).
Proof. unfold names_unique. cbn. repeat split; nodup_names. Defined.

Lemma fidelity_score_meaning_witness :
  names_unique (scenario6 four_members)
  /\ calculate_fidelity_score (scenario6 four_members)
       (scenario6 (tl four_members))
     = spec_score (scenario6 four_members) (scenario6 (tl four_members)).
Proof.
  split; [apply scenario6_names_unique|].
  apply (fidelity_score_meaning (scenario6 four_members)
                                (scenario6 (tl four_members)));
    apply scenario6_names_unique.
Defined.

(** Scenario 6: the score of a project against itself is 1, and one user
    type with a member less takes exactly 1/6 away. *)
Example scenario6_scores :
  calculate_fidelity_score (scenario6 four_members) (scenario6 four_members)
  == 1
  /\ calculate_fidelity_score (scenario6 four_members)
       (scenario6 (tl four_members)) == 5 # 6.
Proof. split; vm_compute; reflexivity. Qed.

End FidelityFacts.

(** ** The order of function blocks *)

Module FbdFacts.
Import PyStr Fbd DictFacts.
#[local] Open Scope list_scope.

Lemma mem_In (x : string) (l : list string) : mem x l = true <-> In x l.
Proof.
  unfold mem. rewrite existsb_exists. split.
  - intros (y & I & E). apply String.eqb_eq in E. subst. exact I.
  - intros I. exists x. split; [exact I | apply String.eqb_refl].
Qed.

Lemma mem_not_In (x : string) (l : list string) :
  mem x l = false <-> ~ In x l.
Proof.
  rewrite <- mem_In. destruct (mem x l); split; congruence.
Qed.

Lemma set_add_In (x k : string) (l : list string) :
  In x (set_add k l) <-> x = k \/ In x l.
Proof.
  unfold set_add. destruct (mem k l) eqn:M.
  - apply mem_In in M. split; [auto | intros [->|I]; assumption].
  - rewrite in_app_iff. simpl. split; [intros [I|[E|[]]] | intros [E|I]]; auto.
Qed.

Lemma set_add_fresh (k : string) (l : list string) :
  ~ In k l -> set_add k l = l ++ [k].
Proof.
  intros N. unfold set_add. apply mem_not_In in N. rewrite N. reflexivity.
Qed.

Lemma set_remove_absent (k : string) (l : list string) :
  ~ In k l -> set_remove k l = l.
Proof.
  unfold set_remove. induction l as [|y l IH]; intros N; [reflexivity|].
  simpl. destruct (String.eqb_spec y k) as [->|_].
  - exfalso. apply N. left. reflexivity.
  - simpl. rewrite IH; [reflexivity | intros I; apply N; right; exact I].
Qed.

Lemma set_remove_last (k : string) (l : list string) :
  ~ In k l -> set_remove k (l ++ [k]) = l.
Proof.
  intros N. unfold set_remove. rewrite filter_app. simpl.
  rewrite String.eqb_refl. simpl. rewrite app_nil_r.
  apply (set_remove_absent k l N).
Qed.

Lemma NoDup_app_disjoint {A} (l1 l2 : list A) :
  NoDup (l1 ++ l2) -> forall x, In x l1 -> In x l2 -> False.
Proof.
  induction l1 as [|a l1 IH]; intros N x I1 I2; [destruct I1|].
  simpl in N. inversion N as [|? ? Na N']; subst.
  destruct I1 as [->|I1].
  - apply Na. apply in_app_iff. right. exact I2.
  - exact (IH N' x I1 I2).
Qed.

Lemma snoc_cases {A} (l : list A) :
  l = [] \/ exists l' z, l = l' ++ [z].
Proof.
  induction l as [|z l' _] using rev_ind; [left | right; eauto]; reflexivity.
Qed.

(** In a well ordered list, what an entry is related to stands before
    it. *)
Lemma well_ordered_before (R : string -> string -> Prop) (l : list string) :
  well_ordered R l ->
  forall l1 x l2 a, l = l1 ++ x :: l2 -> R x a -> In a l1.
Proof.
  induction 1 as [|l y W IH Hy Ny]; intros l1 x l2 a E Rxa.
  - destruct l1; discriminate E.
  - destruct (snoc_cases l2) as [->|(l2' & z & ->)].
    + apply app_inj_tail in E. destruct E as [<- <-]. auto.
    + change (l1 ++ x :: l2' ++ [z]) with (l1 ++ (x :: l2') ++ [z]) in E.
      rewrite app_assoc in E. apply app_inj_tail in E.
      destruct E as [E _]. exact (IH _ _ _ _ E Rxa).
Qed.

Lemma well_ordered_NoDup (R : string -> string -> Prop) (l : list string) :
  well_ordered R l -> NoDup l.
Proof.
  induction 1 as [|l y W IH Hy Ny]; [constructor|].
  apply NoDup_app; [exact IH | repeat constructor; simpl; tauto |].
  intros x I [<-|[]]. exact (Ny I).
Qed.


(** *** The depth-first search *)

Section Search.

Variable set_iter : list string -> list string.
Variable warning_frames : nat.
Variable self : FBDTranslator.
Variable dependencies : Dict.t (list string).
Variable order0 : list string.

#[local] Abbreviation nodes := (Dict.keys (function_blocks self)).
#[local] Abbreviation R := (fun b a : string => In a (deps_of set_iter dependencies b)).
#[local] Abbreviation inv := (dfs_inv R nodes order0).

(** Every dependency is a function block, and no block depends on itself,
    directly or not. *)
Hypothesis deps_blocks :
  forall b a, In a (deps_of set_iter dependencies b) -> In a nodes.
Hypothesis deps_acyclic : forall x, ~ clos_trans string R x x.

Lemma visit_each_cons (call : dfs -> string -> outcome) (a : string)
  (ds : list string) (s : dfs) :
  In a nodes ->
  visit_each self call (a :: ds) (Done s)
  = visit_each self call ds (call s a).
Proof.
  intros I. unfold visit_each. cbn [fold_left].
  apply contains_In in I. rewrite I. reflexivity.
Qed.

(** A call of [visit] on a block that is not under visit returns; it
    leaves the block visited, the blocks under visit as they were, and has
    appended blocks that the visited block depends on. *)
Lemma visit_ok (depth : nat) :
  forall st fb,
    inv st ->
    In fb nodes ->
    ~ In fb (temp_visited st) ->
    NoDup (temp_visited st) ->
    incl (temp_visited st) nodes ->
    (forall t, In t (temp_visited st) -> clos_trans string R t fb) ->
    (List.length nodes < depth + List.length (temp_visited st))%nat ->
    exists st' added,
      visit set_iter warning_frames depth self dependencies st fb = Done st'
      /\ inv st'
      /\ temp_visited st' = temp_visited st
      /\ In fb (visited st')
      /\ incl (visited st) (visited st')
      /\ order st' = order st ++ added
      /\ (forall x, In x added -> clos_refl_trans string R fb x).
Proof.
  induction depth as [|d IH]; intros st fb I Hfb Ht Nd Hincl Hstack Hfuel.
  - exfalso.
    assert (L : (List.length (fb :: temp_visited st) <= List.length nodes)%nat).
    { apply NoDup_incl_length; [constructor; assumption|].
      intros x [<-|Hx]; auto. }
    simpl in L, Hfuel. lia.
  - cbn [visit].
    rewrite (proj2 (mem_not_In _ _) Ht).
    destruct (mem fb (visited st)) eqn:Mv.
    + apply mem_In in Mv. exists st, [].
      splits; auto using incl_refl.
      * symmetry. apply app_nil_r.
      * intros x [].
    + apply mem_not_In in Mv.
      rewrite (set_add_fresh _ _ Ht). cbn [visited temp_visited order].
      set (temp1 := temp_visited st ++ [fb]).
      assert (Nd1 : NoDup temp1).
      { apply NoDup_app; [exact Nd | repeat constructor; simpl; tauto |].
        intros x Hx [<-|[]]. exact (Ht Hx). }
      assert (Hincl1 : incl temp1 nodes).
      { intros x Hx. apply in_app_iff in Hx. destruct Hx as [Hx|[<-|[]]]; auto. }
      assert (L1 : List.length temp1 = S (List.length (temp_visited st))).
      { unfold temp1. rewrite length_app. simpl. lia. }
      (* the loop over the dependencies *)
      assert (each :
        forall ds s,
          (forall a, In a ds -> R fb a) ->
          inv s -> temp_visited s = temp1 ->
          exists s' added,
            visit_each self (visit set_iter warning_frames d self dependencies) ds (Done s)
            = Done s'
            /\ inv s' /\ temp_visited s' = temp1
            /\ incl (visited s) (visited s')
            /\ (forall a, In a ds -> In a (visited s'))
            /\ order s' = order s ++ added
            /\ (forall x, In x added -> clos_refl_trans string R fb x)).
      { induction ds as [|a ds IHds]; intros s Hds Is Ts.
        - exists s, []. splits; auto using incl_refl.
          + intros a [].
          + symmetry. apply app_nil_r.
          + intros x [].
        - assert (Ra : R fb a) by (apply Hds; left; reflexivity).
          assert (Na : In a nodes) by (apply (deps_blocks fb); exact Ra).
          rewrite (visit_each_cons _ _ _ _ Na).
          destruct (IH s a) as (s1 & add1 & E1 & I1 & T1 & V1 & S1 & O1 & C1).
          + exact Is.
          + exact Na.
          + rewrite Ts. intros Hin. apply in_app_iff in Hin.
            destruct Hin as [Hin|[<-|[]]].
            * apply (deps_acyclic a).
              apply t_trans with fb; [apply Hstack; exact Hin|].
              apply t_step. exact Ra.
            * apply (deps_acyclic fb). apply t_step. exact Ra.
          + rewrite Ts. exact Nd1.
          + rewrite Ts. exact Hincl1.
          + rewrite Ts. intros t Hin. apply in_app_iff in Hin.
            destruct Hin as [Hin|[<-|[]]].
            * apply t_trans with fb; [apply Hstack; exact Hin|].
              apply t_step. exact Ra.
            * apply t_step. exact Ra.
          + rewrite Ts, L1. lia.
          + rewrite E1.
            destruct (IHds s1) as (s2 & add2 & E2 & I2 & T2 & V2 & D2 & O2 & C2).
            * intros b Hb. apply Hds. right. exact Hb.
            * exact I1.
            * rewrite T1. exact Ts.
            * exists s2, (add1 ++ add2). splits; auto.
              -- intros x Hx. apply V2, S1, Hx.
              -- intros b [<-|Hb]; [apply V2; exact V1 | apply D2; exact Hb].
              -- rewrite O2, O1. symmetry; apply app_assoc.
              -- intros x Hx. apply in_app_iff in Hx. destruct Hx as [Hx|Hx].
                 ++ apply rt_trans with a; [apply rt_step; exact Ra|].
                    apply C1. exact Hx.
                 ++ apply C2. exact Hx. }
      destruct I as (new & Onew & Wnew & Vnew & Nnew & Dnew).
      destruct (each (deps_of set_iter dependencies fb)
                     (mkDfs (visited st) temp1 (order st)))
        as (s' & added & E & I' & T' & V' & D' & O' & C').
      * auto.
      * exists new. cbn [visited temp_visited order]. splits; auto.
        intros x Hx. apply in_app_iff in Hx.
        destruct Hx as [Hx|[<-|[]]]; auto.
      * reflexivity.
      * rewrite E.
        destruct I' as (new' & Onew' & Wnew' & Vnew' & Nnew' & Dnew').
        assert (Fv : ~ In fb (visited s')).
        { apply Dnew'. rewrite T'. apply in_app_iff. right. left. reflexivity. }
        exists (mkDfs (set_add fb (visited s'))
                      (set_remove fb (temp_visited s'))
                      (order s' ++ [fb])),
               (added ++ [fb]).
        cbn [visited temp_visited order].
        assert (Tr : set_remove fb (temp_visited s') = temp_visited st).
        { rewrite T'. apply set_remove_last. exact Ht. }
        splits.
        -- reflexivity.
        -- unfold dfs_inv. exists (new' ++ [fb]).
           cbn [visited temp_visited order].
           splits.
           ++ rewrite Onew'. symmetry; apply app_assoc.
           ++ apply wo_snoc; [exact Wnew' | | ].
              ** intros a Ra. apply Vnew'. apply D'. exact Ra.
              ** intros Hin. apply Fv. apply Vnew'. exact Hin.
           ++ intros x. rewrite set_add_In, in_app_iff, Vnew'. simpl.
              intuition congruence.
           ++ intros x Hx. apply in_app_iff in Hx.
              destruct Hx as [Hx|[<-|[]]]; auto.
           ++ rewrite Tr. intros x Hx Hv. apply set_add_In in Hv.
              destruct Hv as [->|Hv]; [exact (Ht Hx)|].
              apply (Dnew' x); [|exact Hv].
              rewrite T'. apply in_app_iff. left. exact Hx.
        -- exact Tr.
        -- apply set_add_In. left. reflexivity.
        -- intros x Hx. apply set_add_In. right. apply V'. exact Hx.
        -- rewrite O'. cbn [order]. symmetry; apply app_assoc.
        -- intros x Hx. apply in_app_iff in Hx.
           destruct Hx as [Hx|[<-|[]]]; [apply C'; exact Hx | apply rt_refl].
Qed.

(** The loop over the function blocks: every block of [ks] ends up visited,
    and what is appended is a block of [ks] or something one depends on. *)
Lemma visit_keys_ok (depth : nat) :
  (List.length nodes < depth)%nat ->
  forall ks s,
    incl ks nodes -> inv s -> temp_visited s = [] ->
    exists s' added,
      visit_keys (visit set_iter warning_frames depth self dependencies) ks (Done s)
      = Done s'
      /\ inv s' /\ temp_visited s' = []
      /\ incl (visited s) (visited s')
      /\ (forall k, In k ks -> In k (visited s'))
      /\ order s' = order s ++ added
      /\ (forall x, In x added ->
          exists k, In k ks /\ clos_refl_trans string R k x).
Proof.
  intros Hfuel. induction ks as [|k ks IH]; intros s Hks I T.
  - exists s, []. splits; auto using incl_refl.
    + intros k [].
    + symmetry. apply app_nil_r.
    + intros x [].
  - unfold visit_keys. cbn [fold_left].
    fold (visit_keys (visit set_iter warning_frames depth self dependencies) ks).
    assert (Hk : In k nodes) by (apply Hks; left; reflexivity).
    assert (Hks' : incl ks nodes) by (intros x Hx; apply Hks; right; exact Hx).
    destruct (mem k (visited s)) eqn:M.
    + apply mem_In in M.
      destruct (IH s Hks' I T) as (s' & added & E & I' & T' & V' & D' & O' & C').
      exists s', added. splits; auto.
      * intros x [<-|Hx]; [apply V'; exact M | apply D'; exact Hx].
      * intros x Hx. destruct (C' x Hx) as (k' & Hk' & Rk').
        exists k'. split; [right; exact Hk' | exact Rk'].
    + destruct (visit_ok depth s k) as (s1 & add1 & E1 & I1 & T1 & V1 & S1 & O1 & C1).
      * exact I.
      * exact Hk.
      * rewrite T. intros [].
      * rewrite T. constructor.
      * rewrite T. intros x [].
      * rewrite T. intros t [].
      * rewrite T. simpl. lia.
      * rewrite E1.
        destruct (IH s1 Hks' I1) as (s' & added & E & I' & T' & V' & D' & O' & C').
        { rewrite T1. exact T. }
        exists s', (add1 ++ added). splits; auto.
        -- intros x Hx. apply V', S1, Hx.
        -- intros x [<-|Hx]; [apply V'; exact V1 | apply D'; exact Hx].
        -- rewrite O', O1. symmetry; apply app_assoc.
        -- intros x Hx. apply in_app_iff in Hx. destruct Hx as [Hx|Hx].
           ++ exists k. split; [left; reflexivity | apply C1; exact Hx].
           ++ destruct (C' x Hx) as (k' & Hk' & Rk').
              exists k'. split; [right; exact Hk' | exact Rk'].
Qed.

Lemma visit_keys_app (call : dfs -> string -> outcome) (a b : list string)
  (start : outcome) :
  visit_keys call (a ++ b) start = visit_keys call b (visit_keys call a start).
Proof. unfold visit_keys. apply fold_left_app. Qed.

Lemma inv_start : inv (mkDfs [] [] order0).
Proof.
  exists []. cbn [visited temp_visited order]. splits.
  - symmetry. apply app_nil_r.
  - constructor.
  - tauto.
  - intros x [].
  - intros x [].
Qed.

(** From a fresh start the loop appends every block once, each after the
    blocks it depends on. *)
Lemma visit_all_order (depth : nat) :
  (List.length nodes < depth)%nat ->
  exists s' new,
    visit_all set_iter warning_frames depth self dependencies (mkDfs [] [] order0) = Done s'
    /\ order s' = order0 ++ new
    /\ well_ordered R new
    /\ (forall x, In x new <-> In x nodes).
Proof.
  intros Hfuel.
  destruct (visit_keys_ok depth Hfuel nodes (mkDfs [] [] order0))
    as (s' & added & E & I' & T' & V' & D' & O' & C').
  - apply incl_refl.
  - apply inv_start.
  - reflexivity.
  - destruct I' as (new & On & Wn & Vn & Nn & Dn).
    exists s', new. splits; auto.
    intros x. split; [apply Nn|]. intros Hx. apply Vn, D'. exact Hx.
Qed.

(** If [Y] is appended before [X], then [X], or a block that stands before
    [X] among the keys, depends on [Y]. *)
Lemma visit_all_ties (depth : nat) (pre post : list string) (X : string) :
  (List.length nodes < depth)%nat ->
  nodes = pre ++ X :: post ->
  exists s' new,
    visit_all set_iter warning_frames depth self dependencies (mkDfs [] [] order0) = Done s'
    /\ order s' = order0 ++ new
    /\ forall Y l1 l2 l3,
         new = l1 ++ Y :: l2 ++ X :: l3 ->
         exists p, In p (pre ++ [X]) /\ clos_refl_trans string R p Y.
Proof.
  intros Hfuel Hn.
  assert (Hn' : nodes = (pre ++ [X]) ++ post)
    by (rewrite Hn, <- app_assoc; reflexivity).
  unfold visit_all. rewrite Hn', visit_keys_app.
  destruct (visit_keys_ok depth Hfuel (pre ++ [X]) (mkDfs [] [] order0))
    as (s1 & add1 & E1 & I1 & T1 & V1 & D1 & O1 & C1).
  - rewrite Hn'. apply incl_appl, incl_refl.
  - apply inv_start.
  - reflexivity.
  - rewrite E1.
    destruct (visit_keys_ok depth Hfuel post s1)
      as (s2 & add2 & E2 & I2 & T2 & V2 & D2 & O2 & C2).
    + rewrite Hn'. apply incl_appr, incl_refl.
    + exact I1.
    + exact T1.
    + exists s2, (add1 ++ add2). cbn [order] in O1. splits.
      * exact E2.
      * rewrite O2, O1. symmetry; apply app_assoc.
      * intros Y l1 l2 l3 E.
        assert (X1 : In X add1).
        { destruct I1 as (new1 & On1 & _ & Vn1 & _).
          rewrite O1 in On1. apply app_inv_head in On1. subst new1.
          apply Vn1, D1. apply in_app_iff. right. left. reflexivity. }
        assert (Nd : NoDup (add1 ++ add2)).
        { destruct I2 as (new2 & On2 & Wn2 & _).
          rewrite O2, O1, <- app_assoc in On2. apply app_inv_head in On2.
          subst new2. exact (well_ordered_NoDup _ _ Wn2). }
        assert (Y1 : In Y add1).
        { apply app_eq_app in E. destruct E as (l & [[Ea Eb]|[Ea Eb]]).
          - destruct l as [|y l].
            + exfalso. apply (NoDup_app_disjoint _ _ Nd X X1).
              simpl in Eb. rewrite <- Eb.
              right. apply in_app_iff. right. left. reflexivity.
            + simpl in Eb. injection Eb as <- _. rewrite Ea.
              apply in_app_iff. right. left. reflexivity.
          - exfalso. apply (NoDup_app_disjoint _ _ Nd X X1).
            rewrite Eb. apply in_app_iff. right. right.
            apply in_app_iff. right. left. reflexivity. }
        destruct (C1 Y Y1) as (k & Hk & Rk). exists k. auto.
Qed.

End Search.


(** *** The dependencies and the wires *)

Lemma get_empty_sets (b : string) (ks : list string) :
  Dict.get b (map (fun k => (k, @nil string)) ks)
  = if mem b ks then Some [] else None.
Proof.
  induction ks as [|k ks IH]; [reflexivity|].
  cbn [map Dict.get]. unfold mem. cbn [existsb].
  destruct (String.eqb b k); [reflexivity | exact IH].
Qed.

(** After the wires [ws], the set of a block holds the blocks from which a
    wire of [ws] leads to it; nothing else has a set. *)
Lemma dependencies_after (self : FBDTranslator) (ws : list wire_info) :
  forall b,
    (is_block self b = true ->
     exists s,
       Dict.get b
         (fold_left (add_dependency self) ws
            (map (fun k => (k, [])) (Dict.keys (function_blocks self))))
       = Some s
       /\ forall a,
            In a s <->
            exists w, In w ws /\ from_id w = a /\ to_id w = b
                      /\ is_block self a = true /\ is_block self b = true)
    /\ (is_block self b = false ->
        Dict.get b
          (fold_left (add_dependency self) ws
             (map (fun k => (k, [])) (Dict.keys (function_blocks self))))
        = None).
Proof.
  induction ws as [|w ws IH] using rev_ind; intros b.
  - cbn [fold_left]. rewrite get_empty_sets. unfold is_block. split.
    + intros B. apply contains_In, mem_In in B. rewrite B.
      exists []. split; [reflexivity|].
      intros a. split; [intros [] | intros (w & [] & _)].
    + intros B. destruct (mem b _) eqn:M; [|reflexivity].
      apply mem_In, contains_In in M. congruence.
  - rewrite fold_left_app. cbn [fold_left].
    set (d := fold_left (add_dependency self) ws _) in *.
    unfold add_dependency.
    destruct (Dict.contains (from_id w) (function_blocks self)) eqn:Bf;
      [destruct (Dict.contains (to_id w) (function_blocks self)) eqn:Bt|];
      cbn [andb].
    + destruct (proj1 (IH (to_id w)) Bt) as (s0 & G0 & S0).
      rewrite G0, get_set.
      destruct (String.eqb_spec b (to_id w)) as [->|N].
      * split; [|unfold is_block; congruence].
        intros _. exists (set_add (from_id w) s0). split; [reflexivity|].
        intros a. rewrite set_add_In, S0. split.
        -- intros [->|(w' & I & E)].
           ++ exists w. rewrite in_app_iff. simpl. auto 10.
           ++ exists w'. rewrite in_app_iff. tauto.
        -- intros (w' & I & Ea & Eb & Ba & Bb).
           apply in_app_iff in I. destruct I as [I|[<-|[]]].
           ++ right. exists w'. auto.
           ++ left. symmetry. exact Ea.
      * destruct (IH b) as [IH1 IH2]. split; [|exact IH2].
        intros B. destruct (IH1 B) as (s & G & S).
        exists s. split; [exact G|]. intros a. rewrite S. split.
        -- intros (w' & I & E). exists w'. rewrite in_app_iff. tauto.
        -- intros (w' & I & Ea & Eb & Ba & Bb).
           apply in_app_iff in I. destruct I as [I|[<-|[]]].
           ++ exists w'. auto.
           ++ congruence.
    + destruct (IH b) as [IH1 IH2]. split; [|exact IH2].
      intros B. destruct (IH1 B) as (s & G & S).
      exists s. split; [exact G|]. intros a. rewrite S. split.
      * intros (w' & I & E). exists w'. rewrite in_app_iff. tauto.
      * intros (w' & I & Ea & Eb & Ba & Bb).
        apply in_app_iff in I. destruct I as [I|[<-|[]]].
        -- exists w'. auto.
        -- unfold is_block in Bb. congruence.
    + destruct (IH b) as [IH1 IH2]. split; [|exact IH2].
      intros B. destruct (IH1 B) as (s & G & S).
      exists s. split; [exact G|]. intros a. rewrite S. split.
      * intros (w' & I & E). exists w'. rewrite in_app_iff. tauto.
      * intros (w' & I & Ea & Eb & Ba & Bb).
        apply in_app_iff in I. destruct I as [I|[<-|[]]].
        -- exists w'. auto.
        -- unfold is_block in Ba. congruence.
Qed.

(** What [visit] iterates over for a block are the blocks wired into it. *)
Lemma deps_of_edge (set_iter : list string -> list string)
  (self : FBDTranslator) :
  (forall l, Permutation l (set_iter l)) ->
  forall b a,
    In a (deps_of set_iter (build_dependencies self) b) <-> edge self a b.
Proof.
  intros P b a. unfold deps_of, build_dependencies, edge.
  destruct (dependencies_after self (wires self) b) as [H1 H2].
  destruct (is_block self b) eqn:B.
  - destruct (H1 eq_refl) as (s & G & S). rewrite G.
    rewrite <- S. split; intros I.
    + apply (Permutation_in _ (Permutation_sym (P s))). exact I.
    + apply (Permutation_in _ (P s)). exact I.
  - rewrite (H2 eq_refl). split; [intros [] |].
    intros (w & _ & _ & <- & _ & Bb). congruence.
Qed.


(** *** From the search to the wire graph *)

Lemma well_ordered_ext (R R' : string -> string -> Prop) (l : list string) :
  (forall b a, R' b a -> R b a) -> well_ordered R l -> well_ordered R' l.
Proof.
  intros H. induction 1 as [|l x W IH Hx Nx]; [constructor|].
  apply wo_snoc; auto.
Qed.

Lemma clos_trans_flip (R : string -> string -> Prop) (x y : string) :
  clos_trans string (fun b a => R a b) x y -> clos_trans string R y x.
Proof.
  induction 1 as [x y H|x y z _ IH1 _ IH2].
  - apply t_step. exact H.
  - apply t_trans with y; assumption.
Qed.

Lemma clos_refl_trans_flip (R : string -> string -> Prop) (x y : string) :
  clos_refl_trans string (fun b a => R a b) x y ->
  clos_refl_trans string R y x.
Proof.
  induction 1 as [x y H| |x y z _ IH1 _ IH2].
  - apply rt_step. exact H.
  - apply rt_refl.
  - apply rt_trans with y; assumption.
Qed.

Lemma clos_trans_ext (R R' : string -> string -> Prop) (x y : string) :
  (forall a b, R a b -> R' a b) ->
  clos_trans string R x y -> clos_trans string R' x y.
Proof.
  intros H. induction 1 as [x y S|x y z _ IH1 _ IH2].
  - apply t_step, H, S.
  - apply t_trans with y; assumption.
Qed.

Lemma clos_refl_trans_ext (R R' : string -> string -> Prop) (x y : string) :
  (forall a b, R a b -> R' a b) ->
  clos_refl_trans string R x y -> clos_refl_trans string R' x y.
Proof.
  intros H. induction 1 as [x y S| |x y z _ IH1 _ IH2].
  - apply rt_step, H, S.
  - apply rt_refl.
  - apply rt_trans with y; assumption.
Qed.

(** Two lists of the same distinct entries are equal when no two entries
    stand in one order in the first and in the other order in the second. *)
Lemma same_order_eq (k : list string) :
  forall l,
    NoDup k -> NoDup l -> (forall x, In x l <-> In x k) ->
    (forall pre X post Y l1 l2 l3,
        k = pre ++ X :: post -> l = l1 ++ Y :: l2 ++ X :: l3 ->
        In Y (pre ++ [X])) ->
    l = k.
Proof.
  induction k as [|X k IH]; intros l Nk Nl S H.
  - destruct l as [|z l]; [reflexivity|].
    exfalso. apply (S z). left. reflexivity.
  - destruct l as [|Z l].
    + exfalso. apply (S X). left. reflexivity.
    + inversion Nk as [|? ? NX Nk']; subst.
      inversion Nl as [|? ? NZ Nl']; subst.
      assert (E : Z = X).
      { destruct (String.eqb_spec Z X) as [E|N]; [exact E|].
        assert (I : In X l).
        { destruct (proj2 (S X) (or_introl eq_refl)) as [E|I];
            [congruence | exact I]. }
        apply in_split in I. destruct I as (l2 & l3 & ->).
        destruct (H [] X k Z [] l2 l3 eq_refl eq_refl) as [E|[]].
        symmetry. exact E. }
      subst Z. f_equal. apply IH; auto.
      * intros x. split; intros I.
        -- destruct (proj1 (S x) (or_intror I)) as [<-|I']; [|exact I'].
           contradiction.
        -- destruct (proj2 (S x) (or_intror I)) as [<-|I']; [|exact I'].
           contradiction.
      * intros pre X' post Y l1 l2 l3 Ek El.
        destruct (H (X :: pre) X' post Y (X :: l1) l2 l3) as [<-|I].
        -- rewrite Ek. reflexivity.
        -- rewrite El. reflexivity.
        -- exfalso. apply NZ. rewrite El. apply in_app_iff.
           right. left. reflexivity.
        -- exact I.
Qed.

(** A dictionary filled through [Dict.set] has each key once. *)
Lemma keys_set_NoDup {V} (k : string) (v : V) (d : Dict.t V) :
  NoDup (Dict.keys d) -> NoDup (Dict.keys (Dict.set k v d)).
Proof.
  intros N. rewrite keys_set. unfold Dict.add_distinct.
  destruct (existsb (String.eqb k) (Dict.keys d)) eqn:M; [exact N|].
  apply NoDup_app; [exact N | repeat constructor; simpl; tauto|].
  intros x I [E|[]]. subst x.
  change (mem k (Dict.keys d) = false) in M.
  apply mem_not_In in M. exact (M I).
Qed.

Lemma parsed_blocks_NoDup (self : FBDTranslator) (sheet : ET.Element) :
  NoDup (Dict.keys (function_blocks self)) ->
  NoDup (Dict.keys (function_blocks (parse_elements self sheet))).
Proof.
  intros N. unfold parse_elements. cbn [function_blocks _parse_wires].
  cbn [_parse_function_blocks function_blocks _parse_output_refs
       _parse_input_refs].
  generalize (ET.findall sheet "AddOnInstruction").
  generalize dependent (function_blocks self).
  intros d N l. revert d N.
  induction l as [|fb l IH]; intros d N; [exact N|].
  cbn [fold_left]. apply IH.
  destruct (ET.get fb "ID"); [|exact N].
  destruct (_ && _); [apply keys_set_NoDup|]; exact N.
Qed.

(** Every entry of the order being a function block, each has its call
    statement among the lines. *)
Lemma call_lines_map (self : FBDTranslator) :
  (forall x, In x (execution_order self) -> is_block self x = true) ->
  call_lines self = map (call_of self) (execution_order self).
Proof.
  unfold call_lines, call_of, is_block, Dict.contains.
  induction (execution_order self) as [|x l IH]; intros H; [reflexivity|].
  cbn [flat_map map]. rewrite IH by (intros y I; apply H; right; exact I).
  specialize (H x (or_introl eq_refl)).
  destruct (Dict.get x (function_blocks self)); [reflexivity|discriminate H].
Qed.


(** *** The execution order of an acyclic translator state *)

Lemma determine_ok (set_iter : list string -> list string)
  (warning_frames depth : nat) (self : FBDTranslator) :
  (forall l, Permutation l (set_iter l)) ->
  acyclic self ->
  (List.length (function_blocks self) < depth)%nat ->
  exists new,
    _determine_execution_order set_iter warning_frames depth self
    = (with_order self (execution_order self ++ new), true)
    /\ well_ordered (fun b a => edge self a b) new
    /\ (forall x, In x new <-> is_block self x = true)
    /\ (forall pre X post Y l1 l2 l3,
          Dict.keys (function_blocks self) = pre ++ X :: post ->
          new = l1 ++ Y :: l2 ++ X :: l3 ->
          exists p, In p (pre ++ [X]) /\ feeds self Y p).
Proof.
  intros P A Hfuel.
  pose proof (deps_of_edge set_iter self P) as Hd.
  assert (B : forall b a,
             In a (deps_of set_iter (build_dependencies self) b) ->
             In a (Dict.keys (function_blocks self))).
  { intros b a I. apply Hd in I. destruct I as (w & _ & _ & _ & Ba & _).
    apply contains_In. exact Ba. }
  assert (C : forall x,
             ~ clos_trans string
                 (fun b a =>
                    In a (deps_of set_iter (build_dependencies self) b)) x x).
  { intros x T. apply (A x). apply clos_trans_flip.
    apply (clos_trans_ext _ _ _ _ (fun a b H => proj1 (Hd a b) H) T). }
  assert (L : (List.length (Dict.keys (function_blocks self)) < depth)%nat).
  { unfold Dict.keys. rewrite length_map. exact Hfuel. }
  destruct (visit_all_order set_iter warning_frames self (build_dependencies self)
              (execution_order self) B C depth L)
    as (s' & new & E & O & W & S).
  exists new. unfold _determine_execution_order. rewrite E, O. splits.
  - reflexivity.
  - apply (well_ordered_ext _ _ _ (fun b a H => proj2 (Hd b a) H) W).
  - intros x. rewrite S. symmetry. apply contains_In.
  - intros pre X post Y l1 l2 l3 Ek En.
    destruct (visit_all_ties set_iter warning_frames self (build_dependencies self)
                (execution_order self) B C depth pre post X L Ek)
      as (s2 & new2 & E2 & O2 & T2).
    rewrite E in E2. injection E2 as <-.
    rewrite O in O2. apply app_inv_head in O2. subst new2.
    destruct (T2 Y l1 l2 l3 En) as (p & Ip & Rp).
    exists p. split; [exact Ip|].
    apply clos_refl_trans_flip.
    apply (clos_refl_trans_ext _ _ _ _ (fun a b H => proj1 (Hd a b) H) Rp).
Qed.




(** *** Two sheets *)

(** A graph whose wires all lead to a block of higher rank has no cycle. *)
Lemma acyclic_by_rank (self : FBDTranslator) (rank : string -> nat) :
  (forall a b, edge self a b -> (rank a < rank b)%nat) -> acyclic self.
Proof.
  intros H x T.
  assert (L : forall a b, clos_trans string (edge self) a b ->
                          (rank a < rank b)%nat).
  { induction 1 as [a b E|a b c _ IH1 _ IH2]; [auto | lia]. }
  specialize (L x x T). lia.
Qed.

Import Scenario.

Lemma chain_sheet_edges (a b : string) :
  edge (parse_elements cleared chain_sheet) a b -> a = "1" /\ b = "2".
Proof.
  intros (w & I & Ea & Eb & Ba & Bb). vm_compute in I.
  destruct I as [<-|[<-|[<-|[]]]]; subst a b;
    vm_compute in Ba, Bb; try discriminate Ba; try discriminate Bb.
  split; reflexivity.
Qed.

Lemma chain_sheet_acyclic : acyclic (parse_elements cleared chain_sheet).
Proof.
  apply (acyclic_by_rank _ chain_rank). intros a b E.
  apply chain_sheet_edges in E. destruct E as [-> ->].
  vm_compute. lia.
Qed.


(** Scenario 3: the call of A, the call of B, the assignment to O1. *)
Example chain_sheet_text :
  translate_fbd_to_st (fun x => x) "" 12 1000
    (ET.mkElement "Routine" [] "" [chain_sheet])
  = ("// Sheet 1" ++ nl ++ "A(in := I1);" ++ nl ++ "B(in := A.out);" ++ nl
     ++ "O1 := B.out;")%string.
Proof. vm_compute. reflexivity. Qed.


Lemma tie_sheet_edges (a b : string) :
  edge (parse_elements cleared tie_sheet) a b -> a = "Y" /\ b = "Z".
Proof.
  intros (w & I & Ea & Eb & _). vm_compute in I.
  destruct I as [<-|[]]. subst a b. split; reflexivity.
Qed.

Lemma tie_sheet_order (set_iter : list string -> list string)
  (warning_frames : nat) :
  (forall l, Permutation l (set_iter l)) ->
  execution_order
    (fst (read_sheet set_iter warning_frames 3 cleared tie_sheet))
  = ["Y"; "Z"; "X"].
Proof.
  intros P.
  assert (E0 : set_iter [] = []).
  { apply Permutation_nil. apply P. }
  assert (E1 : set_iter ["Y"] = ["Y"]).
  { apply Permutation_length_1_inv. apply P. }
  vm_compute. rewrite !E1. vm_compute. rewrite !E0. vm_compute.
  rewrite ?E0. reflexivity.
Qed.


End FbdFacts.

(** ** Rungs of conditions in series before one OTE *)

Module SeriesFacts.
Import PyStr Ladder Scenario StrFacts.

(** The conditions of a sequence are kept until an instruction comes. *)
Lemma fold_conditions (fs : list LLFunc) :
  forall (s t : string) (c : list LLFunc),
    Forall (fun f => conditional f = true) fs ->
    fold_left emit_instruction fs (mkEmit s t c) = mkEmit s t (c ++ fs).
Proof.
  induction fs as [|f fs IH]; intros s t c H.
  - rewrite List.app_nil_r. reflexivity.
  - inversion H as [|? ? Hf H']; subst. cbn [fold_left].
    unfold emit_instruction at 2. cbn [out current_tab conditional_func_list].
    rewrite Hf, (IH _ _ _ H'), <- List.app_assoc. reflexivity.
Qed.

(** The loop of an inner guard joins the conditions with AND. *)
Lemma guard_conditions_join (cfl : list LLFunc) :
  forall (s : string) (i n : nat),
    n = (i + List.length cfl)%nat ->
    guard_conditions n cfl s i = s ++ join " AND " (map guard_text cfl).
Proof.
  induction cfl as [|cf rest IH]; intros s i n E.
  - cbn. rewrite app_nil_r. reflexivity.
  - cbn [guard_conditions].
    assert (T : (match Dict.get (fname cf) CONDITIONAL_FUNCTIONS_IMPL with
                 | Some impl => s ++ impl (params cf)
                 | None => s ++ "// Unknown conditional function: " ++ fname cf
                 end) = s ++ guard_text cf).
    { unfold guard_text. destruct (Dict.get _ _); reflexivity. }
    rewrite T. cbn [List.length] in E.
    destruct rest as [|cf' rest'].
    + replace (S i <? n)%nat with false
        by (symmetry; apply Nat.ltb_ge; simpl in E; lia).
      cbn. reflexivity.
    + replace (S i <? n)%nat with true
        by (symmetry; apply Nat.ltb_lt; simpl in E; lia).
      rewrite (IH _ (S i) n) by (simpl in *; lia).
      cbn [map join]. rewrite !app_assoc. reflexivity.
Qed.

(** A condition mnemonic has its entry in the table of translations. *)
Lemma condition_guard_text (c : string * list string) :
  Dict.contains (fst c) CONDITIONAL_FUNCTIONS = true ->
  guard_text (mkLLFunc (fst c) (snd c) true) = condition_st c.
Proof.
  unfold guard_text, condition_st, Dict.contains. cbn [fname params].
  cbn [Dict.get CONDITIONAL_FUNCTIONS CONDITIONAL_FUNCTIONS_IMPL].
  repeat (destruct (String.eqb (fst c) _); [reflexivity|]).
  discriminate.
Qed.


Lemma series_conditions (conds : list (string * list string)) :
  Forall (fun f => conditional f = true)
         (map (fun c => mkLLFunc (fst c) (snd c) true) conds).
Proof. induction conds; constructor; auto. Qed.

Lemma guard_texts (conds : list (string * list string)) :
  Forall (fun c => Dict.contains (fst c) CONDITIONAL_FUNCTIONS = true) conds ->
  map guard_text (map (fun c => mkLLFunc (fst c) (snd c) true) conds)
  = map condition_st conds.
Proof.
  induction 1 as [|c conds Hc _ IH]; [reflexivity|].
  cbn [map]. rewrite IH, (condition_guard_text c Hc). reflexivity.
Qed.

(** The instruction objects of a series rung give the guarded OTE. *)
Lemma emit_series (conds : list (string * list string)) (y : string) :
  conds <> [] ->
  Forall (fun c => Dict.contains (fst c) CONDITIONAL_FUNCTIONS = true) conds ->
  process_instruction_list [[series_funcs conds y]] "" = guarded_ote conds y.
Proof.
  intros N H.
  unfold process_instruction_list. cbn [List.length].
  change (1 <? 1)%nat with false. change (0 <? 1)%nat with true. cbv iota.
  cbn [nth fold_left]. unfold emit_sequence, series_funcs.
  cbn [out current_tab]. rewrite fold_left_app.
  rewrite (fold_conditions _ _ _ _ (series_conditions conds)).
  cbn [fold_left app]. unfold emit_instruction.
  cbn [out current_tab conditional_func_list conditional fname params].
  set (cfl := map (fun c => mkLLFunc (fst c) (snd c) true) conds).
  assert (Ncfl : is_nil cfl = false).
  { unfold cfl. destruct conds; [contradiction | reflexivity]. }
  rewrite Ncfl. cbn [negb andb].
  rewrite (guard_conditions_join cfl _ 0 (List.length cfl) eq_refl).
  unfold cfl. rewrite (guard_texts conds H).
  change (Dict.get "OTE" REGULAR_FUNCTIONS_IMPL) with (Some ote).
  change (String.eqb "OTE" "OTE") with true. cbv iota.
  cbn [out]. unfold guarded_ote, ote, p0, arity.
  cbn [List.length Nat.eqb nth].
  change (remove_first (chr 9) ("" ++ tab)) with "".
  change ("" ++ tab) with tab.
  rewrite !app_assoc. reflexivity.
Qed.

Lemma emit_lone_ote (y : string) :
  process_instruction_list [[series_funcs [] y]] "" = y ++ " := 1;" ++ nl.
Proof.
  unfold process_instruction_list, series_funcs. cbn [List.length map app].
  change (1 <? 1)%nat with false. change (0 <? 1)%nat with true. cbv iota.
  cbn [nth fold_left]. unfold emit_sequence. cbn [fold_left out current_tab].
  unfold emit_instruction.
  cbn [out current_tab conditional_func_list conditional fname params is_nil
       negb andb].
  change (Dict.get "OTE" REGULAR_FUNCTIONS_IMPL) with (Some ote).
  cbv iota. unfold ote, p0, arity. cbn. rewrite !app_assoc. reflexivity.
Qed.


(** *** The formatting loop on a rung of calls *)

Lemma calls_text_cons (c : string * list string)
  (rest : list (string * list string)) :
  calls_text (c :: rest)
  = fst c ++ String "(" (join "," (snd c) ++ String ")" (calls_text rest)).
Proof.
  cbn [calls_text]. unfold call_text. rewrite !app_assoc. cbn.
  rewrite ?app_assoc. reflexivity.
Qed.

(** One pass of the loop, from the end of a call (or the start of the text)
    over the next call: the text is unchanged, [start] moves to the closing
    parenthesis and [offset] to the next opening parenthesis, if any. *)
Lemma format_step_call (A seg a rest : string) :
  lacks "(" seg = true -> lacks "," seg = true ->
  lacks "[" seg = true -> lacks "]" seg = true ->
  lacks ")" a = true ->
  format_step (A ++ seg ++ String "(" (a ++ String ")" rest))
              (len A) (len A + len seg)
  = (A ++ seg ++ String "(" (a ++ String ")" rest),
     (len A + len seg + 1 + len a)%Z,
     if (find_char "(" (String ")" rest) =? -1)%Z then (-1)%Z
     else (find_char "(" (String ")" rest)
           + (len A + len seg + 1 + len a))%Z).
Proof.
  intros L1 L2 L3 L4 La.
  set (X := String "(" (a ++ String ")" rest)).
  unfold format_step.
  rewrite (slice_to_seam A (seg ++ X)).
  rewrite (slice_seams A seg X).
  assert (E1 : slice_from (A ++ seg ++ X) (len A + len seg) = X).
  { rewrite <- len_app, <- app_assoc. apply slice_from_seam. }
  rewrite E1.
  rewrite (replace_char_lacks "," ";" seg L2).
  rewrite (replace_char_lacks "[" "<" seg L3).
  rewrite (replace_char_lacks "]" ">" seg L4).
  rewrite E1.
  assert (E2 : find_char ")" X = (1 + len a)%Z).
  { unfold X. change (String "(" (a ++ String ")" rest))
      with (String "(" a ++ String ")" rest).
    rewrite find_char_app by exact La.
    unfold len. cbn [String.length]. lia. }
  rewrite E2.
  assert (E3 : slice_from (A ++ seg ++ X) (1 + len a + (len A + len seg))
               = String ")" rest).
  { replace (A ++ seg ++ X) with ((A ++ seg ++ String "(" a) ++ String ")" rest).
    - replace (1 + len a + (len A + len seg))%Z
        with (len (A ++ seg ++ String "(" a)).
      + apply slice_from_seam.
      + rewrite !len_app. unfold len. cbn [String.length]. lia.
    - unfold X. rewrite !app_assoc. reflexivity. }
  rewrite E3.
  replace (1 + len a + (len A + len seg))%Z
    with (len A + len seg + 1 + len a)%Z by lia.
  destruct (Z.eqb_spec (find_char "(" (String ")" rest)) (-1)) as [E|_];
    [rewrite E|]; reflexivity.
Qed.

Lemma format_loop_step (fuel : nat) (formatted : string) (start offset : Z) :
  offset <> (-1)%Z ->
  format_loop (S fuel) formatted start offset
  = let '(f, s, o) := format_step formatted start offset in
    format_loop fuel f s o.
Proof.
  intros H. cbn [format_loop].
  destruct (Z.eqb_spec offset (-1)); [contradiction | reflexivity].
Qed.

Lemma format_loop_done (fuel : nat) (formatted : string) (start : Z) :
  format_loop fuel formatted start (-1) = Some (formatted, start).
Proof. destruct fuel; reflexivity. Qed.

Lemma format_loop_calls (more : list (string * list string)) :
  forall (A seg a : string) (fuel : nat),
    lacks "(" seg = true -> lacks "," seg = true ->
    lacks "[" seg = true -> lacks "]" seg = true ->
    lacks ")" a = true ->
    Forall loop_call more ->
    (List.length more < fuel)%nat ->
    exists st,
      format_loop fuel
        (A ++ seg ++ String "(" (a ++ String ")" (calls_text more)))
        (len A) (len A + len seg)
      = Some (A ++ seg ++ String "(" (a ++ String ")" (calls_text more)), st).
Proof.
  induction more as [|c more IH]; intros A seg a fuel L1 L2 L3 L4 La F Hf.
  - destruct fuel as [|fuel]; [simpl in Hf; lia|].
    rewrite format_loop_step
      by (pose proof (len_nonneg A); pose proof (len_nonneg seg); lia).
    rewrite (format_step_call A seg a _ L1 L2 L3 L4 La).
    cbn [calls_text find_char].
    change (Ascii.eqb ")" "(") with false. cbv iota. cbn.
    eexists. apply format_loop_done.
  - destruct fuel as [|fuel]; [simpl in Hf; lia|].
    inversion F as [|? ? (C1 & C2 & C3 & C4 & Ca) F']; subst.
    rewrite format_loop_step
      by (pose proof (len_nonneg A); pose proof (len_nonneg seg); lia).
    rewrite (format_step_call A seg a _ L1 L2 L3 L4 La).
    rewrite calls_text_cons.
    set (n := fst c) in *. set (a2 := join "," (snd c)) in *.
    assert (Ef : find_char "(" (String ")" (n ++ String "(" (a2 ++ String ")" (calls_text more))))
                 = (1 + len n)%Z).
    { change (String ")" (n ++ String "(" (a2 ++ String ")" (calls_text more))))
        with (String ")" n ++ String "(" (a2 ++ String ")" (calls_text more))).
      rewrite find_char_app by (cbn; exact C1).
      unfold len. cbn [String.length]. lia. }
    rewrite Ef.
    destruct (Z.eqb_spec (1 + len n) (-1)) as [E|_];
      [pose proof (len_nonneg n); lia|].
    cbv iota beta.
    destruct (IH (A ++ seg ++ String "(" a) (String ")" n) a2 fuel)
      as (st & E); try (cbn; assumption).
    + simpl in Hf. lia.
    + exists st.
      replace (A ++ seg ++ String "(" (a ++ String ")" (n ++ String "(" (a2 ++ String ")" (calls_text more)))))
        with ((A ++ seg ++ String "(" a) ++ String ")" n
              ++ String "(" (a2 ++ String ")" (calls_text more)))
        by (rewrite !app_assoc; cbn; rewrite ?app_assoc; reflexivity).
      replace (len A + len seg + 1 + len a)%Z
        with (len (A ++ seg ++ String "(" a))
        by (rewrite !len_app; unfold len; cbn [String.length]; lia).
      replace (1 + len n + len (A ++ seg ++ String "(" a))%Z
        with (len (A ++ seg ++ String "(" a) + len (String ")" n))%Z
        by (unfold len; cbn [String.length]; lia).
      exact E.
Qed.


(** *** Plain text *)

Lemma plain_lacks (c : ascii) (s : string) :
  plain_char c = false -> all_plain s = true -> lacks c s = true.
Proof.
  intros Hc. induction s as [|a s IH]; [reflexivity|].
  cbn [all_plain lacks]. intros H. apply andb_true_iff in H.
  destruct H as [Ha Hs]. rewrite (IH Hs), andb_true_r.
  destruct (Ascii.eqb_spec a c) as [->|_]; [congruence | reflexivity].
Qed.

Lemma plain_all (s : string) : plain s = true -> all_plain s = true.
Proof. unfold plain. intros H. apply andb_true_iff in H. apply H. Qed.

Lemma plain_no_space (s : string) : all_plain s = true -> no_space s = true.
Proof.
  induction s as [|a s IH]; [reflexivity|].
  cbn [all_plain no_space]. intros H. apply andb_true_iff in H.
  destruct H as [Ha Hs]. rewrite (IH Hs), andb_true_r.
  unfold plain_char in Ha. apply negb_true_iff, orb_false_iff in Ha.
  destruct Ha as [Ha _]. rewrite Ha. reflexivity.
Qed.

Lemma join_lacks (c : ascii) (ps : list string) :
  Ascii.eqb "," c = false ->
  forallb (lacks c) ps = true -> lacks c (join "," ps) = true.
Proof.
  intros Hc. induction ps as [|p ps IH]; [reflexivity|].
  cbn [forallb]. intros H. apply andb_true_iff in H. destruct H as [Hp Hps].
  destruct ps as [|q ps]; [exact Hp|].
  change (join "," (p :: q :: ps)) with (p ++ String "," (join "," (q :: ps))).
  rewrite lacks_app, Hp. cbn [lacks andb]. rewrite Hc, (IH Hps). reflexivity.
Qed.

Lemma forallb_plain_lacks (c : ascii) (ps : list string) :
  plain_char c = false ->
  forallb plain ps = true -> forallb (lacks c) ps = true.
Proof.
  intros Hc H. rewrite forallb_forall in *. intros p Hp.
  apply plain_lacks; [exact Hc | apply plain_all, H, Hp].
Qed.

Section GoodCall.

Variable c : string * list string.
Hypothesis good : good_call c = true.

Lemma good_parts :
  plain (fst c) = true /\ snd c <> [] /\ forallb plain (snd c) = true.
Proof.
  unfold good_call in good.
  apply andb_true_iff in good. destruct good as [H Hps].
  apply andb_true_iff in H. destruct H as [Hn Hnil].
  splits; auto. intros E. rewrite E in Hnil. discriminate Hnil.
Qed.

Lemma good_name_lacks (x : ascii) :
  plain_char x = false -> lacks x (fst c) = true.
Proof.
  intros Hx. destruct good_parts as (Hn & _).
  apply plain_lacks; [exact Hx | apply plain_all, Hn].
Qed.

Lemma good_args_lacks (x : ascii) :
  plain_char x = false -> Ascii.eqb "," x = false ->
  lacks x (join "," (snd c)) = true.
Proof.
  intros Hx Hc. destruct good_parts as (_ & _ & Hps).
  apply join_lacks; [exact Hc | apply forallb_plain_lacks; assumption].
Qed.

Lemma good_loop_call : loop_call c.
Proof.
  unfold loop_call. splits; try (apply good_name_lacks; reflexivity).
  apply good_args_lacks; reflexivity.
Qed.

Lemma good_call_text_lacks (x : ascii) :
  plain_char x = false -> Ascii.eqb "," x = false ->
  Ascii.eqb "(" x = false -> Ascii.eqb ")" x = false ->
  lacks x (call_text c) = true.
Proof.
  intros Hx H1 H2 H3. unfold call_text.
  rewrite !lacks_app, (good_name_lacks x Hx), (good_args_lacks x Hx H1).
  cbn [lacks]. rewrite H2, H3. reflexivity.
Qed.

End GoodCall.

Lemma calls_text_lacks (x : ascii) (calls : list (string * list string)) :
  plain_char x = false -> Ascii.eqb "," x = false ->
  Ascii.eqb "(" x = false -> Ascii.eqb ")" x = false ->
  forallb good_call calls = true ->
  lacks x (calls_text calls) = true.
Proof.
  intros Hx H1 H2 H3. induction calls as [|c calls IH]; [reflexivity|].
  cbn [forallb calls_text]. intros H. apply andb_true_iff in H.
  destruct H as [Hc Hcs].
  rewrite lacks_app, (good_call_text_lacks c Hc x Hx H1 H2 H3), (IH Hcs).
  reflexivity.
Qed.

Lemma good_loop_calls (calls : list (string * list string)) :
  forallb good_call calls = true -> Forall loop_call calls.
Proof.
  intros H. apply Forall_forall. intros c Hc.
  apply good_loop_call. exact (proj1 (forallb_forall _ _) H c Hc).
Qed.

(** The formatting step leaves a rung of good calls as it is. *)
Lemma format_series (c : string * list string)
  (more : list (string * list string)) (fuel : nat) :
  forallb good_call (c :: more) = true ->
  (List.length more < fuel)%nat ->
  format_rung_text fuel (calls_text (c :: more)) = Some (calls_text (c :: more)).
Proof.
  intros G Hf.
  assert (Lsp : lacks " " (calls_text (c :: more)) = true)
    by (apply calls_text_lacks; auto).
  assert (Lbr : lacks "]" (calls_text (c :: more)) = true)
    by (apply calls_text_lacks; auto).
  pose proof G as G'. cbn [forallb] in G'. apply andb_true_iff in G'.
  destruct G' as [Gc Gm].
  destruct (good_loop_call c Gc) as (C1 & C2 & C3 & C4 & Ca).
  unfold format_rung_text. rewrite (remove_char_lacks _ _ Lsp).
  rewrite calls_text_cons in *.
  rewrite (find_char_app "(" (fst c) _ C1).
  destruct (format_loop_calls more "" (fst c) (join "," (snd c)) fuel
              C1 C2 C3 C4 Ca (good_loop_calls more Gm) Hf) as (st & E).
  cbn [String.append] in E. change (len "") with 0%Z in E.
  cbn [Z.add] in E. rewrite E.
  destruct (st =? -1)%Z; [reflexivity|].
  unfold slice_to, slice_from.
  rewrite replace_char_lacks by (apply lacks_drop; exact Lbr).
  rewrite take_drop. reflexivity.
Qed.


(** *** The instruction objects of a rung of calls *)

Lemma plain_nonempty (s : string) : plain s = true -> String.eqb s "" = false.
Proof.
  unfold plain. intros H. apply andb_true_iff in H. destruct H as [H _].
  apply negb_true_iff in H. exact H.
Qed.

Lemma join_nonempty (ps : list string) :
  ps <> [] -> forallb plain ps = true -> String.eqb (join "," ps) "" = false.
Proof.
  destruct ps as [|p ps]; [congruence|]. intros _ H.
  cbn [forallb] in H. apply andb_true_iff in H. destruct H as [Hp _].
  apply plain_nonempty in Hp.
  destruct p as [|x p]; [discriminate Hp|].
  destruct ps; reflexivity.
Qed.

Lemma join_no_space (ps : list string) :
  forallb plain ps = true -> no_space (join "," ps) = true.
Proof.
  induction ps as [|p ps IH]; [reflexivity|].
  cbn [forallb]. intros H. apply andb_true_iff in H. destruct H as [Hp Hps].
  apply plain_all, plain_no_space in Hp.
  destruct ps as [|q ps]; [exact Hp|].
  change (join "," (p :: q :: ps)) with (p ++ String "," (join "," (q :: ps))).
  rewrite no_space_app, Hp. cbn [no_space]. rewrite (IH Hps). reflexivity.
Qed.

Lemma strip_operands (ps : list string) :
  forallb plain ps = true ->
  map strip (filter (fun p => negb (String.eqb (strip p) "")) ps) = ps.
Proof.
  induction ps as [|p ps IH]; [reflexivity|].
  cbn [forallb]. intros H. apply andb_true_iff in H. destruct H as [Hp Hps].
  cbn [filter].
  rewrite (strip_no_space p (plain_no_space p (plain_all p Hp))).
  rewrite (plain_nonempty p Hp). cbn [negb map].
  rewrite (strip_no_space p (plain_no_space p (plain_all p Hp))).
  rewrite (IH Hps). reflexivity.
Qed.

Lemma LLFunc_init_good (c : string * list string) :
  good_call c = true ->
  LLFunc_init (fst c) (join "," (snd c)) = call_func c.
Proof.
  intros G. destruct (good_parts c G) as (Hn & Hne & Hps).
  unfold LLFunc_init, call_func.
  rewrite (join_nonempty _ Hne Hps).
  rewrite (split_join (snd c) Hne
             (forallb_plain_lacks "," (snd c) eq_refl Hps)).
  rewrite (strip_operands _ Hps). reflexivity.
Qed.

Lemma spaced_calls (calls : list (string * list string)) :
  forallb good_call calls = true ->
  replace_char ")" " " (replace_char "(" " " (calls_text calls))
  = spaced_text calls.
Proof.
  induction calls as [|c calls IH]; [reflexivity|].
  cbn [forallb]. intros H. apply andb_true_iff in H. destruct H as [Hc Hcs].
  rewrite calls_text_cons. cbn [spaced_text].
  rewrite !replace_char_app. cbn [replace_char].
  change (Ascii.eqb "(" "(") with true. change (Ascii.eqb ")" "(") with false.
  cbv iota. rewrite !replace_char_app. cbn [replace_char].
  change (Ascii.eqb " " ")") with false. change (Ascii.eqb ")" ")") with true.
  cbv iota.
  rewrite (replace_char_lacks "(" " " (fst c))
    by (apply good_name_lacks; auto).
  rewrite (replace_char_lacks ")" " " (fst c))
    by (apply good_name_lacks; auto).
  rewrite (replace_char_lacks "(" " " (join "," (snd c)))
    by (apply good_args_lacks; auto).
  rewrite (replace_char_lacks ")" " " (join "," (snd c)))
    by (apply good_args_lacks; auto).
  rewrite (IH Hcs). reflexivity.
Qed.

Lemma tokens_of_calls (calls : list (string * list string)) :
  forallb good_call calls = true ->
  split_ws (spaced_text calls) = call_tokens calls.
Proof.
  unfold split_ws. induction calls as [|c calls IH]; [reflexivity|].
  cbn [forallb]. intros H. apply andb_true_iff in H. destruct H as [Hc Hcs].
  destruct (good_parts c Hc) as (Hn & Hne & Hps).
  cbn [spaced_text call_tokens].
  rewrite split_ws_token;
    [|apply plain_no_space, plain_all, Hn | exact (plain_nonempty _ Hn)].
  rewrite split_ws_token;
    [|apply join_no_space, Hps | exact (join_nonempty _ Hne Hps)].
  rewrite (IH Hcs). reflexivity.
Qed.

Lemma token_pairs_calls (calls : list (string * list string)) :
  forallb good_call calls = true ->
  token_pairs (call_tokens calls) = map call_func calls.
Proof.
  induction calls as [|c calls IH]; [reflexivity|].
  cbn [forallb]. intros H. apply andb_true_iff in H. destruct H as [Hc Hcs].
  cbn [call_tokens token_pairs map]. unfold process_function.
  rewrite (remove_char_lacks "," (fst c)) by (apply good_name_lacks; auto).
  rewrite (remove_char_lacks " " (fst c)) by (apply good_name_lacks; auto).
  rewrite (LLFunc_init_good c Hc), (IH Hcs). reflexivity.
Qed.

Lemma sequence_of_calls (calls : list (string * list string)) :
  forallb good_call calls = true ->
  process_sequential_function_calls (calls_text calls) = map call_func calls.
Proof.
  intros G. unfold process_sequential_function_calls.
  rewrite (remove_char_lacks " " (calls_text calls))
    by (apply calls_text_lacks; auto).
  rewrite (spaced_calls calls G), (tokens_of_calls calls G).
  destruct calls as [|c calls]; [reflexivity|].
  cbn [call_tokens]. apply (token_pairs_calls (c :: calls) G).
Qed.

Lemma instructions_of_calls (c : string * list string)
  (more : list (string * list string)) :
  forallb good_call (c :: more) = true ->
  process_rung_instructions (calls_text (c :: more))
  = [[map call_func (c :: more)]].
Proof.
  intros G. unfold process_rung_instructions.
  rewrite (remove_char_lacks " " (calls_text (c :: more)))
    by (apply calls_text_lacks; auto).
  rewrite (replace_char_lacks "<" " " (calls_text (c :: more)))
    by (apply calls_text_lacks; auto).
  rewrite (replace_char_lacks ">" " " (calls_text (c :: more)))
    by (apply calls_text_lacks; auto).
  rewrite (split_char_lacks " " (calls_text (c :: more)))
    by (apply calls_text_lacks; auto).
  cbn [map].
  rewrite (split_char_lacks ";" (calls_text (c :: more)))
    by (apply calls_text_lacks; auto).
  cbn [map]. rewrite (sequence_of_calls (c :: more) G). reflexivity.
Qed.


(** *** Series rungs, end to end *)

Lemma condition_name_plain (n : string) :
  Dict.contains n CONDITIONAL_FUNCTIONS = true -> plain n = true.
Proof.
  unfold Dict.contains. cbn [Dict.get CONDITIONAL_FUNCTIONS].
  repeat match goal with
         | |- context [String.eqb n ?k] =>
             destruct (String.eqb_spec n k) as [->|_];
             [intros _; vm_compute; reflexivity|]
         end.
  intros H. discriminate H.
Qed.

Lemma condition_parts (c : string * list string) :
  condition_call c = true ->
  Dict.contains (fst c) CONDITIONAL_FUNCTIONS = true /\ good_call c = true.
Proof.
  unfold condition_call, good_call. intros H.
  apply andb_true_iff in H. destruct H as [H Hps].
  apply andb_true_iff in H. destruct H as [Hn Hnil].
  split; [exact Hn|].
  rewrite (condition_name_plain _ Hn), Hnil, Hps. reflexivity.
Qed.

Lemma conditions_good (conds : list (string * list string)) (y : string) :
  forallb condition_call conds = true -> plain y = true ->
  forallb good_call (conds ++ [("OTE", [y])]) = true.
Proof.
  intros H Hy. rewrite forallb_app. apply andb_true_iff. split.
  - rewrite forallb_forall in *. intros c Hc.
    exact (proj2 (condition_parts c (H c Hc))).
  - cbn [forallb]. unfold good_call. cbn [fst snd forallb is_nil negb].
    rewrite Hy. reflexivity.
Qed.

Lemma conditions_contained (conds : list (string * list string)) :
  forallb condition_call conds = true ->
  Forall (fun c => Dict.contains (fst c) CONDITIONAL_FUNCTIONS = true) conds.
Proof.
  intros H. rewrite forallb_forall in H. apply Forall_forall. intros c Hc.
  exact (proj1 (condition_parts c (H c Hc))).
Qed.

Lemma series_call_funcs (conds : list (string * list string)) (y : string) :
  Forall (fun c => Dict.contains (fst c) CONDITIONAL_FUNCTIONS = true) conds ->
  map call_func (conds ++ [("OTE", [y])]) = series_funcs conds y.
Proof.
  intros H. unfold series_funcs. rewrite map_app. f_equal.
  induction H as [|c conds Hc _ IH]; [reflexivity|].
  cbn [map]. rewrite IH. unfold call_func at 1. rewrite Hc. reflexivity.
Qed.




(** The text of that translation. *)
Example series_rung_text :
  guarded_ote [("XIC", ["a"]); ("EQU", ["b"; "3"])] "y"
  = "IF (((a = 1)) AND (b = 3)) THEN" ++ nl
    ++ tab ++ "y := 1;" ++ nl
    ++ "ELSE" ++ nl
    ++ tab ++ "y := 0;" ++ nl
    ++ "END_IF;" ++ nl.
Proof. vm_compute. reflexivity. Qed.

End SeriesFacts.

(* ================================================================== *)
(** ** More on strings *)
(* ================================================================== *)

Module StrMore.
Import PyStr Rungs StrFacts.

Lemma lacks_remove_char (c : ascii) (s : string) :
  lacks c (remove_char c s) = true.
Proof.
  induction s as [|x s IH]; [reflexivity|]. cbn [remove_char].
  destruct (Ascii.eqb x c) eqn:E; [exact IH|].
  cbn [lacks]. rewrite E, IH. reflexivity.
Qed.

Lemma lacks_remove_other (c d : ascii) (s : string) :
  lacks c s = true -> lacks c (remove_char d s) = true.
Proof.
  induction s as [|x s IH]; [reflexivity|]. cbn [lacks remove_char].
  intros H. apply andb_true_iff in H. destruct H as [H1 H2].
  destruct (Ascii.eqb x d); [exact (IH H2)|].
  cbn [lacks]. rewrite H1, (IH H2). reflexivity.
Qed.

Lemma len_replace_char (c d : ascii) (s : string) :
  len (replace_char c d s) = len s.
Proof.
  unfold len. f_equal.
  induction s as [|x s IH]; [reflexivity|]. cbn. rewrite IH. reflexivity.
Qed.

(** A word without white space is one field of [split()]. *)
Lemma split_ws_word (t : string) :
  forall cur,
    no_space t = true -> String.eqb (cur ++ t) "" = false ->
    split_ws_aux cur t = [cur ++ t].
Proof.
  induction t as [|x t IH]; intros cur Ht Hne.
  - cbn [split_ws_aux]. rewrite app_nil_r in *. rewrite Hne. reflexivity.
  - cbn [no_space] in Ht. apply andb_true_iff in Ht. destruct Ht as [Hx Ht].
    apply negb_true_iff in Hx. cbn [split_ws_aux]. rewrite Hx.
    rewrite (IH (cur ++ String x "") Ht).
    + rewrite app_assoc. reflexivity.
    + rewrite app_assoc. exact Hne.
Qed.

(** White space alone has no field. *)
Lemma split_ws_blank (s : string) :
  all_space s = true -> split_ws s = [].
Proof.
  unfold split_ws. induction s as [|x s IH]; [reflexivity|].
  cbn [all_space split_ws_aux]. intros H. apply andb_true_iff in H.
  destruct H as [Hx Hs]. rewrite Hx. cbn. exact (IH Hs).
Qed.

Lemma all_space_lacks (c : ascii) (s : string) :
  is_space c = false -> all_space s = true -> lacks c s = true.
Proof.
  intros Hc. induction s as [|x s IH]; [reflexivity|].
  cbn [all_space lacks]. intros H. apply andb_true_iff in H.
  destruct H as [Hx Hs]. rewrite (IH Hs), andb_true_r.
  destruct (Ascii.eqb_spec x c) as [->|_]; [congruence | reflexivity].
Qed.

Lemma all_space_remove (c : ascii) (s : string) :
  all_space s = true -> all_space (remove_char c s) = true.
Proof.
  induction s as [|x s IH]; [reflexivity|].
  cbn [all_space remove_char]. intros H. apply andb_true_iff in H.
  destruct H as [Hx Hs].
  destruct (Ascii.eqb x c); [exact (IH Hs)|].
  cbn [all_space]. rewrite Hx, (IH Hs). reflexivity.
Qed.

(** [sep.join(ps).split(sep)] gives the parts back when no part holds the
    separator. *)
Lemma split_join_char (c : ascii) (ps : list string) :
  ps <> [] -> forallb (lacks c) ps = true ->
  split_char c (join (String c "") ps) = ps.
Proof.
  induction ps as [|p ps IH]; [congruence|]. intros _ H.
  cbn [forallb] in H. apply andb_true_iff in H. destruct H as [Hp Hps].
  destruct ps as [|q ps].
  - cbn [join]. apply split_char_lacks. exact Hp.
  - change (join (String c "") (p :: q :: ps))
      with (p ++ String c "" ++ join (String c "") (q :: ps)).
    cbn [String.append].
    rewrite (split_char_app c p _ Hp).
    rewrite IH; [reflexivity | discriminate | exact Hps].
Qed.

End StrMore.

(* ================================================================== *)
(** ** More on the ladder translator *)
(* ================================================================== *)

Module RungFacts.
Import PyStr Ladder Scenario Rungs StrFacts StrMore SeriesFacts.

(** A rung of good calls reaches the emitter as one sequence of
    instruction objects. *)
Lemma translate_calls (c : string * list string)
  (more : list (string * list string)) (fuel : nat) :
  forallb good_call (c :: more) = true ->
  (List.length more < fuel)%nat ->
  translate_ladder_to_st fuel (calls_text (c :: more))
  = Some (process_instruction_list [[map call_func (c :: more)]] "").
Proof.
  intros G Hf. unfold translate_ladder_to_st, process_rung.
  rewrite (format_series c more fuel G Hf).
  rewrite (instructions_of_calls c more G). reflexivity.
Qed.

Lemma emit_one_sequence (fs : list LLFunc) :
  process_instruction_list [[fs]] ""
  = out (fold_left emit_instruction fs (mkEmit "" "" [])).
Proof.
  unfold process_instruction_list. cbn [List.length].
  change (1 <? 1)%nat with false. change (0 <? 1)%nat with true. cbv iota.
  cbn [nth fold_left]. unfold emit_sequence. reflexivity.
Qed.

Lemma condition_funcs (conds : list (string * list string)) :
  forallb condition_call conds = true ->
  Forall (fun f => conditional f = true) (map call_func conds).
Proof.
  intros H. apply Forall_forall. intros f Hf.
  apply in_map_iff in Hf. destruct Hf as (c & <- & Hc).
  rewrite forallb_forall in H.
  exact (proj1 (condition_parts c (H c Hc))).
Qed.

Lemma conditions_are_good (conds : list (string * list string)) :
  forallb condition_call conds = true -> forallb good_call conds = true.
Proof.
  intros H. rewrite forallb_forall in *. intros c Hc.
  exact (proj2 (condition_parts c (H c Hc))).
Qed.

(** X1: a rung that holds condition calls only (no output instruction
    after them) translates to the empty text: the conditions are collected
    and never written. *)
Theorem conditions_only_rung (c : string * list string)
  (more : list (string * list string)) (fuel : nat) :
  forallb condition_call (c :: more) = true ->
  (List.length more < fuel)%nat ->
  translate_ladder_to_st fuel (calls_text (c :: more)) = Some "".
Proof.
  intros H Hf.
  rewrite (translate_calls c more fuel (conditions_are_good _ H) Hf).
  rewrite emit_one_sequence.
  rewrite (fold_conditions _ _ _ _ (condition_funcs _ H)). reflexivity.
Qed.

Lemma conditions_only_rung_witness :
  forallb condition_call [("XIC", ["a"]); ("GRT", ["b"; "3"])] = true
  /\ (1 < 2)%nat
  /\ translate_ladder_to_st 2 "XIC(a)GRT(b,3)" = Some "".
Proof.
  split; [reflexivity|]. split; [lia|].
  apply (conditions_only_rung ("XIC", ["a"]) [("GRT", ["b"; "3"])] 2);
    [reflexivity | cbn [List.length]; lia].
Defined.

Lemma instruction_parts (c : string * list string) :
  instruction_call c = true ->
  good_call c = true /\ Dict.contains (fst c) CONDITIONAL_FUNCTIONS = false.
Proof.
  unfold instruction_call. intros H. apply andb_true_iff in H.
  destruct H as [G N]. apply negb_true_iff in N. split; assumption.
Qed.

Lemma instructions_are_good (calls : list (string * list string)) :
  forallb instruction_call calls = true -> forallb good_call calls = true.
Proof.
  intros H. rewrite forallb_forall in *. intros c Hc.
  exact (proj1 (instruction_parts c (H c Hc))).
Qed.

(** Instructions that no condition precedes are written one by one. *)
Lemma emit_instructions (calls : list (string * list string)) :
  forallb instruction_call calls = true ->
  forall s,
    fold_left emit_instruction (map call_func calls) (mkEmit s "" [])
    = mkEmit (s ++ instruction_lines calls) "" [].
Proof.
  induction calls as [|c calls IH]; intros H s.
  - cbn. rewrite app_nil_r. reflexivity.
  - cbn [forallb] in H. apply andb_true_iff in H. destruct H as [Hc Hcs].
    destruct (instruction_parts c Hc) as [_ N].
    cbn [map fold_left].
    replace (call_func c) with (mkLLFunc (fst c) (snd c) false)
      by (unfold call_func; rewrite N; reflexivity).
    unfold emit_instruction at 2.
    cbn [out current_tab conditional_func_list conditional fname params
         is_nil negb andb].
    assert (E : (match Dict.get (fst c) REGULAR_FUNCTIONS_IMPL with
                 | Some impl => s ++ "" ++ impl (snd c) true ++ nl
                 | None =>
                     s ++ "" ++ "// Unknown function: " ++ fst c ++ "("
                       ++ join ", " (snd c) ++ ")" ++ nl
                 end) = s ++ instruction_line c).
    { unfold instruction_line. destruct (Dict.get _ _); reflexivity. }
    rewrite E, (IH Hcs). cbn [instruction_lines].
    rewrite app_assoc. reflexivity.
Qed.




(** *** Wrong numbers of operands *)

Ltac wrong_arity k :=
  exists k; split; [lia|]; intros ps flag Hlen;
  apply Nat.eqb_neq in Hlen;
  cbv beta delta [ote otl otu clr gsv ssv jsr ton tof tonr mov cop msg res
                  ctu ctd ctud arith add sub mul div mod_ convert sqr abs
                  btd dtb frd tod osr osf rtrig ftrig arity];
  rewrite Hlen; vm_compute; reflexivity.

(** X3: every entry of REGULAR_FUNCTIONS_IMPL but NOP requires a fixed
    number [k] of operands, between 1 and 4; given any other number it
    returns the comment [// ERROR: NAME requires exactly k parameter(s)]
    and nothing else. *)
Theorem regular_arity_errors (name : string)
  (impl : list string -> bool -> string) :
  Dict.get name REGULAR_FUNCTIONS_IMPL = Some impl ->
  String.eqb name "NOP" = false ->
  exists k : nat,
    (1 <= k <= 4)%nat
    /\ forall (ps : list string) (flag : bool),
         List.length ps <> k -> impl ps flag = arity_error name k.
Proof.
  cbn [Dict.get REGULAR_FUNCTIONS_IMPL].
  repeat match goal with
         | |- context [String.eqb name ?k] =>
             destruct (String.eqb_spec name k) as [->|_];
             [intros E N; injection E as <-;
              first [discriminate N | wrong_arity 1%nat | wrong_arity 2%nat
                    | wrong_arity 3%nat | wrong_arity 4%nat]|]
         end.
  intros E. discriminate E.
Qed.

Lemma regular_arity_errors_witness :
  Dict.get "CTUD" REGULAR_FUNCTIONS_IMPL = Some (fun ps _ => ctud ps true)
  /\ String.eqb "CTUD" "NOP" = false
  /\ exists k : nat,
       (1 <= k <= 4)%nat
       /\ forall (ps : list string) (flag : bool),
            List.length ps <> k ->
            (fun ps _ => ctud ps true) ps flag = arity_error "CTUD" k.
Proof.
  split; [reflexivity|]. split; [reflexivity|].
  apply (regular_arity_errors "CTUD" (fun ps _ => ctud ps true));
    reflexivity.
Defined.

(** X4: every entry of CONDITIONAL_FUNCTIONS_IMPL translates an empty
    operand list to [(FALSE)], and the six comparisons do so for every
    number of operands other than two. *)
Theorem condition_arity_false (name : string) (impl : list string -> string) :
  Dict.get name CONDITIONAL_FUNCTIONS_IMPL = Some impl ->
  impl [] = "(FALSE)"
  /\ (String.eqb name "XIC" || String.eqb name "XIO" = false ->
      forall ps, List.length ps <> 2%nat -> impl ps = "(FALSE)").
Proof.
  cbn [Dict.get CONDITIONAL_FUNCTIONS_IMPL].
  repeat match goal with
         | |- context [String.eqb name ?k] =>
             destruct (String.eqb_spec name k) as [->|_];
             [intros E; injection E as <-; split;
              [reflexivity
              |intros N;
               first [discriminate N
                     |intros ps Hlen; apply Nat.eqb_neq in Hlen;
                      cbv beta delta [equ neq grt geq les leq compare arity];
                      rewrite Hlen; reflexivity]]|]
         end.
  intros E. discriminate E.
Qed.

Lemma condition_arity_false_witness :
  Dict.get "GEQ" CONDITIONAL_FUNCTIONS_IMPL = Some geq
  /\ geq [] = "(FALSE)"
  /\ geq ["a"; "b"; "c"] = "(FALSE)".
Proof.
  split; [reflexivity|].
  destruct (condition_arity_false "GEQ" geq eq_refl) as [H0 H].
  split; [exact H0|].
  apply (H eq_refl). cbn [List.length]. lia.
Defined.

(** *** Text without an opening parenthesis *)

(** X5: on a text without an opening parenthesis the formatting loop is not
    entered, whatever the fuel: the result is the text without its spaces
    and with every closing square bracket turned into [>]; opening square
    brackets and commas stay. *)
Theorem format_without_parenthesis (fuel : nat) (text : string) :
  lacks "(" text = true ->
  format_rung_text fuel text
  = Some (replace_char "]" ">" (remove_char " " text)).
Proof.
  intros H. unfold format_rung_text.
  rewrite (find_char_lacks "(" _ (lacks_remove_other "(" " " text H)).
  rewrite format_loop_done. change (0 =? -1)%Z with false. cbv iota.
  unfold slice_to, slice_from, bound.
  destruct (remove_char " " text) as [|x s] eqn:E; reflexivity.
Qed.

Lemma format_without_parenthesis_witness :
  lacks "(" "A[1], B[2]" = true
  /\ format_rung_text 0 "A[1], B[2]" = Some "A[1>,B[2>".
Proof.
  split; [reflexivity|].
  apply (format_without_parenthesis 0 "A[1], B[2]"). reflexivity.
Defined.

Lemma word_instructions (w : string) :
  plain w = true ->
  process_rung_instructions w = [[[call_func (w, [])]]].
Proof.
  intros Hw. pose proof (plain_all w Hw) as Ha.
  unfold process_rung_instructions.
  rewrite (remove_char_lacks " " w) by (apply plain_lacks; auto).
  rewrite (replace_char_lacks "<" " " w) by (apply plain_lacks; auto).
  rewrite (replace_char_lacks ">" " " w) by (apply plain_lacks; auto).
  rewrite (split_char_lacks " " w) by (apply plain_lacks; auto).
  cbn [map].
  rewrite (split_char_lacks ";" w) by (apply plain_lacks; auto).
  cbn [map]. unfold process_sequential_function_calls.
  rewrite (remove_char_lacks " " w) by (apply plain_lacks; auto).
  rewrite (replace_char_lacks "(" " " w) by (apply plain_lacks; auto).
  rewrite (replace_char_lacks ")" " " w) by (apply plain_lacks; auto).
  unfold split_ws.
  rewrite (split_ws_word w "" (plain_no_space w Ha) (plain_nonempty w Hw)).
  cbn [String.append].
  rewrite (remove_char_lacks "," w) by (apply plain_lacks; auto).
  rewrite (remove_char_lacks " " w) by (apply plain_lacks; auto).
  reflexivity.
Qed.

(** X6: a rung that is one bare word, with no parenthesis after it, is
    taken as an instruction without operands: a condition mnemonic gives
    the empty text, any other word the line of its table entry or the
    comment for an unknown function. *)
Theorem bare_word_rung (fuel : nat) (w : string) :
  plain w = true ->
  translate_ladder_to_st fuel w
  = Some (if Dict.contains w CONDITIONAL_FUNCTIONS then ""
          else instruction_line (w, [])).
Proof.
  intros Hw. pose proof (plain_all w Hw) as Ha.
  unfold translate_ladder_to_st, process_rung.
  rewrite (format_without_parenthesis fuel w)
    by (apply plain_lacks; auto).
  rewrite (remove_char_lacks " " w) by (apply plain_lacks; auto).
  rewrite (replace_char_lacks "]" ">" w) by (apply plain_lacks; auto).
  rewrite (word_instructions w Hw), emit_one_sequence.
  cbn [fold_left]. unfold emit_instruction, call_func.
  cbn [out current_tab conditional_func_list conditional fname params fst snd
       is_nil negb andb].
  destruct (Dict.contains w CONDITIONAL_FUNCTIONS); [reflexivity|].
  unfold instruction_line. cbn [fst snd out].
  destruct (Dict.get w REGULAR_FUNCTIONS_IMPL); reflexivity.
Qed.

Lemma bare_word_rung_witness :
  plain "OTE" = true
  /\ translate_ladder_to_st 0 "OTE"
     = Some ("// ERROR: OTE requires exactly 1 parameter" ++ nl).
Proof.
  split; [reflexivity|].
  apply (bare_word_rung 0 "OTE"). reflexivity.
Defined.

(** X7: a rung of white space alone translates to the empty text. *)
Theorem blank_rung (fuel : nat) (text : string) :
  all_space text = true ->
  translate_ladder_to_st fuel text = Some "".
Proof.
  intros H.
  assert (L : forall c, is_space c = false ->
                        lacks c (remove_char " " text) = true).
  { intros c Hc. apply all_space_lacks; [exact Hc|].
    apply all_space_remove. exact H. }
  unfold translate_ladder_to_st, process_rung.
  rewrite (format_without_parenthesis fuel text)
    by (apply all_space_lacks; auto).
  rewrite (replace_char_lacks "]" ">" _ (L "]"%char eq_refl)).
  set (f := remove_char " " text) in *.
  unfold process_rung_instructions.
  rewrite (remove_char_lacks " " f) by (apply lacks_remove_char).
  rewrite (replace_char_lacks "<" " " f (L "<"%char eq_refl)).
  rewrite (replace_char_lacks ">" " " f (L ">"%char eq_refl)).
  rewrite (split_char_lacks " " f) by (apply lacks_remove_char).
  cbn [map].
  rewrite (split_char_lacks ";" f (L ";"%char eq_refl)).
  cbn [map]. unfold process_sequential_function_calls.
  rewrite (remove_char_lacks " " f) by (apply lacks_remove_char).
  rewrite (replace_char_lacks "(" " " f (L "("%char eq_refl)).
  rewrite (replace_char_lacks ")" " " f (L ")"%char eq_refl)).
  rewrite (split_ws_blank f) by (apply all_space_remove; exact H).
  reflexivity.
Qed.

Lemma blank_rung_witness :
  all_space (" " ++ tab ++ " ") = true
  /\ translate_ladder_to_st 0 (" " ++ tab ++ " ") = Some "".
Proof.
  split; [reflexivity|].
  apply (blank_rung 0 (" " ++ tab ++ " ")). reflexivity.
Defined.

End RungFacts.

(* ================================================================== *)
(** ** Rungs with parallel branches *)
(* ================================================================== *)

Module BranchFacts.
Import PyStr Ladder Scenario Rungs StrFacts StrMore SeriesFacts RungFacts.

(** *** The formatting loop over calls with text between them *)

Lemma len_fix_seg (seg : string) : len (fix_seg seg) = len seg.
Proof. unfold fix_seg. rewrite !len_replace_char. reflexivity. Qed.

Lemma fix_seg_app (a b : string) : fix_seg (a ++ b) = fix_seg a ++ fix_seg b.
Proof. unfold fix_seg. rewrite !replace_char_app. reflexivity. Qed.

Lemma fix_seg_plain (n : string) : all_plain n = true -> fix_seg n = n.
Proof.
  intros H. unfold fix_seg.
  rewrite (replace_char_lacks "," ";" n) by (apply plain_lacks; auto).
  rewrite (replace_char_lacks "[" "<" n) by (apply plain_lacks; auto).
  rewrite (replace_char_lacks "]" ">" n) by (apply plain_lacks; auto).
  reflexivity.
Qed.

(** One pass of the loop over the call [seg(a)]: the commas and square
    brackets of [seg] are replaced, and the loop moves on to the next
    call. *)
Lemma format_step_seg (A seg a rest : string) :
  lacks "(" seg = true -> lacks ")" a = true ->
  format_step (A ++ seg ++ String "(" (a ++ String ")" rest))
              (len A) (len A + len seg)
  = (A ++ fix_seg seg ++ String "(" (a ++ String ")" rest),
     (len A + len seg + 1 + len a)%Z,
     if (find_char "(" (String ")" rest) =? -1)%Z then (-1)%Z
     else (find_char "(" (String ")" rest)
           + (len A + len seg + 1 + len a))%Z).
Proof.
  intros L1 La.
  set (X := String "(" (a ++ String ")" rest)).
  unfold format_step.
  rewrite (slice_to_seam A (seg ++ X)).
  rewrite (slice_seams A seg X).
  assert (E0 : slice_from (A ++ seg ++ X) (len A + len seg) = X).
  { rewrite <- len_app, <- app_assoc. apply slice_from_seam. }
  rewrite E0. fold (fix_seg seg).
  assert (E1 : slice_from (A ++ fix_seg seg ++ X) (len A + len seg) = X).
  { rewrite <- (len_fix_seg seg), <- len_app, <- app_assoc.
    apply slice_from_seam. }
  rewrite E1.
  assert (E2 : find_char ")" X = (1 + len a)%Z).
  { unfold X. change (String "(" (a ++ String ")" rest))
      with (String "(" a ++ String ")" rest).
    rewrite find_char_app by exact La.
    unfold len. cbn [String.length]. lia. }
  rewrite E2.
  assert (E3 : slice_from (A ++ fix_seg seg ++ X)
                 (1 + len a + (len A + len seg))
               = String ")" rest).
  { replace (A ++ fix_seg seg ++ X)
      with ((A ++ fix_seg seg ++ String "(" a) ++ String ")" rest).
    - replace (1 + len a + (len A + len seg))%Z
        with (len (A ++ fix_seg seg ++ String "(" a)).
      + apply slice_from_seam.
      + rewrite !len_app, len_fix_seg. unfold len. cbn [String.length]. lia.
    - unfold X. rewrite !app_assoc. reflexivity. }
  rewrite E3.
  replace (1 + len a + (len A + len seg))%Z
    with (len A + len seg + 1 + len a)%Z by lia.
  destruct (Z.eqb_spec (find_char "(" (String ")" rest)) (-1)) as [E|_];
    [rewrite E|]; reflexivity.
Qed.

Lemma format_loop_segs (l : list (string * string)) :
  forall (A seg a : string) (fuel : nat),
    lacks "(" seg = true -> lacks ")" a = true ->
    Forall loop_seg l ->
    (List.length l < fuel)%nat ->
    exists st,
      format_loop fuel
        (A ++ seg ++ String "(" (a ++ String ")" (segs_text l)))
        (len A) (len A + len seg)
      = Some (A ++ fix_seg seg
                ++ String "(" (a ++ String ")" (segs_text (fix_segs l))), st).
Proof.
  induction l as [|[seg' a'] l IH]; intros A seg a fuel L1 La F Hf.
  - destruct fuel as [|fuel]; [simpl in Hf; lia|].
    rewrite format_loop_step
      by (pose proof (len_nonneg A); pose proof (len_nonneg seg); lia).
    rewrite (format_step_seg A seg a _ L1 La).
    cbn [segs_text fix_segs map find_char].
    change (Ascii.eqb ")" "(") with false. cbv iota. cbn.
    eexists. apply format_loop_done.
  - destruct fuel as [|fuel]; [simpl in Hf; lia|].
    inversion F as [|? ? [C1 Ca] F']; subst. cbn [fst snd] in C1, Ca.
    rewrite format_loop_step
      by (pose proof (len_nonneg A); pose proof (len_nonneg seg); lia).
    rewrite (format_step_seg A seg a _ L1 La).
    cbn [segs_text].
    assert (Ef : find_char "("
                   (String ")" (seg' ++ String "(" (a' ++ String ")" (segs_text l))))
                 = (1 + len seg')%Z).
    { change (String ")" (seg' ++ String "(" (a' ++ String ")" (segs_text l))))
        with (String ")" seg' ++ String "(" (a' ++ String ")" (segs_text l))).
      rewrite find_char_app by (cbn; exact C1).
      unfold len. cbn [String.length]. lia. }
    rewrite Ef.
    destruct (Z.eqb_spec (1 + len seg') (-1)) as [E|_];
      [pose proof (len_nonneg seg'); lia|].
    cbv iota beta.
    destruct (IH (A ++ fix_seg seg ++ String "(" a) (String ")" seg') a' fuel)
      as (st & E); try (cbn; assumption).
    + simpl in Hf. lia.
    + exists st.
      replace (A ++ fix_seg seg
                 ++ String "(" (a ++ String ")"
                      (seg' ++ String "(" (a' ++ String ")" (segs_text l)))))
        with ((A ++ fix_seg seg ++ String "(" a) ++ String ")" seg'
              ++ String "(" (a' ++ String ")" (segs_text l)))
        by (rewrite !app_assoc; cbn; rewrite ?app_assoc; reflexivity).
      replace (len A + len seg + 1 + len a)%Z
        with (len (A ++ fix_seg seg ++ String "(" a))
        by (rewrite !len_app, len_fix_seg; unfold len; cbn [String.length];
            lia).
      replace (1 + len seg' + len (A ++ fix_seg seg ++ String "(" a))%Z
        with (len (A ++ fix_seg seg ++ String "(" a) + len (String ")" seg'))%Z
        by (unfold len; cbn [String.length]; lia).
      rewrite E. f_equal. f_equal.
      cbn [fix_segs map segs_text fst snd].
      change (fix_seg (String ")" seg')) with (String ")" (fix_seg seg')).
      rewrite !app_assoc. cbn. rewrite ?app_assoc. reflexivity.
Qed.

(** The formatting of a text of calls: the text between the calls has its
    commas and square brackets replaced, and nothing else changes. *)
Lemma format_segs (p : string * string) (l : list (string * string))
  (fuel : nat) :
  Forall loop_seg (p :: l) ->
  lacks " " (segs_text (p :: l)) = true ->
  lacks "]" (segs_text (fix_segs (p :: l))) = true ->
  (List.length l < fuel)%nat ->
  format_rung_text fuel (segs_text (p :: l))
  = Some (segs_text (fix_segs (p :: l))).
Proof.
  destruct p as [seg a]. intros F Lsp Lbr Hf.
  inversion F as [|? ? [C1 Ca] F']; subst. cbn [fst snd] in C1, Ca.
  unfold format_rung_text. rewrite (remove_char_lacks _ _ Lsp).
  cbn [segs_text] in *.
  rewrite (find_char_app "(" seg _ C1).
  destruct (format_loop_segs l "" seg a fuel C1 Ca F' Hf) as (st & E).
  cbn [String.append] in E. change (len "") with 0%Z in E.
  cbn [Z.add] in E. rewrite E.
  cbn [fix_segs map segs_text fst snd] in Lbr |- *.
  destruct (st =? -1)%Z; [reflexivity|].
  unfold slice_to, slice_from.
  rewrite replace_char_lacks by (apply lacks_drop; exact Lbr).
  rewrite take_drop. reflexivity.
Qed.


(** *** The text of a rung with branches *)

Lemma segs_text_app (l1 l2 : list (string * string)) :
  segs_text (l1 ++ l2) = segs_text l1 ++ segs_text l2.
Proof.
  induction l1 as [|[seg a] l1 IH]; [reflexivity|].
  cbn [List.app segs_text]. rewrite IH.
  rewrite !app_assoc. cbn. rewrite ?app_assoc. reflexivity.
Qed.

Section Separators.

(** What is done to the text between the calls: nothing, or [fix_seg]. *)
Variable h : string -> string.
Hypothesis h_app : forall a b, h (a ++ b) = h a ++ h b.
Hypothesis h_plain : forall n, all_plain n = true -> h n = n.

#[local] Abbreviation hs l := (map (fun p => (h (fst p), snd p)) l).

Lemma calls_segs_text (calls : list (string * list string)) :
  forallb good_call calls = true ->
  segs_text (hs (map (fun c => (fst c, join "," (snd c))) calls))
  = calls_text calls.
Proof.
  induction calls as [|c calls IH]; [reflexivity|].
  cbn [forallb]. intros H. apply andb_true_iff in H. destruct H as [Hc Hcs].
  destruct (good_parts c Hc) as (Hn & _).
  cbn [map segs_text fst snd].
  rewrite (IH Hcs), calls_text_cons, (h_plain _ (plain_all _ Hn)).
  reflexivity.
Qed.

Lemma series_segs_text (sep : string) (c : string * list string)
  (calls : list (string * list string)) :
  forallb good_call (c :: calls) = true ->
  segs_text (hs (series_segs sep (c :: calls)))
  = h sep ++ calls_text (c :: calls).
Proof.
  cbn [forallb]. intros H. apply andb_true_iff in H. destruct H as [Hc Hcs].
  destruct (good_parts c Hc) as (Hn & _).
  unfold series_segs. cbn [map segs_text fst snd].
  rewrite (calls_segs_text calls Hcs), calls_text_cons.
  rewrite h_app, (h_plain _ (plain_all _ Hn)), app_assoc. reflexivity.
Qed.

Lemma branch_segs_text (branches : list (list (string * list string))) :
  forallb branch branches = true ->
  forall sep,
    segs_text (hs (branch_segs sep branches))
    = match branches with
      | [] => ""
      | _ => h sep ++ join (h ",") (map calls_text branches)
      end.
Proof.
  induction branches as [|b branches IH]; intros H sep; [reflexivity|].
  cbn [forallb] in H. apply andb_true_iff in H. destruct H as [Hb Hbs].
  unfold branch in Hb. apply andb_true_iff in Hb. destruct Hb as [Nb Cb].
  destruct b as [|c calls]; [discriminate Nb|].
  pose proof (conditions_are_good _ Cb) as Gb.
  cbn [branch_segs]. rewrite map_app, segs_text_app.
  rewrite (series_segs_text sep c calls Gb), (IH Hbs ",").
  destruct branches as [|b' branches'].
  - cbn [map join]. rewrite app_nil_r. reflexivity.
  - cbn [map join]. rewrite !app_assoc. reflexivity.
Qed.

End Separators.

Lemma hs_id (l : list (string * string)) :
  map (fun p => ((fun s : string => s) (fst p), snd p)) l = l.
Proof.
  induction l as [|[a b] l IH]; [reflexivity|]. cbn. rewrite IH. reflexivity.
Qed.

(** The rung text as a text of calls, before and after the formatting. *)
Lemma branch_rung_segs (branches : list (list (string * list string)))
  (y : string) :
  branches <> [] -> forallb branch branches = true ->
  segs_text (branch_segs "[" branches ++ [("]OTE", y)])
  = branch_rung branches y
  /\ segs_text (fix_segs (branch_segs "[" branches ++ [("]OTE", y)]))
     = branch_rung_formatted branches y.
Proof.
  intros N H. split.
  - rewrite segs_text_app.
    pose proof (branch_segs_text (fun s => s) (fun a b => eq_refl)
                  (fun n _ => eq_refl) branches H "[") as E.
    rewrite hs_id in E. rewrite E.
    destruct branches as [|b bs]; [contradiction|].
    unfold branch_rung, call_text. cbn [segs_text fst snd join].
    rewrite !app_assoc. cbn. rewrite ?app_assoc. reflexivity.
  - unfold fix_segs. rewrite map_app, segs_text_app.
    rewrite (branch_segs_text fix_seg fix_seg_app fix_seg_plain branches H "[").
    destruct branches as [|b bs]; [contradiction|].
    unfold branch_rung_formatted, call_text. cbn [map segs_text fst snd join].
    change (fix_seg "]OTE") with ">OTE". change (fix_seg ",") with ";".
    change (fix_seg "[") with "<".
    rewrite !app_assoc. cbn. rewrite ?app_assoc. reflexivity.
Qed.


(** *** What the branches lack *)

Lemma join_sep_lacks (x : ascii) (sep : string) (parts : list string) :
  lacks x sep = true -> forallb (lacks x) parts = true ->
  lacks x (join sep parts) = true.
Proof.
  intros Hs. induction parts as [|p parts IH]; [reflexivity|].
  cbn [forallb]. intros H. apply andb_true_iff in H. destruct H as [Hp Hps].
  destruct parts as [|q parts]; [exact Hp|].
  change (join sep (p :: q :: parts)) with (p ++ sep ++ join sep (q :: parts)).
  rewrite !lacks_app, Hp, Hs, (IH Hps). reflexivity.
Qed.

Lemma branch_parts (b : list (string * list string)) :
  branch b = true -> b <> [] /\ forallb condition_call b = true.
Proof.
  unfold branch. intros H. apply andb_true_iff in H. destruct H as [N C].
  split; [|exact C]. intros E. rewrite E in N. discriminate N.
Qed.

Lemma branches_good (branches : list (list (string * list string))) :
  forallb branch branches = true ->
  forallb (forallb good_call) branches = true.
Proof.
  intros H. rewrite forallb_forall in *. intros b Hb.
  apply conditions_are_good. exact (proj2 (branch_parts b (H b Hb))).
Qed.

Lemma branch_texts_lack (x : ascii)
  (branches : list (list (string * list string))) :
  plain_char x = false -> Ascii.eqb "," x = false ->
  Ascii.eqb "(" x = false -> Ascii.eqb ")" x = false ->
  forallb branch branches = true ->
  forallb (lacks x) (map calls_text branches) = true.
Proof.
  intros Hx H1 H2 H3 H. apply forallb_forall. intros t Ht.
  apply in_map_iff in Ht. destruct Ht as (b & <- & Hb).
  apply calls_text_lacks; try assumption.
  exact (proj1 (forallb_forall _ _) (branches_good _ H) b Hb).
Qed.

Lemma ote_call_good (y : string) :
  plain y = true -> forallb good_call [("OTE", [y])] = true.
Proof.
  intros Hy. cbn [forallb]. unfold good_call. cbn [fst snd forallb is_nil negb].
  rewrite Hy. reflexivity.
Qed.

Lemma series_loop_segs (sep : string) (calls : list (string * list string)) :
  lacks "(" sep = true -> forallb good_call calls = true ->
  Forall loop_seg (series_segs sep calls).
Proof.
  intros Hs H. destruct calls as [|c calls]; [constructor|].
  cbn [forallb] in H. apply andb_true_iff in H. destruct H as [Hc Hcs].
  unfold series_segs. constructor.
  - destruct (good_loop_call c Hc) as (C1 & _ & _ & _ & Ca).
    split; cbn [fst snd]; [rewrite lacks_app, Hs, C1; reflexivity | exact Ca].
  - apply Forall_forall. intros p Hp. apply in_map_iff in Hp.
    destruct Hp as (c' & <- & Hc').
    pose proof (proj1 (forallb_forall _ _) Hcs c' Hc') as G.
    destruct (good_loop_call c' G) as (C1 & _ & _ & _ & Ca).
    split; assumption.
Qed.

Lemma branch_loop_segs (branches : list (list (string * list string))) :
  forallb branch branches = true ->
  forall sep, lacks "(" sep = true ->
    Forall loop_seg (branch_segs sep branches).
Proof.
  induction branches as [|b branches IH]; intros H sep Hs; [constructor|].
  cbn [forallb] in H. apply andb_true_iff in H. destruct H as [Hb Hbs].
  cbn [branch_segs]. apply Forall_app. split.
  - apply series_loop_segs; [exact Hs|].
    apply conditions_are_good. exact (proj2 (branch_parts b Hb)).
  - apply IH; [exact Hbs | reflexivity].
Qed.

Lemma branch_segs_length (branches : list (list (string * list string))) :
  forall sep,
    List.length (branch_segs sep branches) = branch_calls branches.
Proof.
  unfold branch_calls.
  induction branches as [|b branches IH]; intros sep; [reflexivity|].
  cbn [branch_segs concat]. rewrite !List.length_app, (IH ",").
  f_equal. destruct b as [|c calls]; [reflexivity|].
  unfold series_segs. cbn [List.length]. rewrite List.length_map.
  reflexivity.
Qed.

(** The formatting step on a rung with branches. *)
Lemma format_branches (branches : list (list (string * list string)))
  (y : string) (fuel : nat) :
  branches <> [] -> forallb branch branches = true -> plain y = true ->
  (branch_calls branches < fuel)%nat ->
  format_rung_text fuel (branch_rung branches y)
  = Some (branch_rung_formatted branches y).
Proof.
  intros N H Hy Hf.
  destruct (branch_rung_segs branches y N H) as [E1 E2].
  assert (P : Forall loop_seg (branch_segs "[" branches ++ [("]OTE", y)])).
  { apply Forall_app. split; [apply branch_loop_segs; auto|].
    constructor; [|constructor]. split; cbn [fst snd]; [reflexivity|].
    apply plain_lacks; [reflexivity | apply plain_all, Hy]. }
  assert (Ly : forall x, plain_char x = false -> Ascii.eqb "," x = false ->
                 Ascii.eqb "(" x = false -> Ascii.eqb ")" x = false ->
                 lacks x (call_text ("OTE", [y])) = true).
  { intros x Hx H1 H2 H3.
    pose proof (calls_text_lacks x [("OTE", [y])] Hx H1 H2 H3
                  (ote_call_good y Hy)) as L.
    cbn [calls_text] in L. rewrite app_nil_r in L. exact L. }
  assert (Lsp : lacks " " (branch_rung branches y) = true).
  { unfold branch_rung. rewrite !lacks_app.
    rewrite (join_sep_lacks " " "," _ eq_refl
               (branch_texts_lack " " branches eq_refl eq_refl eq_refl eq_refl H)).
    rewrite (Ly " "%char) by reflexivity. reflexivity. }
  assert (Lbr : lacks "]" (branch_rung_formatted branches y) = true).
  { unfold branch_rung_formatted. rewrite !lacks_app.
    rewrite (join_sep_lacks "]" ";" _ eq_refl
               (branch_texts_lack "]" branches eq_refl eq_refl eq_refl eq_refl H)).
    rewrite (Ly "]"%char) by reflexivity. reflexivity. }
  rewrite <- E1, <- E2 in *.
  destruct (branch_segs "[" branches ++ [("]OTE", y)])%list as [|p l] eqn:El.
  - destruct (branch_segs "[" branches); discriminate El.
  - apply (format_segs p l fuel P Lsp Lbr).
    apply (f_equal (@List.length _)) in El.
    rewrite List.length_app, branch_segs_length in El.
    cbn [List.length] in El. lia.
Qed.


(** *** The instruction objects of a rung with branches *)

Lemma branch_sequences (branches : list (list (string * list string))) :
  forallb branch branches = true ->
  filter (fun flist : list LLFunc => negb (is_nil flist))
    (map process_sequential_function_calls (map calls_text branches))
  = map (map call_func) branches.
Proof.
  induction branches as [|b branches IH]; [reflexivity|].
  cbn [forallb]. intros H. apply andb_true_iff in H. destruct H as [Hb Hbs].
  destruct (branch_parts b Hb) as [Nb Cb].
  cbn [map filter].
  rewrite (sequence_of_calls b (conditions_are_good b Cb)), (IH Hbs).
  destruct b; [contradiction | reflexivity].
Qed.

Lemma branch_instructions (branches : list (list (string * list string)))
  (y : string) :
  branches <> [] -> forallb branch branches = true -> plain y = true ->
  process_rung_instructions (branch_rung_formatted branches y)
  = [map (map call_func) branches; [[mkLLFunc "OTE" [y] false]]].
Proof.
  intros N H Hy.
  set (J := join ";" (map calls_text branches)).
  set (T := call_text ("OTE", [y])).
  assert (LT : forall x, plain_char x = false -> Ascii.eqb "," x = false ->
                 Ascii.eqb "(" x = false -> Ascii.eqb ")" x = false ->
                 lacks x T = true).
  { intros x Hx H1 H2 H3.
    pose proof (calls_text_lacks x [("OTE", [y])] Hx H1 H2 H3
                  (ote_call_good y Hy)) as L.
    cbn [calls_text] in L. rewrite app_nil_r in L. exact L. }
  assert (LJ : forall x, plain_char x = false -> Ascii.eqb "," x = false ->
                 Ascii.eqb "(" x = false -> Ascii.eqb ")" x = false ->
                 Ascii.eqb ";" x = false ->
                 lacks x J = true).
  { intros x Hx H1 H2 H3 H4. unfold J. apply join_sep_lacks.
    - cbn [lacks]. rewrite H4. reflexivity.
    - apply branch_texts_lack; assumption. }
  unfold process_rung_instructions, branch_rung_formatted.
  fold J. fold T.
  rewrite (remove_char_lacks " " ("<" ++ J ++ ">" ++ T))
    by (rewrite !lacks_app, LJ, LT by reflexivity; reflexivity).
  rewrite !replace_char_app.
  rewrite (replace_char_lacks "<" " " J) by (apply LJ; reflexivity).
  rewrite (replace_char_lacks "<" " " T) by (apply LT; reflexivity).
  rewrite (replace_char_lacks ">" " " J) by (apply LJ; reflexivity).
  rewrite (replace_char_lacks ">" " " T) by (apply LT; reflexivity).
  change (replace_char ">" " " (replace_char "<" " " "<")) with " ".
  change (replace_char ">" " " (replace_char "<" " " ">")) with " ".
  change (" " ++ J ++ " " ++ T) with ("" ++ String " " (J ++ String " " T)).
  rewrite (split_char_app " " "" _ eq_refl).
  rewrite (split_char_app " " J T) by (apply LJ; reflexivity).
  rewrite (split_char_lacks " " T) by (apply LT; reflexivity).
  cbn [map].
  change (split_char ";" "") with [""]. cbn [map].
  change (process_sequential_function_calls "") with (@nil LLFunc).
  cbn [filter is_nil negb].
  unfold J.
  rewrite (split_join_char ";" (map calls_text branches))
    by (try (destruct branches; [contradiction | discriminate]);
        apply branch_texts_lack; auto).
  rewrite (branch_sequences branches H).
  rewrite (split_char_lacks ";" T) by (apply LT; reflexivity).
  cbn [map]. unfold T.
  pose proof (sequence_of_calls [("OTE", [y])] (ote_call_good y Hy)) as E.
  cbn [calls_text] in E. rewrite app_nil_r in E. rewrite E.
  cbn [map filter is_nil negb].
  destruct branches as [|b bs]; [contradiction|]. reflexivity.
Qed.

(** *** The text written for the branches *)

Lemma rung_conditions_join (cs : list (string * list string)) :
  forallb condition_call cs = true ->
  forall (s : string) (j n : nat),
    n = (j + List.length cs)%nat ->
    rung_conditions n (map call_func cs) s j
    = s ++ join " AND " (map condition_st cs).
Proof.
  induction cs as [|c rest IH]; intros H s j n E.
  - cbn. rewrite app_nil_r. reflexivity.
  - cbn [forallb] in H. apply andb_true_iff in H. destruct H as [Hc Hrest].
    destruct (condition_parts c Hc) as [K _].
    cbn [map rung_conditions].
    replace (call_func c) with (mkLLFunc (fst c) (snd c) true)
      by (unfold call_func; rewrite K; reflexivity).
    cbn [conditional fname params negb].
    assert (T : (match Dict.get (fst c) CONDITIONAL_FUNCTIONS_IMPL with
                 | Some impl => s ++ impl (snd c)
                 | None =>
                     s ++ "// Unknown conditional function: " ++ fst c ++ nl
                 end) = s ++ condition_st c).
    { pose proof (condition_guard_text c K) as G.
      unfold guard_text, condition_st in *. cbn [fname params] in G.
      destruct (Dict.get (fst c) CONDITIONAL_FUNCTIONS_IMPL) eqn:D;
        [reflexivity|].
      unfold Dict.contains in K. revert D K.
      cbn [Dict.get CONDITIONAL_FUNCTIONS CONDITIONAL_FUNCTIONS_IMPL].
      repeat (destruct (String.eqb (fst c) _); [intros D; discriminate D|]).
      intros _ K. discriminate K. }
    rewrite T. cbn [List.length] in E.
    destruct rest as [|c' rest'].
    + replace (S j <? n)%nat with false
        by (symmetry; apply Nat.ltb_ge; simpl in E; lia).
      cbn. reflexivity.
    + replace (S j <? n)%nat with true
        by (symmetry; apply Nat.ltb_lt; simpl in E; lia).
      rewrite (IH Hrest _ (S j) n) by (simpl in *; lia).
      cbn [map join]. rewrite !app_assoc. reflexivity.
Qed.

Lemma rung_disjuncts_join (branches : list (list (string * list string))) :
  forallb branch branches = true ->
  forall (s : string) (i n : nat),
    n = (i + List.length branches)%nat ->
    rung_disjuncts n (map (map call_func) branches) s i
    = s ++ join " OR "
             (map (fun b => join " AND " (map condition_st b)) branches).
Proof.
  induction branches as [|b rest IH]; intros H s i n E.
  - cbn. rewrite app_nil_r. reflexivity.
  - cbn [forallb] in H. apply andb_true_iff in H. destruct H as [Hb Hrest].
    destruct (branch_parts b Hb) as [_ Cb].
    cbn [map rung_disjuncts]. rewrite List.length_map.
    rewrite (rung_conditions_join b Cb s 0 (List.length b) eq_refl).
    cbn [List.length] in E.
    destruct rest as [|b' rest'].
    + replace (S i <? n)%nat with false
        by (symmetry; apply Nat.ltb_ge; simpl in E; lia).
      cbn. reflexivity.
    + replace (S i <? n)%nat with true
        by (symmetry; apply Nat.ltb_lt; simpl in E; lia).
      rewrite (IH Hrest _ (S i) n) by (simpl in *; lia).
      cbn [map join]. rewrite !app_assoc. reflexivity.
Qed.

Lemma emit_branches (branches : list (list (string * list string)))
  (y : string) :
  forallb branch branches = true ->
  process_instruction_list
    [map (map call_func) branches; [[mkLLFunc "OTE" [y] false]]] ""
  = branch_ote branches y.
Proof.
  intros H. unfold process_instruction_list. cbn [List.length].
  change (1 <? 2)%nat with true. cbv iota.
  change (1 <? 2)%nat with true. cbv iota. cbn [nth fold_left].
  rewrite List.length_map.
  rewrite (rung_disjuncts_join branches H "IF (" 0 (List.length branches)
             eq_refl).
  unfold emit_sequence. cbn [fold_left out current_tab].
  unfold emit_instruction.
  cbn [out current_tab conditional_func_list conditional fname params is_nil
       negb andb].
  change (Dict.get "OTE" REGULAR_FUNCTIONS_IMPL) with (Some ote).
  cbv iota. cbn [out]. unfold branch_ote, ote, p0, arity.
  cbn [List.length Nat.eqb nth]. change ("" ++ tab) with tab.
  rewrite !app_assoc. reflexivity.
Qed.

(** X8: a rung whose conditions stand in parallel branches,
    [[B1,B2,...,Bn]OTE(y)] with each branch a series of condition calls,
    translates to one IF whose guard joins the branches with OR and the
    conditions of a branch with AND; [y := 1;] is its only statement and it
    has no ELSE arm. *)
Theorem branch_rung_translation
  (branches : list (list (string * list string))) (y : string) (fuel : nat) :
  negb (is_nil branches) = true ->
  forallb branch branches = true ->
  plain y = true ->
  (branch_calls branches < fuel)%nat ->
  translate_ladder_to_st fuel (branch_rung branches y)
  = Some (branch_ote branches y).
Proof.
  intros N H Hy Hf.
  assert (N' : branches <> []) by (destruct branches; [discriminate N | discriminate]).
  unfold translate_ladder_to_st, process_rung.
  rewrite (format_branches branches y fuel N' H Hy Hf).
  rewrite (branch_instructions branches y N' H Hy).
  rewrite (emit_branches branches y H). reflexivity.
Qed.

Lemma branch_rung_translation_witness :
  negb (is_nil [[("XIC", ["a"]); ("XIO", ["b"])]; [("EQU", ["c"; "3"])]])
  = true
  /\ forallb branch [[("XIC", ["a"]); ("XIO", ["b"])]; [("EQU", ["c"; "3"])]]
     = true
  /\ plain "y" = true
  /\ (3 < 4)%nat
  /\ translate_ladder_to_st 4 "[XIC(a)XIO(b),EQU(c,3)]OTE(y)"
     = Some ("IF (((a = 1)) AND ((b = 0)) OR (c = 3)) THEN" ++ nl
             ++ tab ++ "y := 1;" ++ nl ++ "END_IF;" ++ nl).
Proof.
  split; [reflexivity|]. split; [reflexivity|]. split; [reflexivity|].
  split; [lia|].
  apply (branch_rung_translation
           [[("XIC", ["a"]); ("XIO", ["b"])]; [("EQU", ["c"; "3"])]] "y" 4);
    [reflexivity | reflexivity | reflexivity | vm_compute; lia].
Defined.

End BranchFacts.

(* ================================================================== *)
(** ** More on the function block translator *)
(* ================================================================== *)

Module FbdMore.
Import PyStr Fbd FbdSearch DictFacts FbdFacts.
#[local] Open Scope list_scope.

Section AnyWires.

Variable set_iter : list string -> list string.
Variable warning_frames : nat.
Variable self : FBDTranslator.
Variable dependencies : Dict.t (list string).
Variable order0 : list string.

#[local] Abbreviation nodes := (Dict.keys (function_blocks self)).
#[local] Abbreviation sane := (dfs_sane nodes order0).

(** A call of [visit] returns when the interpreter allows one level of
    recursion for every block that is not under visit, and on top of these
    what a call of [logger.warning] needs; it leaves the blocks under visit
    as they were. *)
Lemma visit_any (depth : nat) :
  forall st fb,
    sane st ->
    In fb nodes ->
    NoDup (temp_visited st) ->
    incl (temp_visited st) nodes ->
    (List.length nodes + warning_frames
     < depth + List.length (temp_visited st))%nat ->
    exists st',
      visit set_iter warning_frames depth self dependencies st fb = Done st'
      /\ sane st'
      /\ temp_visited st' = temp_visited st
      /\ (In fb (visited st') \/ In fb (temp_visited st))
      /\ incl (visited st) (visited st').
Proof.
  induction depth as [|d IH]; intros st fb I Hfb Nd Hincl Hfuel.
  - exfalso.
    pose proof (NoDup_incl_length Nd Hincl) as L. simpl in Hfuel. lia.
  - cbn [visit].
    destruct (mem fb (temp_visited st)) eqn:Mt.
    { apply mem_In in Mt.
      pose proof (NoDup_incl_length Nd Hincl) as L.
      replace (warning_frames <=? d)%nat with true
        by (symmetry; apply Nat.leb_le; lia).
      exists st. splits; auto using incl_refl. }
    apply mem_not_In in Mt.
    destruct (mem fb (visited st)) eqn:Mv.
    { apply mem_In in Mv. exists st. splits; auto using incl_refl. }
    apply mem_not_In in Mv.
    rewrite (set_add_fresh _ _ Mt). cbn [visited temp_visited order].
    set (temp1 := temp_visited st ++ [fb]).
    assert (Nd1 : NoDup temp1).
    { apply NoDup_app; [exact Nd | repeat constructor; simpl; tauto |].
      intros x Hx [<-|[]]. exact (Mt Hx). }
    assert (Hincl1 : incl temp1 nodes).
    { intros x Hx. apply in_app_iff in Hx. destruct Hx as [Hx|[<-|[]]]; auto. }
    assert (L1 : List.length temp1 = S (List.length (temp_visited st))).
    { unfold temp1. rewrite List.length_app. simpl. lia. }
    assert (each :
      forall ds s,
        sane s -> temp_visited s = temp1 ->
        exists s',
          visit_each self (visit set_iter warning_frames d self dependencies) ds (Done s)
          = Done s'
          /\ sane s' /\ temp_visited s' = temp1
          /\ incl (visited s) (visited s')).
    { induction ds as [|a ds IHds]; intros s Is Ts.
      - exists s. splits; auto using incl_refl.
      - unfold visit_each. cbn [fold_left].
        fold (visit_each self (visit set_iter warning_frames d self dependencies) ds).
        destruct (Dict.contains a (function_blocks self)) eqn:Ca.
        + apply contains_In in Ca.
          destruct (IH s a) as (s1 & E1 & I1 & T1 & _ & S1).
          * exact Is.
          * exact Ca.
          * rewrite Ts. exact Nd1.
          * rewrite Ts. exact Hincl1.
          * rewrite Ts, L1. lia.
          * rewrite E1.
            destruct (IHds s1 I1) as (s2 & E2 & I2 & T2 & S2).
            { rewrite T1. exact Ts. }
            exists s2. splits; auto.
            intros x Hx. apply S2, S1, Hx.
        + apply (IHds s Is Ts). }
    destruct I as (new & Onew & Wnew & Vnew & Nnew & Dnew).
    destruct (each (deps_of set_iter dependencies fb)
                   (mkDfs (visited st) temp1 (order st)))
      as (s' & E & I' & T' & V').
    + exists new. cbn [visited temp_visited order]. splits; auto.
      intros x Hx. apply in_app_iff in Hx.
      destruct Hx as [Hx|[<-|[]]]; auto.
    + reflexivity.
    + rewrite E.
      destruct I' as (new' & Onew' & Wnew' & Vnew' & Nnew' & Dnew').
      assert (Fv : ~ In fb (visited s')).
      { apply Dnew'. rewrite T'. apply in_app_iff. right. left. reflexivity. }
      assert (Tr : set_remove fb (temp_visited s') = temp_visited st).
      { rewrite T'. apply set_remove_last. exact Mt. }
      eexists. split; [reflexivity|].
      cbn [visited temp_visited order]. splits.
      * exists (new' ++ [fb]). cbn [visited temp_visited order]. splits.
        -- rewrite Onew'. symmetry; apply app_assoc.
        -- apply NoDup_app; [exact Wnew' | repeat constructor; simpl; tauto |].
           intros x Hx [<-|[]]. apply Fv, Vnew'. exact Hx.
        -- intros x. rewrite set_add_In, in_app_iff, Vnew'. simpl.
           intuition congruence.
        -- intros x Hx. apply in_app_iff in Hx.
           destruct Hx as [Hx|[<-|[]]]; auto.
        -- rewrite Tr. intros x Hx Hv. apply set_add_In in Hv.
           destruct Hv as [->|Hv]; [exact (Mt Hx)|].
           apply (Dnew' x); [|exact Hv].
           rewrite T'. apply in_app_iff. left. exact Hx.
      * exact Tr.
      * left. apply set_add_In. left. reflexivity.
      * intros x Hx. apply set_add_In. right. apply V'. exact Hx.
Qed.

Lemma visit_keys_any (depth : nat) :
  (List.length nodes + warning_frames < depth)%nat ->
  forall ks s,
    incl ks nodes -> sane s -> temp_visited s = [] ->
    exists s',
      visit_keys (visit set_iter warning_frames depth self dependencies) ks (Done s)
      = Done s'
      /\ sane s' /\ temp_visited s' = []
      /\ incl (visited s) (visited s')
      /\ (forall k, In k ks -> In k (visited s')).
Proof.
  intros Hfuel. induction ks as [|k ks IH]; intros s Hks I T.
  - exists s. splits; auto using incl_refl. intros k [].
  - unfold visit_keys. cbn [fold_left].
    fold (visit_keys (visit set_iter warning_frames depth self dependencies) ks).
    assert (Hk : In k nodes) by (apply Hks; left; reflexivity).
    assert (Hks' : incl ks nodes) by (intros x Hx; apply Hks; right; exact Hx).
    destruct (mem k (visited s)) eqn:M.
    + apply mem_In in M.
      destruct (IH s Hks' I T) as (s' & E & I' & T' & V' & D').
      exists s'. splits; auto.
      intros x [<-|Hx]; [apply V'; exact M | apply D'; exact Hx].
    + destruct (visit_any depth s k) as (s1 & E1 & I1 & T1 & V1 & S1).
      * exact I.
      * exact Hk.
      * rewrite T. constructor.
      * rewrite T. intros x [].
      * rewrite T. simpl. lia.
      * rewrite E1.
        destruct (IH s1 Hks' I1) as (s' & E & I' & T' & V' & D').
        { rewrite T1. exact T. }
        exists s'. splits; auto.
        -- intros x Hx. apply V', S1, Hx.
        -- intros x [<-|Hx]; [|apply D'; exact Hx].
           apply V'. destruct V1 as [V1|V1]; [exact V1|].
           rewrite T in V1. destruct V1.
Qed.

Lemma visit_all_any (depth : nat) :
  (List.length nodes + warning_frames < depth)%nat ->
  exists s' new,
    visit_all set_iter warning_frames depth self dependencies (mkDfs [] [] order0) = Done s'
    /\ order s' = order0 ++ new
    /\ NoDup new
    /\ (forall x, In x new <-> In x nodes).
Proof.
  intros Hfuel.
  destruct (visit_keys_any depth Hfuel nodes (mkDfs [] [] order0))
    as (s' & E & I' & T' & V' & D').
  - apply incl_refl.
  - exists []. cbn [visited temp_visited order]. splits.
    + symmetry. apply app_nil_r.
    + constructor.
    + tauto.
    + intros x [].
    + intros x [].
  - reflexivity.
  - destruct I' as (new & On & Wn & Vn & Nn & Dn).
    exists s', new. splits; auto.
    intros x. split; [apply Nn|]. intros Hx. apply Vn, D'. exact Hx.
Qed.

End AnyWires.

Lemma determine_any (set_iter : list string -> list string)
  (warning_frames depth : nat) (self : FBDTranslator) :
  (List.length (function_blocks self) + warning_frames < depth)%nat ->
  exists new,
    _determine_execution_order set_iter warning_frames depth self
    = (with_order self (execution_order self ++ new), true)
    /\ NoDup new
    /\ (forall x, In x new <-> is_block self x = true).
Proof.
  intros Hfuel.
  assert (L : (List.length (Dict.keys (function_blocks self))
               + warning_frames < depth)%nat).
  { unfold Dict.keys. rewrite List.length_map. exact Hfuel. }
  destruct (visit_all_any set_iter warning_frames self (build_dependencies self)
              (execution_order self) depth L)
    as (s' & new & E & O & W & S).
  exists new. unfold _determine_execution_order. rewrite E, O. splits.
  - reflexivity.
  - exact W.
  - intros x. rewrite S. symmetry. apply contains_In.
Qed.

Lemma read_sheet_any (set_iter : list string -> list string)
  (warning_frames depth : nat) (self : FBDTranslator) (sheet : ET.Element) :
  (List.length (function_blocks (parse_elements self sheet)) + warning_frames
   < depth)%nat ->
  exists new,
    read_sheet set_iter warning_frames depth self sheet
    = (with_order (parse_elements self sheet) (execution_order self ++ new),
       true)
    /\ NoDup new
    /\ (forall x, In x new <-> is_block (parse_elements self sheet) x = true).
Proof.
  intros Hfuel.
  destruct (determine_any set_iter warning_frames depth (parse_elements self sheet) Hfuel)
    as (new & E & N & S).
  exists new. unfold read_sheet. rewrite E. splits; auto.
Qed.




(** *** Sheets after the first *)

Lemma parsed_blocks (self : FBDTranslator) (sheet : ET.Element) :
  function_blocks (parse_elements self sheet)
  = fold_left
      (fun fbs fb =>
         match ET.get fb "ID" with
         | Some fb_id =>
             if negb (String.eqb fb_id "")
                && negb (String.eqb (ET.get_or_empty fb "Name") "")
             then Dict.set fb_id (parse_fb fb) fbs else fbs
         | None => fbs
         end)
      (ET.findall sheet "AddOnInstruction") (function_blocks self).
Proof. reflexivity. Qed.

Lemma contains_set {V} (x k : string) (v : V) (d : Dict.t V) :
  Dict.contains x d = true -> Dict.contains x (Dict.set k v d) = true.
Proof.
  intros H. apply contains_In. apply contains_In in H.
  rewrite keys_set. unfold Dict.add_distinct.
  destruct (existsb (String.eqb k) (Dict.keys d));
    [exact H | apply in_app_iff; left; exact H].
Qed.

Lemma length_set {V} (k : string) (v : V) (d : Dict.t V) :
  (List.length d <= List.length (Dict.set k v d))%nat.
Proof.
  induction d as [|[k' v'] d IH]; cbn [Dict.set List.length]; [lia|].
  destruct (String.eqb k k'); cbn [List.length]; lia.
Qed.

(** Reading a sheet forgets no function block. *)
Lemma parsed_blocks_grow (self : FBDTranslator) (sheet : ET.Element) :
  (forall x, is_block self x = true ->
             is_block (parse_elements self sheet) x = true)
  /\ (List.length (function_blocks self)
      <= List.length (function_blocks (parse_elements self sheet)))%nat.
Proof.
  unfold is_block. rewrite parsed_blocks.
  generalize (function_blocks self) as fbs.
  induction (ET.findall sheet "AddOnInstruction") as [|fb l IH]; intros fbs.
  - split; [auto | cbn; lia].
  - cbn [fold_left].
    destruct (ET.get fb "ID") as [fb_id|]; [|apply IH].
    destruct (negb (String.eqb fb_id "")
              && negb (String.eqb (ET.get_or_empty fb "Name") ""));
      [|apply IH].
    destruct (IH (Dict.set fb_id (parse_fb fb) fbs)) as [I L].
    split.
    + intros x Hx. apply I. apply contains_set. exact Hx.
    + pose proof (length_set fb_id (parse_fb fb) fbs). lia.
Qed.

Lemma count_once (x : string) (l : list string) :
  NoDup l -> In x l -> count_occ string_dec l x = 1%nat.
Proof.
  intros N I.
  pose proof (proj1 (NoDup_count_occ string_dec l) N x) as U.
  pose proof (proj1 (count_occ_In string_dec l x) I) as P. lia.
Qed.



(** *** Sheets without function blocks *)

Lemma idle_sheets_code (set_iter : list string -> list string)
  (recursion_error : string) (warning_frames depth : nat)
  (sheets : list ET.Element) :
  forallb idle_sheet sheets = true ->
  forall self n code,
    function_blocks self = [] -> wires self = [] ->
    execution_order self = [] ->
    parse_sheets set_iter recursion_error warning_frames depth self sheets n
      code
    = code.
Proof.
  induction sheets as [|sheet sheets IH]; intros H self n code Fb Ws Eo;
    [reflexivity|].
  cbn [forallb] in H. apply andb_true_iff in H. destruct H as [Hs Hrest].
  unfold idle_sheet in Hs. apply andb_true_iff in Hs. destruct Hs as [Ha Hw].
  assert (Ea : ET.findall sheet "AddOnInstruction" = [])
    by (destruct (ET.findall sheet "AddOnInstruction");
        [reflexivity | discriminate Ha]).
  assert (Ew : ET.findall sheet "Wire" = [])
    by (destruct (ET.findall sheet "Wire"); [reflexivity | discriminate Hw]).
  set (p := parse_elements self sheet).
  assert (Pf : function_blocks p = []).
  { unfold p. rewrite parsed_blocks, Ea. exact Fb. }
  assert (Pw : wires p = []).
  { unfold p, parse_elements, _parse_wires. cbn [wires].
    rewrite Ew. exact Ws. }
  assert (Po : execution_order p = []) by exact Eo.
  cbn [parse_sheets]. unfold _parse_sheet, read_sheet. fold p.
  unfold _determine_execution_order, visit_all, build_dependencies.
  rewrite Pf, Pw, Po. cbn [Dict.keys map fold_left visit_keys order].
  unfold _generate_st_code, st_lines, call_lines,
    _generate_output_assignments.
  cbn [execution_order wires with_order]. rewrite Pw.
  cbn [flat_map List.app join]. change (String.eqb "" "") with true.
  cbv iota. apply IH; [exact Hrest | exact Pf | exact Pw | reflexivity].
Qed.

(** X11: a routine without Sheet elements, or whose sheets hold neither
    function blocks nor wires (references only), translates to the comment
    [// No FBD content to translate], whatever recursion the interpreter
    allows. *)
Theorem fbd_idle_sheets (set_iter : list string -> list string)
  (recursion_error : string) (warning_frames depth : nat)
  (fbd_content : ET.Element) :
  forallb idle_sheet (ET.findall fbd_content "Sheet") = true ->
  translate_fbd_to_st set_iter recursion_error warning_frames depth
    fbd_content
  = "// No FBD content to translate".
Proof.
  intros H. unfold translate_fbd_to_st, parse_fbd_content.
  rewrite (idle_sheets_code set_iter recursion_error warning_frames depth _ H
             cleared 1 []);
    reflexivity.
Qed.

Lemma fbd_idle_sheets_witness :
  forallb idle_sheet
    (ET.findall (ET.mkElement "Routine" [] "" [refs_sheet; refs_sheet])
       "Sheet") = true
  /\ translate_fbd_to_st (fun l => l) "" 0 0
       (ET.mkElement "Routine" [] "" [refs_sheet; refs_sheet])
     = "// No FBD content to translate".
Proof.
  split; [reflexivity|].
  apply (fbd_idle_sheets (fun l => l) "" 0 0
           (ET.mkElement "Routine" [] "" [refs_sheet; refs_sheet])).
  reflexivity.
Defined.

End FbdMore.

(* ================================================================== *)
(** ** More on the fidelity score *)
(* ================================================================== *)

Module FidelityMore.
Import Fidelity Projects DictFacts FidelityFacts.
#[local] Open Scope list_scope.

Section ByName.
Context {A : Type} (name_of : A -> string).

Lemma by_name_keys_NoDup (xs : list A) :
  NoDup (Dict.keys (by_name name_of xs)).
Proof.
  unfold by_name.
  assert (G : forall acc, NoDup (Dict.keys acc) ->
                NoDup (Dict.keys
                         (fold_left (fun d x => Dict.set (name_of x) x d)
                            xs acc))).
  { induction xs as [|x xs IH]; intros acc N; [exact N|].
    cbn [fold_left]. apply IH. apply FbdFacts.keys_set_NoDup. exact N. }
  apply G. constructor.
Qed.

Lemma by_name_keys_In (xs : list A) :
  forall k, In k (Dict.keys (by_name name_of xs)) -> In k (map name_of xs).
Proof.
  unfold by_name.
  assert (G : forall acc k,
                In k (Dict.keys
                        (fold_left (fun d x => Dict.set (name_of x) x d)
                           xs acc)) ->
                In k (Dict.keys acc) \/ In k (map name_of xs)).
  { induction xs as [|x xs IH]; intros acc k H; [left; exact H|].
    cbn [fold_left] in H. destruct (IH _ _ H) as [I|I].
    - rewrite keys_set in I. unfold Dict.add_distinct in I.
      destruct (existsb (String.eqb (name_of x)) (Dict.keys acc));
        [left; exact I|].
      apply in_app_iff in I. destruct I as [I|[<-|[]]];
        [left; exact I | right; left; reflexivity].
    - right. right. exact I. }
  intros k H. destruct (G [] k H) as [[]|I]. exact I.
Qed.

Lemma get_in_NoDup (d : Dict.t A) :
  NoDup (Dict.keys d) ->
  forall k v, In (k, v) d -> Dict.get k d = Some v.
Proof.
  induction d as [|[k' v'] d IH]; intros N k v I; [destruct I|].
  cbn [Dict.keys map fst] in N. inversion N as [|? ? Nk N']; subst.
  cbn [Dict.get]. destruct I as [E|I].
  - injection E as -> ->. rewrite String.eqb_refl. reflexivity.
  - destruct (String.eqb_spec k k') as [->|_].
    + exfalso. apply Nk. apply (in_map fst) in I. exact I.
    + apply (IH N' k v I).
Qed.

Lemma filter_all (f : string * A -> bool) (l : list (string * A)) :
  (forall x, In x l -> f x = true) -> filter f l = l.
Proof.
  induction l as [|x l IH]; intros H; [reflexivity|].
  cbn [filter]. rewrite (H x (or_introl eq_refl)).
  rewrite IH; [reflexivity|]. intros y Hy. apply H. right. exact Hy.
Qed.

(** Against itself a dictionary by name matches in every entry. *)
Lemma count_matched_self (same : A -> A -> bool) (xs : list A) :
  (forall a, same a a = true) ->
  count_matched same (by_name name_of xs) (by_name name_of xs)
  = List.length (by_name name_of xs).
Proof.
  intros R. unfold count_matched. rewrite filter_all; [reflexivity|].
  intros [k v] I. cbn [fst snd].
  rewrite (get_in_NoDup _ (by_name_keys_NoDup xs) k v I). apply R.
Qed.

Lemma get_more (ex : list A) :
  forall (d : Dict.t A) (k : string),
    ~ In k (map name_of ex) ->
    Dict.get k (fold_left (fun d x => Dict.set (name_of x) x d) ex d)
    = Dict.get k d.
Proof.
  induction ex as [|x ex IH]; intros d k N; [reflexivity|].
  cbn [fold_left]. rewrite IH by (intros I; apply N; right; exact I).
  rewrite get_set. destruct (String.eqb_spec k (name_of x)) as [->|_];
    [|reflexivity].
  exfalso. apply N. left. reflexivity.
Qed.

(** Components that only the converted side has do not count. *)
Lemma count_matched_more (same : A -> A -> bool) (os cs ex : list A) :
  fresh_names name_of os ex = true ->
  count_matched same (by_name name_of os) (by_name name_of (cs ++ ex))
  = count_matched same (by_name name_of os) (by_name name_of cs).
Proof.
  intros F. unfold count_matched. f_equal. apply filter_ext_in.
  intros [k v] I. cbn [fst snd].
  unfold by_name at 1. rewrite fold_left_app. fold (by_name name_of cs).
  rewrite get_more; [reflexivity|].
  intros Ik. apply in_map_iff in Ik. destruct Ik as (x & <- & Hx).
  unfold fresh_names in F. rewrite forallb_forall in F.
  specialize (F x Hx). apply negb_true_iff in F.
  apply FbdFacts.mem_not_In in F. apply F.
  apply by_name_keys_In. apply (in_map fst) in I. exact I.
Qed.

End ByName.

Lemma same_tag_refl (t : IRTag) : same_tag t t = true.
Proof.
  unfold same_tag. rewrite String.eqb_refl.
  destruct (scope t); reflexivity.
Qed.

(** X12: the fidelity score of a project against itself is 1, whatever the
    project holds (components that share a name included). *)
Theorem fidelity_score_reflexive (p : IRProject) :
  calculate_fidelity_score p p == 1.
Proof.
  unfold calculate_fidelity_score.
  destruct (Nat.eqb_spec (total_components p) 0) as [_|N]; [reflexivity|].
  assert (M : matched_components p p = total_components p).
  { unfold matched_components, total_components.
    rewrite (count_matched_self tag_name same_tag _ same_tag_refl).
    rewrite (count_matched_self dt_name same_data_type _
               (fun d => Nat.eqb_refl _)).
    rewrite (count_matched_self prog_name same_program _
               (fun d => Nat.eqb_refl _)).
    reflexivity. }
  rewrite M. unfold Qeq. cbn [Qnum Qden].
  rewrite (pos_of_nat _ N). lia.
Qed.

(** X13: the score does not see what only the converted project has: tags,
    data types and programs added to the converted project under names
    that the original does not use leave the score as it was. *)
Theorem fidelity_score_ignores_additions (original converted : IRProject)
  (more_tags : list IRTag) (more_types : list IRDataType)
  (more_programs : list IRProgram) :
  fresh_names tag_name (tags (controller original)) more_tags = true ->
  fresh_names dt_name (data_types (controller original)) more_types = true ->
  fresh_names prog_name (programs original) more_programs = true ->
  calculate_fidelity_score original
    (with_more converted more_tags more_types more_programs)
  = calculate_fidelity_score original converted.
Proof.
  intros Ft Fd Fp. unfold calculate_fidelity_score, matched_components.
  unfold with_more. cbn [controller tags data_types programs].
  rewrite (count_matched_more tag_name same_tag _ _ _ Ft).
  rewrite (count_matched_more dt_name same_data_type _ _ _ Fd).
  rewrite (count_matched_more prog_name same_program _ _ _ Fp).
  reflexivity.
Qed.

Lemma fidelity_score_ignores_additions_witness :
  fresh_names tag_name (tags (controller only_b))
    [mkIRTag "z" "DINT" CONTROLLER None] = true
  /\ fresh_names dt_name (data_types (controller only_b))
       [mkIRDataType "U" None []] = true
  /\ fresh_names prog_name (programs only_b) [] = true
  /\ calculate_fidelity_score only_b
       (with_more twice_a [mkIRTag "z" "DINT" CONTROLLER None]
          [mkIRDataType "U" None []] [])
     = calculate_fidelity_score only_b twice_a.
Proof.
  split; [reflexivity|]. split; [reflexivity|]. split; [reflexivity|].
  apply (fidelity_score_ignores_additions only_b twice_a
           [mkIRTag "z" "DINT" CONTROLLER None] [mkIRDataType "U" None []] []);
    reflexivity.
Defined.

End FidelityMore.

(* ================================================================== *)
(** ** More on identifiers *)
(* ================================================================== *)

Module IdentMore.
Import PyStr Ident Shapes IdentFacts.

Lemma sub_non_ident_chars (s : string) :
  all_chars ident_char (sub_non_ident s) = true.
Proof.
  induction s as [|a r IH]; [reflexivity|].
  cbn [sub_non_ident all_chars]. rewrite ident_char_sub, IH. reflexivity.
Qed.

Lemma sub_non_ident_length (s : string) :
  String.length (sub_non_ident s) = String.length s.
Proof.
  induction s as [|a r IH]; [reflexivity|]. cbn. rewrite IH. reflexivity.
Qed.

Lemma clean_identifier_shape (s : string) :
  identifier_shape (clean_identifier s) = true.
Proof.
  unfold identifier_shape, clean_identifier.
  pose proof (sub_non_ident_chars s) as C.
  destruct (sub_non_ident s) as [|a r] eqn:E; [reflexivity|].
  destruct (is_digit a) eqn:D.
  - change ("var_" ++ String a r)
      with (String "v" (String "a" (String "r" (String "_" (String a r))))).
    cbn [all_chars starts_with_digit]. cbn [all_chars] in C.
    change (ident_char "v") with true. change (ident_char "a") with true.
    change (ident_char "r") with true. change (ident_char "_") with true.
    change (is_digit "v") with false. cbn [andb negb].
    rewrite andb_true_r. exact C.
  - cbn [starts_with_digit]. rewrite C, D. reflexivity.
Qed.

(** X14: whatever the text, [clean_identifier] and [sanitize_identifier]
    return letters, digits and underscores only, with no digit in front;
    [clean_identifier] keeps the length of the text, or adds the four
    characters of [var_] when the text starts with a digit. *)
Theorem identifiers_have_shape (s : string) :
  identifier_shape (clean_identifier s) = true
  /\ identifier_shape (sanitize_identifier s) = true
  /\ String.length (clean_identifier s)
     = ((if starts_with_digit s then 4 else 0) + String.length s)%nat.
Proof.
  split; [apply clean_identifier_shape|]. split.
  - unfold sanitize_identifier.
    destruct (Dict.get (upper s) RESERVED_WORDS) as [r|] eqn:G;
      [|apply clean_identifier_shape].
    revert G. cbn [Dict.get RESERVED_WORDS].
    repeat match goal with
           | |- context [String.eqb (upper s) ?k] =>
               destruct (String.eqb (upper s) k);
               [intros G; injection G as <-; reflexivity|]
           end.
    intros G. discriminate G.
  - unfold clean_identifier.
    pose proof (sub_non_ident_length s) as L.
    destruct s as [|a r]; [reflexivity|].
    cbn [sub_non_ident starts_with_digit] in *.
    destruct (ident_char a) eqn:I.
    + destruct (is_digit a); [|exact L].
      rewrite StrFacts.length_app, L. reflexivity.
    + assert (D : is_digit a = false).
      { unfold ident_char in I. apply orb_false_iff in I. destruct I as [I _].
        apply orb_false_iff in I. destruct I as [_ I]. exact I. }
      rewrite D. change (is_digit "_") with false. cbv iota. exact L.
Qed.

End IdentMore.

(* ================================================================== *)
(** ** [strip], end by end *)
(* ================================================================== *)

Module StripFacts.
Import PyStr PyText StrFacts StrMore.

Lemma lstrip_snoc (z : string) (a : ascii) :
  lstrip (z ++ String a "")
  = match lstrip z with
    | "" => lstrip (String a "")
    | y => y ++ String a ""
    end.
Proof.
  induction z as [|b z IH]; [reflexivity|].
  cbn [String.append lstrip]. destruct (is_space b); [exact IH | reflexivity].
Qed.

(** [rstrip] from the front of the text: a character stays when something
    stays after it, or when it is not white space. *)
Lemma rstrip_cons (a : ascii) (t : string) :
  rstrip (String a t)
  = match rstrip t with
    | "" => if is_space a then "" else String a ""
    | y => String a y
    end.
Proof.
  unfold rstrip. cbn [rev]. rewrite lstrip_snoc.
  destruct (lstrip (rev t)) as [|b y] eqn:E.
  - cbn [rev lstrip]. destruct (is_space a); reflexivity.
  - rewrite rev_snoc.
    destruct (rev (String b y)) as [|c u] eqn:R; [|reflexivity].
    apply (f_equal rev) in R. rewrite rev_involutive in R. discriminate R.
Qed.

Lemma rstrip_head (a : ascii) (t : string) :
  is_space a = false -> rstrip (String a t) = String a (rstrip t).
Proof.
  intros H. rewrite rstrip_cons, H. destruct (rstrip t); reflexivity.
Qed.

Lemma lstrip_fixed (s : string) : starts_space s = false -> lstrip s = s.
Proof.
  destruct s as [|a s]; [reflexivity|]. cbn [starts_space lstrip].
  intros H. rewrite H. reflexivity.
Qed.

Lemma lstrip_starts (s : string) : starts_space (lstrip s) = false.
Proof.
  induction s as [|a s IH]; [reflexivity|]. cbn [lstrip].
  destruct (is_space a) eqn:E; [exact IH | exact E].
Qed.

Lemma rstrip_fixed (s : string) : ends_space s = false -> rstrip s = s.
Proof.
  induction s as [|a s IH]; [reflexivity|]. intros H.
  rewrite rstrip_cons. destruct s as [|b s].
  - cbn [ends_space] in H. rewrite H. reflexivity.
  - rewrite (IH H). reflexivity.
Qed.

Lemma rstrip_ends (s : string) : ends_space (rstrip s) = false.
Proof.
  induction s as [|a s IH]; [reflexivity|]. rewrite rstrip_cons.
  destruct (rstrip s) as [|b y].
  - destruct (is_space a) eqn:E; [reflexivity | exact E].
  - exact IH.
Qed.

Lemma rstrip_starts (s : string) :
  starts_space s = false -> starts_space (rstrip s) = false.
Proof.
  destruct s as [|a s]; [reflexivity|]. cbn [starts_space]. intros H.
  rewrite (rstrip_head a s H). exact H.
Qed.

Lemma strip_trimmed (s : string) : trimmed (strip s) = true.
Proof.
  unfold trimmed, strip.
  rewrite (rstrip_starts _ (lstrip_starts s)), rstrip_ends. reflexivity.
Qed.

Lemma trimmed_parts (s : string) :
  trimmed s = true -> starts_space s = false /\ ends_space s = false.
Proof.
  unfold trimmed. intros H. apply andb_true_iff in H. destruct H as [A B].
  apply negb_true_iff in A. apply negb_true_iff in B. split; assumption.
Qed.

Lemma trimmed_strip (s : string) : trimmed s = true -> strip s = s.
Proof.
  intros H. destruct (trimmed_parts s H) as [A B].
  unfold strip. rewrite (lstrip_fixed s A). apply rstrip_fixed. exact B.
Qed.

Lemma strip_idem (s : string) : strip (strip s) = strip s.
Proof. apply trimmed_strip, strip_trimmed. Qed.

Lemma strip_space_cons (a : ascii) (s : string) :
  is_space a = true -> strip (String a s) = strip s.
Proof. intros H. unfold strip. cbn [lstrip]. rewrite H. reflexivity. Qed.

Lemma lstrip_lacks (c : ascii) (s : string) :
  lacks c s = true -> lacks c (lstrip s) = true.
Proof.
  induction s as [|a s IH]; [reflexivity|]. intros H. cbn [lstrip].
  destruct (is_space a); [|exact H].
  cbn [lacks] in H. apply andb_true_iff in H. apply IH, H.
Qed.

Lemma rstrip_lacks (c : ascii) (s : string) :
  lacks c s = true -> lacks c (rstrip s) = true.
Proof.
  induction s as [|a s IH]; [reflexivity|]. cbn [lacks]. intros H.
  apply andb_true_iff in H. destruct H as [Ha Hs]. rewrite rstrip_cons.
  specialize (IH Hs). destruct (rstrip s) as [|b y].
  - destruct (is_space a); [reflexivity|]. cbn [lacks]. rewrite Ha.
    reflexivity.
  - cbn [lacks] in *. rewrite Ha, IH. reflexivity.
Qed.

Lemma strip_lacks (c : ascii) (s : string) :
  lacks c s = true -> lacks c (strip s) = true.
Proof. intros H. unfold strip. apply rstrip_lacks, lstrip_lacks, H. Qed.

(** White space alone strips to nothing, and nothing else does. *)
Lemma strip_all_space (s : string) :
  Rungs.all_space s = true -> strip s = "".
Proof.
  intros H. unfold strip.
  assert (L : lstrip s = "").
  { induction s as [|a s IH]; [reflexivity|].
    cbn [Rungs.all_space] in H. apply andb_true_iff in H.
    destruct H as [Ha Hs]. cbn [lstrip]. rewrite Ha. exact (IH Hs). }
  rewrite L. reflexivity.
Qed.

End StripFacts.

(* ================================================================== *)
(** ** The rung processor of instructions.py *)
(* ================================================================== *)

Module InstructionsFacts.
Import PyStr PyText Scenario Instructions StrFacts StrMore StripFacts.

(** *** Statements between semicolons *)

Lemma split_char_fields (c : ascii) (s : string) :
  forallb (lacks c) (split_char c s) = true.
Proof.
  induction s as [|a s IH]; [reflexivity|]. cbn [split_char].
  destruct (Ascii.eqb a c) eqn:E; [cbn [forallb lacks]; exact IH|].
  destruct (split_char c s) as [|w ws]; cbn [forallb lacks] in *.
  - rewrite E. reflexivity.
  - rewrite E. exact IH.
Qed.

(** X15: whatever the text, [process_rung_instructions] returns statements:
    texts that are not empty, have no white space at either end and hold no
    semicolon. *)
Theorem rung_instructions_are_statements (text : string) :
  forallb statement (process_rung_instructions text) = true.
Proof.
  unfold process_rung_instructions. apply forallb_forall. intros x Hx.
  apply filter_In in Hx. destruct Hx as [Hx Ne].
  apply in_map_iff in Hx. destruct Hx as (p & <- & Hp).
  unfold statement. rewrite Ne, strip_trimmed. cbn [andb].
  apply strip_lacks.
  exact (proj1 (forallb_forall _ _) (split_char_fields ";" text) p Hp).
Qed.

Lemma statement_parts (s : string) :
  statement s = true ->
  String.eqb s "" = false /\ trimmed s = true /\ lacks ";" s = true.
Proof.
  unfold statement. intros H. apply andb_true_iff in H. destruct H as [H L].
  apply andb_true_iff in H. destruct H as [N T].
  apply negb_true_iff in N. auto.
Qed.

Lemma strip_after_space (pre s : string) :
  Rungs.all_space pre = true -> strip (pre ++ s) = strip s.
Proof.
  induction pre as [|a pre IH]; [reflexivity|].
  cbn [Rungs.all_space]. intros H. apply andb_true_iff in H.
  destruct H as [Ha Hp]. cbn [String.append].
  rewrite (strip_space_cons a _ Ha). exact (IH Hp).
Qed.

Lemma statements_split (seq : list string) :
  seq <> [] -> forallb statement seq = true ->
  forall pre,
    Rungs.all_space pre = true ->
    map strip (split_char ";" (pre ++ join "; " seq)) = seq.
Proof.
  induction seq as [|x seq IH]; [congruence|]. intros _ H pre Hpre.
  cbn [forallb] in H. apply andb_true_iff in H. destruct H as [Hx Hseq].
  destruct (statement_parts x Hx) as (Nx & Tx & Lx).
  assert (Lp : lacks ";" (pre ++ x) = true).
  { rewrite lacks_app, Lx, (all_space_lacks ";" pre eq_refl Hpre).
    reflexivity. }
  assert (Sx : strip (pre ++ x) = x).
  { rewrite (strip_after_space pre x Hpre). apply trimmed_strip, Tx. }
  destruct seq as [|y seq].
  - cbn [join]. rewrite (split_char_lacks ";" _ Lp). cbn [map].
    rewrite Sx. reflexivity.
  - change (join "; " (x :: y :: seq))
      with (x ++ String ";" (" " ++ join "; " (y :: seq))).
    rewrite <- app_assoc.
    rewrite (split_char_app ";" (pre ++ x) _ Lp). cbn [map].
    rewrite Sx. f_equal. apply IH; [discriminate | exact Hseq | reflexivity].
Qed.

(** X16: statements that [process_sequential_function_calls] joins are
    given back by [process_rung_instructions], one by one and in order. *)
Theorem statements_round_trip (seq : list string) :
  forallb statement seq = true ->
  process_rung_instructions (process_sequential_function_calls seq) = seq.
Proof.
  intros H. unfold process_rung_instructions,
    process_sequential_function_calls.
  destruct seq as [|x seq]; [reflexivity|].
  pose proof (statements_split (x :: seq)) as S.
  specialize (S ltac:(discriminate) H "" eq_refl).
  cbn [String.append] in S. rewrite S.
  clear S. revert H. generalize (x :: seq) as l.
  induction l as [|z l IH]; [reflexivity|]. cbn [forallb filter].
  intros H. apply andb_true_iff in H. destruct H as [Hz Hl].
  destruct (statement_parts z Hz) as (Nz & _). rewrite Nz. cbn [negb].
  rewrite (IH Hl). reflexivity.
Qed.

Lemma statements_round_trip_witness :
  forallb statement ["x := 1"; "F(a, b)"; "y := x + 2"] = true
  /\ process_rung_instructions "x := 1; F(a, b); y := x + 2"
     = ["x := 1"; "F(a, b)"; "y := x + 2"].
Proof.
  split; [reflexivity|].
  apply (statements_round_trip ["x := 1"; "F(a, b)"; "y := x + 2"]).
  reflexivity.
Defined.


(** *** Calls *)

Lemma rfind_aux_last (c : ascii) (x : string) :
  forall i last, rfind_aux c (x ++ String c "") i last = (i + len x)%Z.
Proof.
  induction x as [|a x IH]; intros i last.
  - cbn [String.append rfind_aux]. rewrite Ascii.eqb_refl.
    change (len "") with 0%Z. lia.
  - cbn [String.append rfind_aux]. rewrite IH.
    unfold len. cbn [String.length]. lia.
Qed.

Lemma rfind_last (c : ascii) (x : string) :
  rfind_char c (x ++ String c "") = len x.
Proof. unfold rfind_char. rewrite rfind_aux_last. lia. Qed.

Lemma ends_space_snoc (x : string) (a : ascii) :
  ends_space (x ++ String a "") = is_space a.
Proof.
  induction x as [|b x IH]; [reflexivity|].
  cbn [String.append ends_space]. rewrite IH.
  destruct (x ++ String a "") eqn:E; [|reflexivity].
  destruct x; discriminate E.
Qed.

Lemma plain_starts (f rest : string) :
  plain f = true -> starts_space (f ++ rest) = false.
Proof.
  intros H. pose proof (SeriesFacts.plain_nonempty f H) as N.
  pose proof (SeriesFacts.plain_no_space f (SeriesFacts.plain_all f H)) as S.
  destruct f as [|a f]; [discriminate N|].
  cbn [no_space] in S. apply andb_true_iff in S. destruct S as [S _].
  apply negb_true_iff in S. exact S.
Qed.

Lemma split_params_join (ps : list string) :
  forallb plain ps = true -> split_params (join "," ps) = ps.
Proof.
  intros H. unfold split_params. destruct ps as [|p ps]; [reflexivity|].
  rewrite (StrFacts.split_join (p :: ps)).
  - apply SeriesFacts.strip_operands. exact H.
  - discriminate.
  - apply SeriesFacts.forallb_plain_lacks; [reflexivity | exact H].
Qed.

Lemma unknown_function (func : string) (params : list string) :
  mem (py_upper func) MNEMONICS = false ->
  process_function func params = generic_call func params.
Proof.
  unfold mem, MNEMONICS. cbn [existsb]. intros H.
  unfold process_function.
  repeat match type of H with
         | (_ || _)%bool = false =>
             apply orb_false_iff in H; destruct H as [-> H]
         end.
  reflexivity.
Qed.

(** X17: a rung that is one call [F(p1,p2,...)] of a function that is none
    of the mnemonics of [process_function] (and whose text does not hold
    [MSG]) translates to the call itself, with [", "] between the operands
    and a semicolon after it. *)
Theorem generic_call_rung (func : string) (params : list string)
  (tab : string) :
  plain func = true ->
  forallb plain params = true ->
  mem (py_upper func) MNEMONICS = false ->
  contains "MSG" (call_text (func, params)) = false ->
  process_rung (call_text (func, params)) tab
  = tab ++ generic_call func params.
Proof.
  intros Hf Hps Hu Hm. unfold call_text in *. cbn [fst snd] in *.
  set (args := join "," params) in *.
  set (text := func ++ "(" ++ args ++ ")") in *.
  pose proof (SeriesFacts.plain_all func Hf) as Af.
  assert (La : forall x, plain_char x = false -> Ascii.eqb "," x = false ->
                         lacks x args = true).
  { intros x Hx Hc. apply SeriesFacts.join_lacks; [exact Hc|].
    apply SeriesFacts.forallb_plain_lacks; assumption. }
  assert (T : trimmed text = true).
  { unfold trimmed, text. rewrite (plain_starts func _ Hf).
    replace (func ++ "(" ++ args ++ ")")
      with ((func ++ "(" ++ args) ++ String ")" "")
      by (rewrite !app_assoc; reflexivity).
    rewrite ends_space_snoc. reflexivity. }
  assert (Ls : lacks ";" text = true).
  { unfold text. rewrite !lacks_app.
    rewrite (SeriesFacts.plain_lacks ";" func eq_refl Af).
    rewrite (La ";"%char eq_refl eq_refl). reflexivity. }
  assert (N : String.eqb text "" = false).
  { unfold text. pose proof (SeriesFacts.plain_nonempty func Hf) as Nf.
    destruct func; [discriminate Nf | reflexivity]. }
  unfold process_rung. rewrite (trimmed_strip text T), Hm.
  unfold process_rung_instructions.
  rewrite (split_char_lacks ";" text Ls). cbn [map].
  rewrite (trimmed_strip text T). cbn [filter]. rewrite N. cbn [negb].
  unfold process_instruction_list. cbn [flat_map].
  rewrite List.app_nil_r. unfold instruction_lines.
  assert (P1 : lacks "(" text = false).
  { unfold text. rewrite !lacks_app. cbn [lacks].
    rewrite Ascii.eqb_refl. cbn. apply andb_false_r. }
  assert (P2 : lacks ")" text = false).
  { unfold text. rewrite !lacks_app. cbn [lacks].
    rewrite Ascii.eqb_refl. cbn. rewrite !andb_false_r. reflexivity. }
  rewrite P1, P2. cbn [negb andb].
  assert (F1 : find_char "(" text = len func).
  { unfold text. change ("(" ++ args ++ ")") with (String "(" (args ++ ")")).
    apply find_char_app.
    apply SeriesFacts.plain_lacks; [reflexivity | exact Af]. }
  assert (F2 : rfind_char ")" text = (len func + 1 + len args)%Z).
  { unfold text.
    replace (func ++ "(" ++ args ++ ")")
      with ((func ++ "(" ++ args) ++ String ")" "")
      by (rewrite !app_assoc; reflexivity).
    rewrite rfind_last, !len_app. unfold len. cbn [String.length]. lia. }
  rewrite F1, F2.
  assert (S1 : slice_to text (len func) = func)
    by (unfold text; apply slice_to_seam).
  assert (S2 : slice text (len func + 1) (len func + 1 + len args) = args).
  { unfold text.
    replace (func ++ "(" ++ args ++ ")") with ((func ++ "(") ++ args ++ ")")
      by (rewrite !app_assoc; reflexivity).
    replace (len func + 1)%Z with (len (func ++ "("))
      by (rewrite len_app; unfold len; cbn [String.length]; lia).
    apply slice_seams. }
  rewrite S1, S2.
  rewrite (strip_no_space func (SeriesFacts.plain_no_space func Af)).
  unfold args. rewrite (split_params_join params Hps).
  rewrite (unknown_function func params Hu).
  assert (G : String.eqb (generic_call func params) "" = false).
  { unfold generic_call. pose proof (SeriesFacts.plain_nonempty func Hf) as Nf.
    destruct func; [discriminate Nf | reflexivity]. }
  rewrite G. reflexivity.
Qed.

Lemma generic_call_rung_witness :
  plain "Scale" = true
  /\ forallb plain ["In1"; "Out1"] = true
  /\ mem (py_upper "Scale") MNEMONICS = false
  /\ contains "MSG" (call_text ("Scale", ["In1"; "Out1"])) = false
  /\ process_rung "Scale(In1,Out1)" tab = tab ++ "Scale(In1, Out1);".
Proof.
  split; [reflexivity|]. split; [reflexivity|]. split; [reflexivity|].
  split; [reflexivity|].
  apply (generic_call_rung "Scale" ["In1"; "Out1"] tab); reflexivity.
Defined.

(** X18: [process_function] takes a mnemonic in any case: a function name
    whose upper case is one of the seventeen mnemonics is translated as the
    mnemonic is. *)
Theorem mnemonic_in_any_case (func : string) (params : list string) :
  mem (py_upper func) MNEMONICS = true ->
  process_function func params = process_function (py_upper func) params.
Proof.
  intros H. unfold process_function at 1.
  repeat match goal with
         | |- context [String.eqb (py_upper func) ?k] =>
             destruct (String.eqb_spec (py_upper func) k) as [E|?];
             [rewrite E; reflexivity|]
         end.
  exfalso. unfold mem, MNEMONICS in H. cbn [existsb] in H.
  repeat match type of H with
         | (String.eqb _ ?k || _)%bool = true =>
             apply orb_true_iff in H; destruct H as [H|H];
             [apply String.eqb_eq in H; congruence|]
         end.
  discriminate H.
Qed.

Lemma mnemonic_in_any_case_witness :
  mem (py_upper "Xic") MNEMONICS = true
  /\ process_function "Xic" ["Start"] = "Start = 1".
Proof.
  split; [reflexivity|].
  apply (mnemonic_in_any_case "Xic" ["Start"]). reflexivity.
Defined.

(** *** Rungs that hold MSG *)

Lemma startswith_rstrip (sub : string) :
  no_space sub = true ->
  forall x, startswith sub (rstrip x) = startswith sub x.
Proof.
  induction sub as [|c sub IH]; intros Hs x; [reflexivity|].
  cbn [no_space] in Hs. apply andb_true_iff in Hs. destruct Hs as [Hc Hs].
  apply negb_true_iff in Hc.
  destruct x as [|a t]; [reflexivity|].
  rewrite rstrip_cons. pose proof (IH Hs t) as I.
  destruct (rstrip t) as [|b y].
  - destruct (is_space a) eqn:Sa.
    + cbn [startswith].
      destruct (Ascii.eqb_spec c a) as [->|_]; [congruence | reflexivity].
    + cbn [startswith]. rewrite <- I. reflexivity.
  - cbn [startswith]. rewrite <- I. reflexivity.
Qed.

Lemma contains_rstrip (sub : string) :
  no_space sub = true -> String.eqb sub "" = false ->
  forall x, contains sub (rstrip x) = contains sub x.
Proof.
  intros Hs Ne. induction x as [|a t IH]; [reflexivity|].
  assert (E0 : contains sub "" = false).
  { destruct sub; [discriminate Ne | reflexivity]. }
  cbn [contains]. rewrite <- (startswith_rstrip sub Hs (String a t)).
  destruct (rstrip (String a t)) as [|b y] eqn:R.
  - rewrite rstrip_cons in R.
    destruct (rstrip t) as [|b' y'] eqn:Rt; [|discriminate R].
    rewrite <- IH, E0. destruct sub; [discriminate Ne | reflexivity].
  - cbn [contains]. f_equal.
    rewrite rstrip_cons in R.
    destruct (rstrip t) as [|b' y'] eqn:Rt.
    + destruct (is_space a); [discriminate R|].
      injection R as <- <-. rewrite <- IH. reflexivity.
    + injection R as <- <-. exact IH.
Qed.

Lemma contains_lstrip (c : ascii) (sub : string) :
  is_space c = false ->
  forall x, contains (String c sub) (lstrip x) = contains (String c sub) x.
Proof.
  intros Hc. induction x as [|a t IH]; [reflexivity|].
  cbn [lstrip]. destruct (is_space a) eqn:Sa; [|reflexivity].
  rewrite IH. cbn [contains startswith].
  destruct (Ascii.eqb_spec c a) as [->|_]; [congruence | reflexivity].
Qed.

(** X19: a rung whose text holds [MSG] anywhere, be it inside the name of
    an operand, is not translated: [process_rung] returns the comment
    [(*MSG command commented out*)] after the indentation. *)
Theorem msg_rung_commented_out (rung_text tab : string) :
  contains "MSG" rung_text = true ->
  process_rung rung_text tab = tab ++ "(*MSG command commented out*)".
Proof.
  intros H. unfold process_rung, strip.
  rewrite (contains_rstrip "MSG" eq_refl eq_refl).
  rewrite (contains_lstrip "M" "SG" eq_refl), H. reflexivity.
Qed.

Lemma msg_rung_commented_out_witness :
  contains "MSG" "  MOV(MSG_COUNT, Total); OTE(Done) " = true
  /\ process_rung "  MOV(MSG_COUNT, Total); OTE(Done) " ""
     = "(*MSG command commented out*)".
Proof.
  split; [reflexivity|].
  apply (msg_rung_commented_out "  MOV(MSG_COUNT, Total); OTE(Done) " "").
  reflexivity.
Defined.

End InstructionsFacts.

(* ================================================================== *)
(** ** The text helpers of utils.py *)
(* ================================================================== *)

Module UtilsFacts.
Import PyStr PyText Utils StrFacts StrMore StripFacts.

(** *** [format_rung_text] *)

Lemma ends_space_tail (a : ascii) (r : string) :
  ends_space (String a r) = false ->
  ends_space r = false /\ (is_space a = true -> r <> "").
Proof.
  cbn [ends_space]. destruct r as [|b r].
  - intros H. split; [reflexivity|]. congruence.
  - intros H. split; [exact H | discriminate].
Qed.

Lemma split_ws_aux_nonempty (r : string) :
  ends_space r = false -> r <> "" ->
  forall cur, split_ws_aux cur r <> [].
Proof.
  induction r as [|b r IH]; [congruence|]. intros E _ cur.
  destruct (ends_space_tail b r E) as [Er Nb].
  cbn [split_ws_aux]. destruct (is_space b) eqn:Sb.
  - destruct (String.eqb cur ""); [|discriminate].
    apply IH; [exact Er | apply Nb; reflexivity].
  - destruct r as [|c r].
    + cbn [split_ws_aux].
      destruct (cur ++ String b "") eqn:A; [|discriminate].
      destruct cur; discriminate A.
    + apply IH; [exact Er | discriminate].
Qed.

Lemma join_cons_nonempty (sep x : string) (l : list string) :
  l <> [] -> join sep (x :: l) = x ++ sep ++ join sep l.
Proof. destruct l; [congruence | reflexivity]. Qed.

(** The runs of white space inside a text become the single spaces between
    its fields. *)
Lemma collapse_fields (s : string) :
  ends_space s = false ->
  (forall cur, String.eqb cur "" = false ->
     cur ++ collapse_aux false s = join " " (split_ws_aux cur s))
  /\ collapse_aux true s = join " " (split_ws_aux "" s).
Proof.
  induction s as [|a r IH]; intros E.
  - split; [|reflexivity]. intros cur N. cbn [collapse_aux split_ws_aux].
    rewrite N, app_nil_r. reflexivity.
  - destruct (ends_space_tail a r E) as [Er Na].
    destruct (IH Er) as [IH1 IH2]. split.
    + intros cur N. cbn [collapse_aux split_ws_aux].
      destruct (is_space a) eqn:Sa.
      * rewrite N, IH2.
        rewrite join_cons_nonempty
          by (apply split_ws_aux_nonempty; auto).
        reflexivity.
      * rewrite <- IH1.
        -- rewrite app_assoc. reflexivity.
        -- destruct cur; reflexivity.
    + cbn [collapse_aux split_ws_aux]. destruct (is_space a) eqn:Sa.
      * cbn [String.eqb]. exact IH2.
      * cbn [String.append]. rewrite <- (IH1 (String a "")) by reflexivity.
        reflexivity.
Qed.

Lemma split_ws_lstrip (s : string) :
  split_ws_aux "" (lstrip s) = split_ws_aux "" s.
Proof.
  induction s as [|a r IH]; [reflexivity|]. cbn [lstrip split_ws_aux].
  destruct (is_space a) eqn:Sa; [exact IH|].
  cbn [split_ws_aux]. rewrite Sa. reflexivity.
Qed.

Lemma split_ws_aux_cons (a : ascii) (r cur : string) :
  split_ws_aux cur (String a r)
  = if is_space a
    then (if String.eqb cur "" then split_ws_aux "" r
          else cur :: split_ws_aux "" r)
    else split_ws_aux (cur ++ String a "") r.
Proof. reflexivity. Qed.

Lemma split_ws_rstrip (t : string) :
  forall cur, split_ws_aux cur (rstrip t) = split_ws_aux cur t.
Proof.
  induction t as [|a t IH]; intros cur; [reflexivity|].
  rewrite rstrip_cons. destruct (rstrip t) as [|b y] eqn:R.
  - cbn [split_ws_aux]. destruct (is_space a) eqn:Sa.
    + rewrite <- (IH ""). cbn [split_ws_aux]. cbn [String.eqb].
      destruct (String.eqb cur ""); reflexivity.
    + cbn [split_ws_aux]. rewrite Sa.
      rewrite <- (IH (cur ++ String a "")). reflexivity.
  - rewrite !(split_ws_aux_cons a). rewrite !IH. reflexivity.
Qed.

Lemma split_ws_strip (s : string) : split_ws (strip s) = split_ws s.
Proof.
  unfold split_ws, strip. rewrite split_ws_rstrip. apply split_ws_lstrip.
Qed.

Lemma collapse_trimmed (s : string) :
  trimmed s = true -> collapse s = join " " (split_ws s).
Proof.
  intros T. destruct (trimmed_parts s T) as [A B].
  unfold collapse, split_ws. destruct s as [|a r]; [reflexivity|].
  cbn [starts_space] in A. cbn [collapse_aux split_ws_aux]. rewrite A.
  destruct (ends_space_tail a r B) as [Er _].
  destruct (collapse_fields r Er) as [C _].
  cbn [String.append]. rewrite <- (C (String a "")) by reflexivity.
  reflexivity.
Qed.

(** X20: [format_rung_text] of utils.py returns the fields of the text
    (what stands between its runs of white space) joined by single spaces,
    which is [" ".join(text.split())]; so the result has no white space at
    its ends and the function gives the same on its own result. *)
Theorem format_rung_text_fields (text : string) :
  format_rung_text text = join " " (split_ws text)
  /\ trimmed (format_rung_text text) = true
  /\ format_rung_text (format_rung_text text) = format_rung_text text.
Proof.
  assert (F : forall t, format_rung_text t = join " " (split_ws t)).
  { intros t. unfold format_rung_text.
    rewrite (collapse_trimmed _ (strip_trimmed t)). f_equal.
    apply split_ws_strip. }
  assert (W : forall l cur,
             Forall (fun w => no_space w = true /\ String.eqb w "" = false) l ->
             no_space cur = true ->
             split_ws_aux cur (join " " l)
             = if String.eqb (cur ++ join " " l) "" then []
               else match l with
                    | [] => [cur]
                    | w :: l' => (cur ++ w) :: l'
                    end).
  { induction l as [|w l IH]; intros cur Fl Hc.
    - cbn [join split_ws_aux]. rewrite app_nil_r.
      destruct (String.eqb cur ""); reflexivity.
    - inversion Fl as [|? ? [Hw Nw] Fl']; subst.
      assert (Ne : String.eqb (cur ++ w) "" = false).
      { destruct cur; [exact Nw | reflexivity]. }
      destruct l as [|w' l'].
      + cbn [join]. rewrite Ne. apply split_ws_word; assumption.
      + change (join " " (w :: w' :: l'))
          with (w ++ String " " (join " " (w' :: l'))).
        rewrite (split_ws_token w cur _ Hw Ne).
        rewrite (IH "" Fl' eq_refl). cbn [String.append].
        inversion Fl' as [|? ? [Hw' Nw'] _]; subst.
        assert (N2 : String.eqb (join " " (w' :: l')) "" = false).
        { destruct w'; [discriminate Nw'|]. destruct l'; reflexivity. }
        rewrite N2.
        assert (N3 : String.eqb (cur ++ w ++ String " " (join " " (w' :: l')))
                       "" = false).
        { destruct cur; [destruct w|]; reflexivity. }
        rewrite N3. reflexivity. }
  assert (G : forall s cur,
             no_space cur = true ->
             Forall (fun w => no_space w = true /\ String.eqb w "" = false)
               (split_ws_aux cur s)).
  { intros s. induction s as [|a r IH]; intros cur Hc.
    - cbn [split_ws_aux]. destruct (String.eqb cur "") eqn:Ec;
        [constructor|]. constructor; [auto | constructor].
    - rewrite split_ws_aux_cons. destruct (is_space a) eqn:Sa.
      + destruct (String.eqb cur "") eqn:Ec; [apply IH; reflexivity|].
        constructor; [auto | apply IH; reflexivity].
      + apply IH. rewrite no_space_app, Hc. cbn [no_space]. rewrite Sa.
        reflexivity. }
  assert (Fields : forall s,
             Forall (fun w => no_space w = true /\ String.eqb w "" = false)
               (split_ws s)).
  { intros s. apply G. reflexivity. }
  assert (Again : forall s, split_ws (join " " (split_ws s)) = split_ws s).
  { intros s. unfold split_ws at 1. rewrite (W _ "" (Fields s) eq_refl).
    cbn [String.append]. pose proof (Fields s) as Fs.
    destruct (split_ws s) as [|w l]; [reflexivity|].
    inversion Fs as [|? ? [_ Nw] _]; subst.
    assert (N : String.eqb (join " " (w :: l)) "" = false).
    { destruct w; [discriminate Nw|]. destruct l; reflexivity. }
    rewrite N. reflexivity. }
  split; [apply F|]. split.
  - unfold format_rung_text.
    rewrite (collapse_trimmed _ (strip_trimmed text)).
    rewrite split_ws_strip. pose proof (Fields text) as Fs.
    unfold trimmed.
    assert (T : forall l,
               Forall (fun w => no_space w = true /\ String.eqb w "" = false) l ->
               starts_space (join " " l) = false
               /\ ends_space (join " " l) = false).
    { induction l as [|w l IH]; intros Fl; [split; reflexivity|].
      inversion Fl as [|? ? [Hw Nw] Fl']; subst.
      destruct (IH Fl') as [_ E].
      destruct w as [|c w]; [discriminate Nw|].
      cbn [no_space] in Hw. apply andb_true_iff in Hw. destruct Hw as [Hc Hw].
      apply negb_true_iff in Hc.
      split.
      - destruct l; cbn [join String.append starts_space]; exact Hc.
      - destruct l as [|w' l'].
        + cbn [join]. clear -Hc Hw.
          revert c Hc. induction w as [|d w IHw]; intros c Hc; [exact Hc|].
          cbn [no_space] in Hw. apply andb_true_iff in Hw.
          destruct Hw as [Hd Hw]. apply negb_true_iff in Hd.
          change (ends_space (String c (String d w)))
            with (ends_space (String d w)).
          apply (IHw Hw d Hd).
        + change (join " " (String c w :: w' :: l'))
            with (String c w ++ String " " (join " " (w' :: l'))).
          inversion Fl' as [|? ? [_ Nw'] _]; subst.
          assert (Nj : join " " (w' :: l') <> "").
          { destruct w'; [discriminate Nw'|]. destruct l'; discriminate. }
          clear -E Nj. generalize (String c w) as x.
          induction x as [|d x IHx].
          * cbn [String.append ends_space].
            destruct (join " " (w' :: l')); [congruence | exact E].
          * cbn [String.append ends_space]. rewrite IHx.
            destruct (x ++ String " " (join " " (w' :: l'))) eqn:A;
              [|reflexivity].
            destruct x; discriminate A. }
    destruct (T _ Fs) as [A B]. rewrite A, B. reflexivity.
  - rewrite !F. rewrite Again. reflexivity.
Qed.


(** *** [parse_function_call] *)

Lemma span_app (p : ascii -> bool) (x y : string) :
  Shapes.all_chars p x = true ->
  match y with "" => true | String a _ => negb (p a) end = true ->
  span p (x ++ y) = (x, y).
Proof.
  intros Hx Hy. induction x as [|a x IH].
  - cbn [String.append]. destruct y as [|b y]; [reflexivity|].
    cbn [span]. apply negb_true_iff in Hy. rewrite Hy. reflexivity.
  - cbn [Shapes.all_chars] in Hx. apply andb_true_iff in Hx.
    destruct Hx as [Ha Hx]. cbn [String.append span]. rewrite Ha, (IH Hx).
    reflexivity.
Qed.

Lemma lacks_all_chars (c : ascii) (s : string) :
  lacks c s = true ->
  Shapes.all_chars (fun a => negb (Ascii.eqb a c)) s = true.
Proof.
  induction s as [|a s IH]; [reflexivity|]. cbn [lacks Shapes.all_chars].
  intros H. apply andb_true_iff in H. destruct H as [Ha Hs].
  rewrite Ha, (IH Hs). reflexivity.
Qed.

Lemma operand_parts (s : string) :
  operand s = true ->
  String.eqb s "" = false /\ trimmed s = true
  /\ lacks "," s = true /\ lacks ")" s = true.
Proof.
  unfold operand. intros H. apply andb_true_iff in H. destruct H as [H L2].
  apply andb_true_iff in H. destruct H as [H L1].
  apply andb_true_iff in H. destruct H as [N T].
  apply negb_true_iff in N. auto.
Qed.

(** The operands of a call, written with a comma and a space between
    them, are read back one by one. *)
Lemma operands_split (seq : list string) :
  seq <> [] -> forallb operand seq = true ->
  forall pre,
    Rungs.all_space pre = true ->
    map strip
      (filter (fun p => negb (String.eqb (strip p) ""))
         (split_char "," (pre ++ join ", " seq)))
    = seq.
Proof.
  induction seq as [|x seq IH]; [congruence|]. intros _ H pre Hpre.
  cbn [forallb] in H. apply andb_true_iff in H. destruct H as [Hx Hseq].
  destruct (operand_parts x Hx) as (Nx & Tx & Lx & _).
  assert (Lp : lacks "," (pre ++ x) = true).
  { rewrite lacks_app, Lx, (all_space_lacks "," pre eq_refl Hpre).
    reflexivity. }
  assert (Sx : strip (pre ++ x) = x).
  { rewrite (InstructionsFacts.strip_after_space pre x Hpre).
    apply trimmed_strip, Tx. }
  destruct seq as [|y seq].
  - cbn [join]. rewrite (split_char_lacks "," _ Lp). cbn [filter].
    rewrite Sx, Nx. cbn [negb map]. rewrite Sx. reflexivity.
  - change (join ", " (x :: y :: seq))
      with (x ++ String "," (" " ++ join ", " (y :: seq))).
    rewrite <- app_assoc.
    rewrite (split_char_app "," (pre ++ x) _ Lp). cbn [filter].
    rewrite Sx, Nx. cbn [negb map]. rewrite Sx. f_equal.
    apply IH; [discriminate | exact Hseq | reflexivity].
Qed.

Lemma operands_lack (c : ascii) (seq : list string) :
  forallb operand seq = true -> forallb (lacks ")") seq = true.
Proof.
  intros H. apply forallb_forall. intros x Hx.
  rewrite forallb_forall in H.
  destruct (operand_parts x (H x Hx)) as (_ & _ & _ & L). exact L.
Qed.

(** X21: [parse_function_call] reads back what
    [instructions.process_function] writes for a call of a function it does
    not know: from [F(p1, p2, ...);] it returns the name [F] and the
    operands, one by one.  On a text without an opening parenthesis it
    returns the text itself and no operand. *)
Theorem parse_generic_call (func : string) (params : list string) :
  word func = true ->
  forallb operand params = true ->
  parse_function_call (Instructions.generic_call func params)
  = (func, params)
  /\ forall text, lacks "(" text = true ->
       parse_function_call text = (text, []).
Proof.
  intros Hw Hps. split.
  - unfold word in Hw. apply andb_true_iff in Hw. destruct Hw as [Nf Wf].
    apply negb_true_iff in Nf.
    unfold Instructions.generic_call, parse_function_call.
    change (func ++ "(" ++ join ", " params ++ ");")
      with (func ++ String "(" (join ", " params ++ ");")).
    rewrite (span_app word_char func
               (String "(" (join ", " params ++ ");")) Wf eq_refl).
    rewrite Nf.
    cbn [span]. change (is_space "(") with false. cbv iota.
    rewrite Ascii.eqb_refl.
    assert (La : lacks ")" (join ", " params) = true).
    { apply BranchFacts.join_sep_lacks; [reflexivity|].
      apply (operands_lack ")" params Hps). }
    rewrite (span_app _ (join ", " params) ");"
               (lacks_all_chars ")" _ La) eq_refl).
    f_equal. destruct params as [|p ps]; [reflexivity|].
    apply (operands_split (p :: ps) ltac:(discriminate) Hps "" eq_refl).
  - intros text L. unfold parse_function_call.
    destruct (span word_char text) as [name r1] eqn:E1.
    destruct (String.eqb name ""); [reflexivity|].
    destruct (span is_space r1) as [sp r2] eqn:E2.
    destruct r2 as [|c r3]; [reflexivity|].
    destruct (Ascii.eqb_spec c "(") as [->|_]; [|reflexivity].
    exfalso.
    assert (S : forall p s x y, span p s = (x, y) -> s = x ++ y).
    { intros p s. induction s as [|a s IH]; intros x y E.
      - injection E as <- <-. reflexivity.
      - cbn [span] in E. destruct (p a).
        + destruct (span p s) as [x' y'] eqn:E'. injection E as <- <-.
          cbn [String.append]. f_equal. apply (IH x' y' eq_refl).
        + injection E as <- <-. reflexivity. }
    apply S in E1. apply S in E2. subst r1. subst text.
    rewrite !lacks_app in L. cbn [lacks] in L.
    rewrite Ascii.eqb_refl in L. cbn in L.
    rewrite !andb_false_r in L. discriminate L.
Qed.

Lemma parse_generic_call_witness :
  word "Scale" = true
  /\ forallb operand ["In 1"; "Out1"] = true
  /\ parse_function_call "Scale(In 1, Out1);" = ("Scale", ["In 1"; "Out1"]).
Proof.
  split; [reflexivity|]. split; [reflexivity|].
  apply (parse_generic_call "Scale" ["In 1"; "Out1"]); reflexivity.
Defined.

(** *** [get_base_data_type] *)

Lemma sub_lazy_lacks (o c : ascii) (s : string) :
  lacks o s = true -> sub_lazy o c false s = s.
Proof.
  induction s as [|a s IH]; [reflexivity|]. cbn [lacks sub_lazy].
  intros H. apply andb_true_iff in H. destruct H as [Ha Hs].
  apply negb_true_iff in Ha. rewrite Ha. cbn [andb]. rewrite (IH Hs).
  reflexivity.
Qed.

Lemma closes_next (c : ascii) (d rest : string) :
  lacks c d = true -> lacks (chr 10) d = true ->
  closes c (d ++ String c rest) = true.
Proof.
  induction d as [|a d IH]; intros Hc Hn.
  - cbn [String.append closes]. rewrite Ascii.eqb_refl. reflexivity.
  - cbn [lacks] in Hc, Hn. apply andb_true_iff in Hc. destruct Hc as [Ac Hc].
    apply andb_true_iff in Hn. destruct Hn as [An Hn].
    apply negb_true_iff in Ac. apply negb_true_iff in An.
    cbn [String.append closes]. rewrite Ac, An. apply (IH Hc Hn).
Qed.

Lemma skip_to_close (o c : ascii) (d rest : string) :
  lacks c d = true ->
  sub_lazy o c true (d ++ String c rest) = sub_lazy o c false rest.
Proof.
  induction d as [|a d IH]; intros Hc.
  - cbn [String.append sub_lazy]. rewrite Ascii.eqb_refl. reflexivity.
  - cbn [lacks] in Hc. apply andb_true_iff in Hc. destruct Hc as [Ac Hc].
    apply negb_true_iff in Ac.
    cbn [String.append sub_lazy]. rewrite Ac. apply (IH Hc).
Qed.

(** A pair of brackets and what stands between them on one line goes. *)
Lemma sub_lazy_pair (o c : ascii) (b d rest : string) :
  lacks o b = true -> lacks c d = true -> lacks (chr 10) d = true ->
  sub_lazy o c false (b ++ String o (d ++ String c rest))
  = b ++ sub_lazy o c false rest.
Proof.
  intros Hb Hc Hn. induction b as [|a b IH].
  - cbn [String.append sub_lazy]. rewrite Ascii.eqb_refl.
    rewrite (closes_next c d rest Hc Hn). cbn [andb].
    apply skip_to_close. exact Hc.
  - cbn [lacks] in Hb. apply andb_true_iff in Hb. destruct Hb as [Ab Hb].
    apply negb_true_iff in Ab.
    cbn [String.append sub_lazy]. rewrite Ab. cbn [andb].
    rewrite (IH Hb). reflexivity.
Qed.

Lemma sub_lazy_prefix (o c : ascii) (b y : string) :
  lacks o b = true ->
  sub_lazy o c false (b ++ y) = b ++ sub_lazy o c false y.
Proof.
  intros Hb. induction b as [|a b IH]; [reflexivity|].
  cbn [lacks] in Hb. apply andb_true_iff in Hb. destruct Hb as [Ab Hb].
  apply negb_true_iff in Ab.
  cbn [String.append sub_lazy]. rewrite Ab. cbn [andb].
  rewrite (IH Hb). reflexivity.
Qed.

Lemma closes_before (c e : ascii) (x : string) :
  Ascii.eqb e c = false ->
  closes c (x ++ String e "") = closes c x.
Proof.
  intros He. induction x as [|a x IH].
  - cbn [String.append closes]. rewrite He. destruct (Ascii.eqb e (chr 10));
      reflexivity.
  - cbn [String.append closes]. rewrite IH. reflexivity.
Qed.

(** A character that is neither bracket, at the end of the text, stays
    there. *)
Lemma sub_lazy_before (o c e : ascii) (x : string) :
  Ascii.eqb e o = false -> Ascii.eqb e c = false ->
  forall sk,
    (sk = true -> closes c x = true) ->
    sub_lazy o c sk (x ++ String e "") = sub_lazy o c sk x ++ String e "".
Proof.
  intros Ho Hc. induction x as [|a x IH]; intros sk Hsk.
  - destruct sk; [discriminate (Hsk eq_refl)|].
    cbn [String.append sub_lazy]. rewrite Ho. reflexivity.
  - cbn [String.append sub_lazy]. destruct sk.
    + apply IH. intros Hn. specialize (Hsk eq_refl). cbn [closes] in Hsk.
      apply negb_true_iff in Hn. rewrite Hn in Hsk.
      destruct (Ascii.eqb a (chr 10)); [discriminate Hsk | exact Hsk].
    + rewrite (closes_before c e x Hc).
      destruct (Ascii.eqb a o && closes c x) eqn:E.
      * apply IH. intros _. apply andb_true_iff in E. apply E.
      * cbn [String.append]. f_equal. apply IH. discriminate.
Qed.

(** What [sub_lazy] leaves holds no character that the text did not hold. *)
Lemma sub_lazy_lacks_other (o c g : ascii) (x : string) :
  lacks g x = true -> forall sk, lacks g (sub_lazy o c sk x) = true.
Proof.
  induction x as [|a x IH]; intros H sk; [reflexivity|].
  cbn [lacks] in H. apply andb_true_iff in H. destruct H as [Ha Hx].
  cbn [sub_lazy]. destruct sk; [apply (IH Hx)|].
  destruct (Ascii.eqb a o && closes c x); [apply (IH Hx)|].
  cbn [lacks]. rewrite Ha, (IH Hx). reflexivity.
Qed.

(** X22: [get_base_data_type] takes the dimensions off an array type:
    for a base name [b] without an opening bracket and without white space
    at its ends, and dimensions [d] on one line, [b[d]] gives [b]; so does
    [b<d>], whatever brackets [d] holds; and such a name alone is given
    back as it is. *)
Theorem base_data_type_of_array (b d : string) :
  trimmed b = true ->
  lacks "[" b = true -> lacks "<" b = true ->
  lacks (chr 10) d = true ->
  (lacks "]" d = true -> get_base_data_type (b ++ "[" ++ d ++ "]") = b)
  /\ (lacks ">" d = true -> get_base_data_type (b ++ "<" ++ d ++ ">") = b)
  /\ get_base_data_type b = b.
Proof.
  intros T L1 L2 Ln. unfold get_base_data_type. splits.
  - intros Lc.
    change (b ++ "[" ++ d ++ "]") with (b ++ String "[" (d ++ String "]" "")).
    rewrite (sub_lazy_pair "[" "]" b d "" L1 Lc Ln).
    cbn [sub_lazy]. rewrite app_nil_r.
    rewrite (sub_lazy_lacks "<" ">" b L2). apply trimmed_strip, T.
  - intros Lc.
    change (b ++ "<" ++ d ++ ">") with (b ++ String "<" (d ++ String ">" "")).
    rewrite (sub_lazy_prefix "[" "]" b _ L1).
    change (sub_lazy "[" "]" false (String "<" (d ++ String ">" "")))
      with (String "<" (sub_lazy "[" "]" false (d ++ String ">" ""))).
    rewrite (sub_lazy_before "[" "]" ">" d eq_refl eq_refl false)
      by discriminate.
    rewrite (sub_lazy_pair "<" ">" b _ "" L2
               (sub_lazy_lacks_other "[" "]" ">" d Lc false)
               (sub_lazy_lacks_other "[" "]" (chr 10) d Ln false)).
    cbn [sub_lazy]. rewrite app_nil_r. apply trimmed_strip, T.
  - rewrite (sub_lazy_lacks "[" "]" b L1), (sub_lazy_lacks "<" ">" b L2).
    apply trimmed_strip, T.
Qed.

Lemma base_data_type_of_array_witness :
  get_base_data_type "DINT[4,2]" = "DINT"
  /\ get_base_data_type "Q<a[1]>" = "Q"
  /\ get_base_data_type "DINT" = "DINT".
Proof.
  destruct (base_data_type_of_array "DINT" "4,2"
              eq_refl eq_refl eq_refl eq_refl) as (A & _ & C).
  destruct (base_data_type_of_array "Q" "a[1]"
              eq_refl eq_refl eq_refl eq_refl) as (_ & B & _).
  split; [exact (A eq_refl)|]. split; [exact (B eq_refl) | exact C].
Defined.

End UtilsFacts.


(* ================================================================== *)
(** ** The compiler state *)
(* ================================================================== *)

Module StateFacts.
Import PyStr PyText State.

Lemma add_variable_aligned (st : CompilerState) (n t o : string) :
  aligned st -> aligned (add_variable st n t o).
Proof.
  intros [A B]. unfold add_variable.
  destruct (mem (lower n) (var_names st)); [exact (conj A B)|].
  cbn [negb]. split; cbn [data_types var_origin var_names];
    rewrite DictFacts.keys_set; congruence.
Qed.

Lemma add_variable_get (st : CompilerState) (n t o k : string) :
  aligned st ->
  Dict.get k (data_types (add_variable st n t o))
  = match Dict.get k (data_types st) with
    | Some v => Some v
    | None => if String.eqb (lower n) k then Some t else None
    end
  /\ Dict.get k (var_origin (add_variable st n t o))
     = match Dict.get k (var_origin st) with
       | Some v => Some v
       | None => if String.eqb (lower n) k then Some o else None
       end.
Proof.
  intros [A B]. unfold add_variable.
  destruct (mem (lower n) (var_names st)) eqn:M; cbn [negb].
  - apply FbdFacts.mem_In in M.
    assert (G : forall d : Dict.t string,
               Dict.keys d = var_names st ->
               forall x, Dict.get k d
               = match Dict.get k d with
                 | Some v => Some v
                 | None => if String.eqb (lower n) k then Some x else None
                 end).
    { intros d E x. destruct (Dict.get k d) eqn:G; [reflexivity|].
      destruct (String.eqb_spec (lower n) k) as [<-|_]; [|reflexivity].
      apply DictFacts.get_none_keys in G. rewrite E in G. contradiction. }
    split; [apply (G _ A) | apply (G _ B)].
  - apply FbdFacts.mem_not_In in M.
    assert (G : forall (d : Dict.t string) x,
               Dict.keys d = var_names st ->
               Dict.get k (Dict.set (lower n) x d)
               = match Dict.get k d with
                 | Some v => Some v
                 | None => if String.eqb (lower n) k then Some x else None
                 end).
    { intros d x E. rewrite DictFacts.get_set.
      destruct (String.eqb_spec k (lower n)) as [->|N].
      - rewrite String.eqb_refl.
        rewrite <- E in M. apply DictFacts.get_none_keys in M. rewrite M.
        reflexivity.
      - destruct (Dict.get k d); [reflexivity|].
        destruct (String.eqb_spec (lower n) k); [congruence | reflexivity]. }
    cbn [data_types var_origin]. split; [apply (G _ _ A) | apply (G _ _ B)].
Qed.

Lemma add_variables_get (regs : list Registration) :
  forall st k,
    aligned st ->
    aligned (add_variables st regs)
    /\ Dict.get k (data_types (add_variables st regs))
       = match Dict.get k (data_types st) with
         | Some v => Some v
         | None =>
             option_map reg_type
               (find (fun r => String.eqb (lower (reg_name r)) k) regs)
         end
    /\ Dict.get k (var_origin (add_variables st regs))
       = match Dict.get k (var_origin st) with
         | Some v => Some v
         | None =>
             option_map reg_origin
               (find (fun r => String.eqb (lower (reg_name r)) k) regs)
         end.
Proof.
  induction regs as [|r regs IH]; intros st k Hst.
  - cbn. split; [exact Hst|].
    split; [destruct (Dict.get k (data_types st))
           | destruct (Dict.get k (var_origin st))]; reflexivity.
  - change (add_variables st (r :: regs))
      with (add_variables
              (add_variable st (reg_name r) (reg_type r) (reg_origin r)) regs).
    pose proof (add_variable_aligned st (reg_name r) (reg_type r)
                  (reg_origin r) Hst) as H1.
    destruct (IH _ k H1) as (I1 & I2 & I3).
    destruct (add_variable_get st (reg_name r) (reg_type r) (reg_origin r) k
                Hst) as [G1 G2].
    split; [exact I1|]. rewrite I2, I3, G1, G2. cbn [find].
    split.
    + destruct (Dict.get k (data_types st)); [reflexivity|].
      destruct (String.eqb (lower (reg_name r)) k); reflexivity.
    + destruct (Dict.get k (var_origin st)); [reflexivity|].
      destruct (String.eqb (lower (reg_name r)) k); reflexivity.
Qed.

Lemma add_variable_NoDup (st : CompilerState) (n t o : string) :
  NoDup (var_names st) -> NoDup (var_names (add_variable st n t o)).
Proof.
  intros N. unfold add_variable.
  destruct (mem (lower n) (var_names st)) eqn:M; cbn [negb]; [exact N|].
  cbn [var_names]. unfold Dict.add_distinct. unfold mem in M. rewrite M.
  apply FbdFacts.mem_not_In in M.
  apply NoDup_app; [exact N | repeat constructor; simpl; tauto|].
  intros x I [E|[]]. subst x. exact (M I).
Qed.

(** X23: [CompilerState.add_variable] registers a variable under the lower
    case of its name, and the first registration wins: after any calls on
    a new state, the type and the origin kept for a name, looked up in
    lower case, are those of the first call whose name has the same lower
    case, and no later call changes them.  [var_names], [data_types] and
    [var_origin] hold the same names, in the same order, each once. *)
Theorem first_registration_wins (regs : list Registration) (name : string) :
  let st := add_variables initial regs in
  Dict.get (lower name) (data_types st)
  = option_map reg_type (first_registration name regs)
  /\ Dict.get (lower name) (var_origin st)
     = option_map reg_origin (first_registration name regs)
  /\ Dict.keys (data_types st) = var_names st
  /\ Dict.keys (var_origin st) = var_names st
  /\ NoDup (var_names st).
Proof.
  intros st. subst st.
  assert (A0 : aligned initial) by (split; reflexivity).
  destruct (add_variables_get regs initial (lower name) A0)
    as ([A B] & G1 & G2).
  splits; [exact G1 | exact G2 | exact A | exact B |].
  assert (N : forall st, NoDup (var_names st) ->
                NoDup (var_names (add_variables st regs))).
  { clear. induction regs as [|r regs IH]; intros st N; [exact N|].
    apply (IH (add_variable st (reg_name r) (reg_type r) (reg_origin r))).
    apply add_variable_NoDup, N. }
  apply N. constructor.
Qed.

End StateFacts.


(* ================================================================== *)
(** ** The text of the generated routine *)
(* ================================================================== *)

Module St2L5xFacts.
Import PyStr PyText St2L5x StrFacts StripFacts.

Lemma endswith_snoc (x : string) (a : ascii) :
  endswith (String a "") (x ++ String a "") = true.
Proof.
  unfold endswith. rewrite rev_snoc. cbn. rewrite Ascii.eqb_refl. reflexivity.
Qed.

Lemma format_statement_closed (s : string) :
  forallb closed_statement (format_statement s) = true.
Proof.
  unfold format_statement.
  destruct (String.eqb (strip s) "") eqn:E; [reflexivity|].
  cbn [negb forallb]. rewrite andb_true_r.
  pose proof (strip_trimmed s) as T.
  destruct (endswith ";" (strip s)) eqn:W; cbn [negb]; unfold closed_statement.
  - rewrite E, T, W. reflexivity.
  - destruct (trimmed_parts _ T) as [A B].
    assert (N : String.eqb (strip s ++ ";") "" = false)
      by (destruct (strip s); reflexivity).
    assert (T' : trimmed (strip s ++ ";") = true).
    { unfold trimmed. rewrite (InstructionsFacts.ends_space_snoc (strip s) ";").
      destruct (strip s) eqn:S; [discriminate E|].
      cbn [String.append starts_space] in *. rewrite A. reflexivity. }
    rewrite N, T', (endswith_snoc (strip s) ";"). reflexivity.
Qed.

Lemma format_closed_statement (s : string) :
  closed_statement s = true -> format_statement s = [s].
Proof.
  unfold closed_statement. intros H.
  apply andb_true_iff in H. destruct H as [H W].
  apply andb_true_iff in H. destruct H as [N T].
  unfold format_statement. rewrite (trimmed_strip s T), N, W. reflexivity.
Qed.

(** X24: every line that [_format_st_code] writes is a statement that is
    not empty, has no white space at its ends and ends with a semicolon
    (a comment or an [IF ... THEN] line gets one too); lines of that kind
    are written as they are, so formatting the lines again changes nothing.
    Statements that are all blank give the empty text, not the comment
    [// No program logic found], which the empty list gives and no other
    list does. *)
Theorem format_st_code_lines (program_logic : list string) :
  forallb closed_statement (formatted_code program_logic) = true
  /\ formatted_code (formatted_code program_logic)
     = formatted_code program_logic
  /\ (program_logic <> [] ->
      forallb Rungs.all_space program_logic = true ->
      _format_st_code program_logic = "")
  /\ (_format_st_code program_logic = "// No program logic found" <->
      program_logic = []).
Proof.
  assert (C : forallb closed_statement (formatted_code program_logic) = true).
  { unfold formatted_code.
    induction program_logic as [|s l IH]; [reflexivity|].
    cbn [flat_map]. rewrite forallb_app, format_statement_closed, IH.
    reflexivity. }
  splits.
  - exact C.
  - revert C. generalize (formatted_code program_logic). intros l.
    unfold formatted_code. induction l as [|s l IH]; [reflexivity|].
    cbn [forallb flat_map]. intros H. apply andb_true_iff in H.
    destruct H as [Hs Hl]. rewrite (format_closed_statement s Hs), (IH Hl).
    reflexivity.
  - intros Ne B. destruct program_logic as [|s l]; [congruence|].
    unfold _format_st_code.
    assert (E : forall l, forallb Rungs.all_space l = true ->
                  formatted_code l = []).
    { clear. unfold formatted_code. induction l as [|s l IH]; [reflexivity|].
      cbn [forallb flat_map]. intros H. apply andb_true_iff in H.
      destruct H as [Hs Hl]. rewrite (IH Hl). unfold format_statement.
      rewrite (strip_all_space s Hs). reflexivity. }
    rewrite (E _ B). reflexivity.
  - split; [|intros ->; reflexivity].
    intros H. destruct program_logic as [|s l]; [reflexivity|].
    exfalso. unfold _format_st_code in H. revert C H.
    generalize (formatted_code (s :: l)). clear. intros l C H.
    assert (J : forall l, forallb closed_statement l = true ->
                  lacks (chr 10) (join (String (chr 10) "") l) = true ->
                  match l with [] => True | [_] => True | _ => False end).
    { clear. intros [|x [|y l]] _ L; [exact I | exact I|].
      change (join (String (chr 10) "") (x :: y :: l))
        with (x ++ String (chr 10) (join (String (chr 10) "") (y :: l))) in L.
      rewrite lacks_app in L. cbn [lacks] in L. rewrite Ascii.eqb_refl in L.
      cbn in L. rewrite andb_false_r in L. discriminate L. }
    assert (L : lacks (chr 10) (join (String (chr 10) "") l) = true)
      by (rewrite H; reflexivity).
    specialize (J l C L). destruct l as [|x [|y l]]; [|cbn in H; subst x|].
    + discriminate H.
    + discriminate C.
    + contradiction.
Qed.

Lemma format_st_code_lines_witness :
  ["  "; ""] <> [] /\ forallb Rungs.all_space ["  "; ""] = true
  /\ _format_st_code ["  "; ""] = "".
Proof.
  split; [discriminate|]. split; [reflexivity|].
  destruct (format_st_code_lines ["  "; ""]) as (_ & _ & A & _).
  apply A; [discriminate | reflexivity].
Defined.

End St2L5xFacts.


(* ================================================================== *)
(** ** Operands of a binary operator *)
(* ================================================================== *)

Module TokensFacts.
Import PyStr PyText Tokens.

Lemma length_set_item (i : nat) (v : string) (l : list string) :
  List.length (set_item i v l) = List.length l.
Proof.
  revert i. induction l as [|x l IH]; intros [|i]; cbn; auto.
Qed.

Lemma item_set_item (j k : nat) (v : string) (l : list string) :
  item j (set_item k v l)
  = if ((j =? k) && (k <? List.length l))%nat then v else item j l.
Proof.
  unfold item. revert j k. induction l as [|x l IH]; intros j k.
  - destruct k; cbn [set_item List.length]; rewrite andb_false_r;
      reflexivity.
  - destruct k as [|k], j as [|j]; cbn [set_item nth List.length];
      try reflexivity.
    rewrite IH. reflexivity.
Qed.

Lemma item_tab (f : nat -> string) (n j : nat) :
  (j < n)%nat -> item j (map f (seq 0 n)) = f j.
Proof.
  intros H. unfold item.
  rewrite (nth_indep _ "" (f 0%nat))
    by (rewrite length_map, length_seq; exact H).
  rewrite map_nth, seq_nth by exact H. reflexivity.
Qed.

Lemma tab_ext (f : nat -> string) (l : list string) :
  (forall j, (j < List.length l)%nat -> item j l = f j) ->
  l = map f (seq 0 (List.length l)).
Proof.
  intros H. apply (nth_ext _ _ "" "").
  - rewrite length_map, length_seq. reflexivity.
  - intros j Hj. fold (item j l). fold (item j (map f (seq 0 (List.length l)))).
    rewrite (item_tab f _ j Hj). apply H, Hj.
Qed.

Lemma isdigit_parts (x : string) :
  py_isdigit x = true ->
  lacks "." x = true /\ py_isdigit (x ++ ".0") = false
  /\ arithmetic x = false.
Proof.
  unfold py_isdigit. intros H. apply andb_true_iff in H.
  destruct H as [N H]. split; [|split].
  - clear N. induction x as [|a x IH]; [reflexivity|].
    apply andb_true_iff in H. destruct H as [Ha Hx].
    cbn [lacks]. rewrite (IH Hx), andb_true_r.
    destruct (Ascii.eqb_spec a ".") as [->|_]; [discriminate Ha|reflexivity].
  - apply andb_false_iff. right. clear N.
    induction x as [|a x IH]; [reflexivity|].
    apply andb_true_iff in H. destruct H as [Ha Hx].
    cbn [String.append]. rewrite Ha. cbn [andb]. apply (IH Hx).
  - destruct x as [|a x]; [discriminate N|].
    apply andb_true_iff in H. destruct H as [Ha _].
    unfold arithmetic, mem. cbn [existsb].
    repeat match goal with
           | |- context [String.eqb (String a x) ?k] =>
               destruct (String.eqb_spec (String a x) k) as [E|_];
               [injection E as -> _; discriminate Ha|]
           end.
    reflexivity.
Qed.

Lemma arithmetic_fraction (oper x : string) :
  arithmetic oper = true -> String.eqb (x ++ ".0") oper = false.
Proof.
  unfold arithmetic, mem. cbn [existsb]. intros H.
  destruct (String.eqb_spec (x ++ ".0") oper) as [E|_]; [|reflexivity].
  exfalso. subst oper.
  repeat (apply orb_true_iff in H; destruct H as [H|H]);
    try discriminate H; apply String.eqb_eq in H;
    apply (f_equal String.length) in H;
    rewrite StrFacts.length_app in H; cbn in H; lia.
Qed.

Lemma whole_number_digit (x : string) : whole_number x = py_isdigit x.
Proof.
  unfold whole_number. destruct (py_isdigit x) eqn:D; [|reflexivity].
  destruct (isdigit_parts x D) as (L & _). rewrite L. reflexivity.
Qed.


#[local] Abbreviation changed t oper i j :=
  (after_operator t oper j && (j <=? i)%nat
   || before_operator t oper j && (j + 2 <=? i)%nat).

(** The guard of the loop, on the list as the caller gave it. *)
#[local] Abbreviation guard t oper i :=
  (String.eqb (item i t) oper && (0 <? i)%nat
   && Nat.ltb (i + 1) (List.length t)).

Lemma length_tokens_at (t : list string) (oper : string) (i : nat) :
  List.length (tokens_at t oper i) = List.length t.
Proof. unfold tokens_at. rewrite length_map, length_seq. reflexivity. Qed.

Lemma item_tokens_at (t : list string) (oper : string) (i j : nat) :
  (j < List.length t)%nat ->
  item j (tokens_at t oper i)
  = with_fraction (changed t oper i j) (item j t).
Proof.
  intros H. unfold tokens_at.
  exact (item_tab
           (fun j => with_fraction (changed t oper i j) (item j t)) _ j H).
Qed.

Lemma after_parts (t : list string) (oper : string) (j : nat) :
  after_operator t oper j = true ->
  arithmetic oper = true /\ (2 <= j)%nat /\ item (j - 1) t = oper
  /\ py_isdigit (item j t) = true.
Proof.
  unfold after_operator. intros H.
  apply andb_true_iff in H. destruct H as [H D].
  apply andb_true_iff in H. destruct H as [H E].
  apply andb_true_iff in H. destruct H as [A L].
  apply String.eqb_eq in E. apply Nat.leb_le in L. auto.
Qed.

Lemma before_parts (t : list string) (oper : string) (j : nat) :
  before_operator t oper j = true ->
  arithmetic oper = true /\ item (j + 1) t = oper
  /\ (j + 2 < List.length t)%nat /\ py_isdigit (item j t) = true.
Proof.
  unfold before_operator. intros H.
  apply andb_true_iff in H. destruct H as [H D].
  apply andb_true_iff in H. destruct H as [H L].
  apply andb_true_iff in H. destruct H as [A E].
  apply String.eqb_eq in E. apply Nat.ltb_lt in L. auto.
Qed.

Lemma guard_parts (t : list string) (oper : string) (i : nat) :
  guard t oper i = true ->
  item i t = oper /\ (0 < i)%nat /\ (i + 1 < List.length t)%nat.
Proof.
  intros H. apply andb_true_iff in H. destruct H as [H L].
  apply andb_true_iff in H. destruct H as [E P].
  apply String.eqb_eq in E. apply Nat.ltb_lt in L. apply Nat.ltb_lt in P.
  auto.
Qed.

(** A token that got its fraction is not the operator, and was not. *)
Lemma changed_not_oper (t : list string) (oper : string) (i j : nat) :
  String.eqb (with_fraction (changed t oper i j) (item j t)) oper
  = String.eqb (item j t) oper.
Proof.
  destruct (changed t oper i j) eqn:C; [|reflexivity].
  cbn [with_fraction].
  assert (H : arithmetic oper = true /\ py_isdigit (item j t) = true).
  { apply orb_true_iff in C. destruct C as [C|C];
      apply andb_true_iff in C; destruct C as [C _].
    - destruct (after_parts _ _ _ C) as (A & _ & _ & D). auto.
    - destruct (before_parts _ _ _ C) as (A & _ & _ & D). auto. }
  destruct H as [A D]. rewrite (arithmetic_fraction oper _ A).
  destruct (String.eqb_spec (item j t) oper) as [E|_]; [|reflexivity].
  destruct (isdigit_parts _ D) as (_ & _ & N). rewrite E in N. congruence.
Qed.

Lemma whole_with_fraction (b : bool) (x : string) :
  (b = true -> py_isdigit x = true) ->
  whole_number (with_fraction b x) = negb b && py_isdigit x.
Proof.
  intros H. rewrite whole_number_digit. destruct b; [|reflexivity].
  cbn [with_fraction negb andb].
  destruct (isdigit_parts x (H eq_refl)) as (_ & F & _). exact F.
Qed.



(** What turn [i] adds to the tokens that are changed. *)
Lemma changed_step (t : list string) (oper : string) (i j : nat) :
  (j < List.length t)%nat ->
  changed t oper (i + 1) j
  = changed t oper i j
    || guard t oper i && arithmetic oper
       && ((j =? i + 1)%nat && py_isdigit (item (i + 1) t)
           || (j + 1 =? i)%nat && py_isdigit (item (i - 1) t)).
Proof.
  intros Hj.
  destruct (Nat.eq_dec j (i + 1)) as [->|N1].
  - replace (i + 1 <=? i + 1)%nat with true by (symmetry; apply Nat.leb_le; lia).
    replace (i + 1 <=? i)%nat with false by (symmetry; apply Nat.leb_gt; lia).
    replace (i + 1 + 2 <=? i + 1)%nat with false
      by (symmetry; apply Nat.leb_gt; lia).
    replace (i + 1 + 2 <=? i)%nat with false
      by (symmetry; apply Nat.leb_gt; lia).
    replace (i + 1 + 1 =? i)%nat with false
      by (symmetry; apply Nat.eqb_neq; lia).
    rewrite Nat.eqb_refl, !andb_false_r, !andb_true_r, !orb_false_r.
    cbn [orb andb]. unfold after_operator.
    replace (i + 1 - 1)%nat with i by lia.
    replace (2 <=? i + 1)%nat with (0 <? i)%nat
      by (destruct (Nat.leb_spec 2 (i + 1)), (Nat.ltb_spec 0 i);
          reflexivity || lia).
    replace (i + 1 <? List.length t)%nat with true
      by (symmetry; apply Nat.ltb_lt; lia).
    destruct (arithmetic oper), (0 <? i)%nat, (String.eqb (item i t) oper),
      (py_isdigit (item (i + 1) t)); reflexivity.
  - replace (j =? i + 1)%nat with false by (symmetry; apply Nat.eqb_neq; lia).
    replace (j <=? i + 1)%nat with (j <=? i)%nat
      by (destruct (Nat.leb_spec j i), (Nat.leb_spec j (i + 1));
          reflexivity || lia).
    destruct (Nat.eq_dec (j + 1) i) as [<-|N2].
    + replace (j + 2 <=? j + 1 + 1)%nat with true
        by (symmetry; apply Nat.leb_le; lia).
      replace (j + 2 <=? j + 1)%nat with false
        by (symmetry; apply Nat.leb_gt; lia).
      replace (j <=? j + 1)%nat with true by (symmetry; apply Nat.leb_le; lia).
      rewrite Nat.eqb_refl. replace (j + 1 - 1)%nat with j by lia.
      rewrite !andb_true_r, !andb_false_r, !orb_false_r. cbn [andb orb].
      unfold before_operator.
      replace (0 <? j + 1)%nat with true by (symmetry; apply Nat.ltb_lt; lia).
      replace (j + 1 + 1)%nat with (j + 2)%nat by lia.
      destruct (after_operator t oper j), (arithmetic oper),
        (String.eqb (item (j + 1) t) oper), (j + 2 <? List.length t)%nat,
        (py_isdigit (item j t)); reflexivity.
    + replace (j + 1 =? i)%nat with false by (symmetry; apply Nat.eqb_neq; lia).
      replace (j + 2 <=? i + 1)%nat with (j + 2 <=? i)%nat
        by (destruct (Nat.leb_spec (j + 2) i), (Nat.leb_spec (j + 2) (i + 1));
            reflexivity || lia).
      cbn [andb orb]. rewrite !andb_false_r, orb_false_r. reflexivity.
Qed.



Lemma turn_item (t : list string) (oper : string) (i j : nat) :
  (i < List.length t)%nat -> (j < List.length t)%nat ->
  item j (turn oper (tokens_at t oper i) i)
  = with_fraction (changed t oper (i + 1) j) (item j t).
Proof.
  intros Hi Hj. rewrite (changed_step t oper i j Hj). unfold turn.
  rewrite length_tokens_at, (item_tokens_at t oper i i Hi), changed_not_oper.
  destruct (guard t oper i) eqn:G;
    [|cbn [andb]; rewrite orb_false_r; apply item_tokens_at, Hj].
  destruct (guard_parts _ _ _ G) as (E & P & L).
  destruct (arithmetic oper) eqn:A;
    [|cbn [andb]; rewrite orb_false_r; apply item_tokens_at, Hj].
  cbn [andb].
  rewrite (item_tokens_at t oper i (i - 1)) by lia.
  rewrite (item_tokens_at t oper i (i + 1)) by lia.
  assert (CR : changed t oper i (i + 1) = false).
  { replace (i + 1 <=? i)%nat with false by (symmetry; apply Nat.leb_gt; lia).
    replace (i + 1 + 2 <=? i)%nat with false
      by (symmetry; apply Nat.leb_gt; lia).
    rewrite !andb_false_r. reflexivity. }
  assert (CL : changed t oper i (i - 1) = after_operator t oper (i - 1)).
  { replace (i - 1 <=? i)%nat with true by (symmetry; apply Nat.leb_le; lia).
    replace (i - 1 + 2 <=? i)%nat with false
      by (symmetry; apply Nat.leb_gt; lia).
    rewrite andb_true_r, andb_false_r, orb_false_r. reflexivity. }
  rewrite CR, CL. cbn [with_fraction].
  rewrite whole_with_fraction
    by (intros H; apply after_parts in H; tauto).
  rewrite whole_number_digit.
  set (tok := tokens_at t oper i).
  set (tok1 := if negb (after_operator t oper (i - 1))
                  && py_isdigit (item (i - 1) t)
               then set_item (i - 1)
                      (with_fraction (after_operator t oper (i - 1))
                         (item (i - 1) t) ++ ".0") tok
               else tok).
  assert (L1 : List.length tok1 = List.length t).
  { unfold tok1.
    destruct (negb (after_operator t oper (i - 1))
              && py_isdigit (item (i - 1) t));
      [rewrite length_set_item|]; apply length_tokens_at. }
  assert (T1 : item j tok1
               = with_fraction
                   (changed t oper i j
                    || (j + 1 =? i)%nat && py_isdigit (item (i - 1) t))
                   (item j t)).
  { unfold tok1.
    destruct (Nat.eqb_spec (j + 1) i) as [J|J].
    - replace j with (i - 1)%nat in * by lia.
      pose proof (item_tokens_at t oper i (i - 1) Hj) as Hk. fold tok in Hk.
      rewrite CL in Hk. rewrite CL. cbn [andb].
      destruct (after_operator t oper (i - 1)) eqn:AF; cbn [negb andb orb].
      + exact Hk.
      + destruct (py_isdigit (item (i - 1) t)) eqn:D.
        * rewrite item_set_item, Nat.eqb_refl. unfold tok.
          rewrite length_tokens_at.
          replace (i - 1 <? List.length t)%nat with true
            by (symmetry; apply Nat.ltb_lt; lia).
          reflexivity.
        * exact Hk.
    - cbn [andb]. rewrite orb_false_r.
      destruct (negb (after_operator t oper (i - 1))
                && py_isdigit (item (i - 1) t)).
      + rewrite item_set_item.
        replace (j =? i - 1)%nat with false
          by (symmetry; apply Nat.eqb_neq; lia).
        apply item_tokens_at, Hj.
      + apply item_tokens_at, Hj. }
  destruct (py_isdigit (item (i + 1) t)) eqn:D.
  - rewrite item_set_item, L1.
    replace (i + 1 <? List.length t)%nat with true
      by (symmetry; apply Nat.ltb_lt; lia).
    rewrite andb_true_r.
    destruct (Nat.eqb_spec j (i + 1)) as [->|J].
    + cbn [andb orb]. rewrite orb_true_r. reflexivity.
    + rewrite T1. cbn [andb orb]. reflexivity.
  - rewrite T1, andb_false_r. cbn [orb]. reflexivity.
Qed.



Lemma length_turn (oper : string) (l : list string) (i : nat) :
  List.length (turn oper l i) = List.length l.
Proof.
  unfold turn.
  repeat match goal with
         | |- context [if ?b then _ else _] => destruct b
         end; rewrite ?length_set_item; reflexivity.
Qed.

Lemma turn_step (t : list string) (oper : string) (i : nat) :
  (i < List.length t)%nat ->
  turn oper (tokens_at t oper i) i = tokens_at t oper (i + 1).
Proof.
  intros Hi.
  assert (Ln : List.length (turn oper (tokens_at t oper i) i)
               = List.length t)
    by (rewrite length_turn; apply length_tokens_at).
  rewrite (tab_ext
             (fun j => with_fraction (changed t oper (i + 1) j) (item j t))
             (turn oper (tokens_at t oper i) i)).
  - rewrite Ln. reflexivity.
  - intros j Hj. rewrite Ln in Hj. apply (turn_item t oper i j Hi Hj).
Qed.

Lemma tokens_at_start (t : list string) (oper : string) :
  tokens_at t oper 0 = t.
Proof.
  symmetry. unfold tokens_at. apply tab_ext. intros j _.
  destruct (changed t oper 0 j) eqn:C; [exfalso|reflexivity].
  apply orb_true_iff in C. destruct C as [C|C];
    apply andb_true_iff in C; destruct C as [C L]; apply Nat.leb_le in L.
  - destruct (after_parts _ _ _ C) as (_ & J & _). lia.
  - lia.
Qed.

Lemma tokens_at_end (t : list string) (oper : string) :
  tokens_at t oper (List.length t)
  = map (fun j =>
           with_fraction (after_operator t oper j || before_operator t oper j)
             (item j t))
        (seq 0 (List.length t)).
Proof.
  unfold tokens_at. apply map_ext_in. intros j Hj. apply in_seq in Hj.
  replace (j <=? List.length t)%nat with true
    by (symmetry; apply Nat.leb_le; lia).
  rewrite andb_true_r.
  destruct (before_operator t oper j) eqn:B; [|reflexivity].
  destruct (before_parts _ _ _ B) as (_ & _ & L & _).
  replace (j + 2 <=? List.length t)%nat with true
    by (symmetry; apply Nat.leb_le; lia).
  reflexivity.
Qed.

Lemma loop_closed (t : list string) (oper : string) (k : nat) :
  forall i result,
    (i + k = List.length t)%nat ->
    loop (S k) oper (tokens_at t oper i) i result
    = Some ((result
             ++ map (fun j =>
                       with_fraction (after_operator t oper j) (item j t))
                    (seq i k))%list,
            tokens_at t oper (List.length t)).
Proof.
  induction k as [|k IH]; intros i result H.
  - cbn [loop]. rewrite length_tokens_at.
    replace (i <? List.length t)%nat with false
      by (symmetry; apply Nat.ltb_ge; lia).
    cbn [seq map]. rewrite List.app_nil_r.
    replace (List.length t) with i by lia. reflexivity.
  - change (loop (S (S k)) oper (tokens_at t oper i) i result)
      with (if (i <? List.length (tokens_at t oper i))%nat
            then loop (S k) oper (turn oper (tokens_at t oper i) i) (i + 1)
                   (result ++ [item i (turn oper (tokens_at t oper i) i)])
            else Some (result, tokens_at t oper i)).
    rewrite length_tokens_at.
    replace (i <? List.length t)%nat with true
      by (symmetry; apply Nat.ltb_lt; lia).
    rewrite (turn_step t oper i) by lia.
    rewrite (IH (i + 1)%nat) by lia.
    rewrite (item_tokens_at t oper (i + 1) i) by lia.
    replace (i <=? i + 1)%nat with true by (symmetry; apply Nat.leb_le; lia).
    replace (i + 2 <=? i + 1)%nat with false
      by (symmetry; apply Nat.leb_gt; lia).
    rewrite andb_true_r, andb_false_r, orb_false_r.
    rewrite <- List.app_assoc. cbn [seq map app].
    replace (i + 1)%nat with (S i) by lia. reflexivity.
Qed.

(** X25: [fix_mismatched_binary_expr] with an arithmetic operator: in the
    list it returns, a token right after the operator gets [.0] when it
    is a number without a fraction (and the operator is not the first
    token), but the token right before the operator never does: the loop
    has copied it to the result before it changes it.  The change of the
    left operand is made in the list of the caller only, which holds both
    changes after the call.  The loop ends, and no token is added or
    dropped. *)
Theorem fix_mismatched_binary_expr_closed (tokenized : list string)
  (oper : string) :
  fix_mismatched_binary_expr tokenized oper
  = Some (map (fun j =>
                 with_fraction (after_operator tokenized oper j)
                   (item j tokenized))
              (seq 0 (List.length tokenized)),
          map (fun j =>
                 with_fraction
                   (after_operator tokenized oper j
                    || before_operator tokenized oper j)
                   (item j tokenized))
              (seq 0 (List.length tokenized))).
Proof.
  unfold fix_mismatched_binary_expr.
  rewrite <- (tokens_at_start tokenized oper) at 2.
  rewrite (loop_closed tokenized oper (List.length tokenized) 0%nat [])
    by reflexivity.
  rewrite tokens_at_end. reflexivity.
Qed.


End TokensFacts.
